(** * L'Oreal routine builder: selection store and chat pipeline

    A shallow embedding of [script.js]: the selection [Map], its persistence
    in [localStorage], the chip projection, and the two asynchronous
    pipelines (chat submission and routine generation) that talk to the
    remote completion service.

    Conventions of the embedding.
    - JavaScript values are the inductive [value]; numbers are the integers
      ([Z]): product identifiers are integers, no arithmetic is done on
      them, and they are rendered as plain decimal numerals.
    - The page is one record [state]: the globals of the script, the parts
      of the document it writes to, and a [journal] of what it does to the
      outside (storage writes, renderings of the chips, console messages,
      requests) in the order it does it. Every function of the script is a
      computation in the monad [M], which threads the state and carries
      JavaScript exceptions ([try]/[catch]/[finally] are combinators).
    - An [async] handler is its synchronous prefix together with the
      continuation that runs when the awaited [fetch] settles; the page is
      an event loop over user events and settlements ([dispatch]).
    - What the browser provides ([JSON.parse], [JSON.stringify], the storage
      quota, the engine's [TypeError], [trim]) is a record [platform]; the
      script is parametric in it. [Reference.browser] is one such platform,
      used to run the script on concrete sessions.
    - The tooltip of a card (hover) is an element of its own, with the
      frame callbacks and the timers it waits for ([hover_run]); its
      handlers read the page and write the tooltip only. *)

From Stdlib Require Import ZArith List String Ascii Bool Arith Lia DecimalString.
From Stdlib Require DecimalPos DecimalZ.
From Stdlib Require Import QArith Qround Lqa.
Close Scope Q_scope.
Import ListNotations.

Open Scope string_scope.
Open Scope list_scope.

Infix "+++" := String.append (at level 60, right associativity).

Set Warnings "-register-all".

(* ================================================================= *)
(** ** JavaScript values *)

Inductive value : Type :=
| VUndefined
| VNull
| VBool (b : bool)
| VNum (n : Z)
| VStr (s : string)
| VArr (items : list value)
| VObj (fields : list (string * value)).

Definition nullish (v : value) : bool :=
  match v with
  | VUndefined | VNull => true
  | _ => false
  end.

(** Decimal rendering of a number, as [String(n)] and template literals do. *)
Definition string_of_Z (n : Z) : string := NilZero.string_of_int (Z.to_int n).
Definition string_of_nat (n : nat) : string := NilZero.string_of_uint (Nat.to_uint n).

(** An object has an own property of that name. *)
Definition has_own (name : string) (fields : list (string * value)) : bool :=
  existsb (fun kv => String.eqb (fst kv) name) fields.

(** [ToString]: what a template literal [`${v}`] yields, or [None] when the
    conversion throws a [TypeError].  An array is joined with commas, its
    [null] and [undefined] elements rendered empty.  A plain object is
    ["[object Object]"] through the inherited [toString]; an own property
    named [toString] hides it, and no value of this model is callable (the
    objects come out of [JSON.parse] or are product records), so the
    conversion then goes on to [valueOf], which is not callable either or
    gives the object back, and throws. *)
Fixpoint ToString (v : value) : option string :=
  match v with
  | VUndefined => Some "undefined"
  | VNull => Some "null"
  | VBool true => Some "true"
  | VBool false => Some "false"
  | VNum n => Some (string_of_Z n)
  | VStr s => Some s
  | VArr items =>
      option_map (String.concat ",")
        ((fix join (l : list value) : option (list string) :=
            match l with
            | [] => Some []
            | x :: rest =>
                match (if nullish x then Some EmptyString else ToString x), join rest with
                | Some t, Some ts => Some (t :: ts)
                | _, _ => None
                end
            end) items)
  | VObj fields => if has_own "toString" fields then None else Some "[object Object]"
  end.

(** The text of a value whose conversion does not throw. *)
Definition printed (v : value) : string :=
  match ToString v with
  | Some t => t
  | None => EmptyString
  end.

Definition printable (v : value) : bool :=
  match ToString v with
  | Some _ => true
  | None => false
  end.

(** Own property of an object literal; the first binding of a name wins
    (JSON.parse yields objects whose names are unique). *)
Fixpoint lookup_field (name : string) (fields : list (string * value)) : value :=
  match fields with
  | [] => VUndefined
  | (k, v) :: rest => if String.eqb k name then v else lookup_field name rest
  end.

(** [v.name] for a value that is not [null] or [undefined]: objects give the
    field, everything else (numbers, strings, booleans, arrays) has none of
    the names the script reads ([id], [name], [brand], ...). *)
Definition property (v : value) (name : string) : value :=
  match v with
  | VObj fields => lookup_field name fields
  | _ => VUndefined
  end.

(** [a === b] and the SameValueZero comparison of [Map] keys coincide on the
    values of this model: primitives compare by content.  Objects and arrays
    compare by reference; the script never offers the same object twice as a
    key (each comes fresh out of [JSON.parse]), so two of them never match. *)
Definition sameValueZero (a b : value) : bool :=
  match a, b with
  | VUndefined, VUndefined => true
  | VNull, VNull => true
  | VBool x, VBool y => Bool.eqb x y
  | VNum x, VNum y => Z.eqb x y
  | VStr x, VStr y => String.eqb x y
  | _, _ => false
  end.

(* ================================================================= *)
(** ** [Map]: an association list in insertion order *)

Definition Map := list (value * value).

Fixpoint Map_has (k : value) (m : Map) : bool :=
  match m with
  | [] => false
  | (k', _) :: rest => sameValueZero k' k || Map_has k rest
  end.

(** [set] overwrites the value of a present key in place (its position is
    kept) and appends an absent one. *)
Fixpoint Map_set (k v : value) (m : Map) : Map :=
  match m with
  | [] => [(k, v)]
  | (k', v') :: rest =>
      if sameValueZero k' k then (k', v) :: rest else (k', v') :: Map_set k v rest
  end.

Fixpoint Map_delete (k : value) (m : Map) : Map :=
  match m with
  | [] => []
  | (k', v') :: rest =>
      if sameValueZero k' k then rest else (k', v') :: Map_delete k rest
  end.

Definition Map_values (m : Map) : list value := map snd m.
Definition Map_keys (m : Map) : list value := map fst m.
Definition Map_size (m : Map) : nat := List.length m.

(* ================================================================= *)
(** ** Catalog records *)

(** A product as the catalog source delivers it. *)
Record product := mkProduct {
  id : Z;
  name : string;
  brand : string;
  category : string;
  image : string;
  description : string
}.

(** The same record seen as a JavaScript object. *)
Definition value_of_product (p : product) : value :=
  VObj [ ("id", VNum (id p)); ("name", VStr (name p)); ("brand", VStr (brand p));
         ("category", VStr (category p)); ("image", VStr (image p));
         ("description", VStr (description p)) ].

(* ================================================================= *)
(** ** The page *)

(** A product card of [productsContainer]: its [data-id] is the decimal
    rendering of [card_id]; [card_selected] is the [selected] class. *)
Record card := mkCard {
  card_id : Z;
  card_selected : bool
}.

(** A chip of [selectedProductsList]: the three interpolations of the chip
    template ([data-id] and [data-remove-id] carry the same text). *)
Record chip := mkChip {
  chip_data_id : string;
  chip_label : string;
  chip_brand : string
}.

(** [selectedProductsList.innerHTML]: the placeholder, or one chip per value. *)
Inductive selected_view :=
| NoProductsSelected
| Chips (chips : list chip).

Inductive role := system | user | assistant.

Record chat_message := mkMessage {
  msg_role : role;
  content : string
}.

(** A [div.chat-message.<role>] of [chatWindow] with the text of its bubble. *)
Record bubble := mkBubble {
  bubble_role : role;
  textContent : string
}.

Record error := mkError {
  error_name : string;
  message : string
}.

(** [new Error(message)] *)
Definition Error (m : string) : error := mkError "Error" m.

(** The request [fetch] is called with; [body] is the serialized payload. *)
Record request := mkRequest {
  url : string;
  method : string;
  content_type : string;
  body : string
}.

(** What the page does to the outside, in the order it does it. *)
Inductive effect :=
| SetItem (raw : string) (stored : bool)   (* localStorage.setItem, and whether it went through *)
| RenderSelected (view : selected_view)    (* selectedProductsList.innerHTML assigned *)
| ConsoleWarn (label : string) (err : error)
| ConsoleError (err : error)
| Fetch (req : request).

Record state := mkState {
  selectedProducts : Map;
  localStorage_selectedProducts : option string;
  lastDisplayedProducts : option (list product);   (* window.__lastDisplayedProducts *)
  productsContainer : list card;
  selectedProductsList : selected_view;
  conversationMessages : list chat_message;
  chatWindow : list bubble;
  userInput : string;
  sendBtn_disabled : bool;
  generateBtn_disabled : bool;
  generateBtn_label : string;     (* the content of the button, as last assigned *)
  journal : list effect
}.

Definition with_selectedProducts (m : Map) (s : state) : state :=
  mkState m (localStorage_selectedProducts s) (lastDisplayedProducts s)
    (productsContainer s) (selectedProductsList s) (conversationMessages s)
    (chatWindow s) (userInput s) (sendBtn_disabled s) (generateBtn_disabled s)
    (generateBtn_label s) (journal s).

Definition with_localStorage (r : option string) (s : state) : state :=
  mkState (selectedProducts s) r (lastDisplayedProducts s)
    (productsContainer s) (selectedProductsList s) (conversationMessages s)
    (chatWindow s) (userInput s) (sendBtn_disabled s) (generateBtn_disabled s)
    (generateBtn_label s) (journal s).

Definition with_lastDisplayedProducts (l : option (list product)) (s : state) : state :=
  mkState (selectedProducts s) (localStorage_selectedProducts s) l
    (productsContainer s) (selectedProductsList s) (conversationMessages s)
    (chatWindow s) (userInput s) (sendBtn_disabled s) (generateBtn_disabled s)
    (generateBtn_label s) (journal s).

Definition with_productsContainer (c : list card) (s : state) : state :=
  mkState (selectedProducts s) (localStorage_selectedProducts s) (lastDisplayedProducts s)
    c (selectedProductsList s) (conversationMessages s)
    (chatWindow s) (userInput s) (sendBtn_disabled s) (generateBtn_disabled s)
    (generateBtn_label s) (journal s).

Definition with_selectedProductsList (v : selected_view) (s : state) : state :=
  mkState (selectedProducts s) (localStorage_selectedProducts s) (lastDisplayedProducts s)
    (productsContainer s) v (conversationMessages s)
    (chatWindow s) (userInput s) (sendBtn_disabled s) (generateBtn_disabled s)
    (generateBtn_label s) (journal s).

Definition with_conversationMessages (l : list chat_message) (s : state) : state :=
  mkState (selectedProducts s) (localStorage_selectedProducts s) (lastDisplayedProducts s)
    (productsContainer s) (selectedProductsList s) l
    (chatWindow s) (userInput s) (sendBtn_disabled s) (generateBtn_disabled s)
    (generateBtn_label s) (journal s).

Definition with_chatWindow (w : list bubble) (s : state) : state :=
  mkState (selectedProducts s) (localStorage_selectedProducts s) (lastDisplayedProducts s)
    (productsContainer s) (selectedProductsList s) (conversationMessages s)
    w (userInput s) (sendBtn_disabled s) (generateBtn_disabled s)
    (generateBtn_label s) (journal s).

Definition with_userInput (t : string) (s : state) : state :=
  mkState (selectedProducts s) (localStorage_selectedProducts s) (lastDisplayedProducts s)
    (productsContainer s) (selectedProductsList s) (conversationMessages s)
    (chatWindow s) t (sendBtn_disabled s) (generateBtn_disabled s)
    (generateBtn_label s) (journal s).

Definition with_sendBtn_disabled (b : bool) (s : state) : state :=
  mkState (selectedProducts s) (localStorage_selectedProducts s) (lastDisplayedProducts s)
    (productsContainer s) (selectedProductsList s) (conversationMessages s)
    (chatWindow s) (userInput s) b (generateBtn_disabled s)
    (generateBtn_label s) (journal s).

Definition with_generateBtn (b : bool) (label : string) (s : state) : state :=
  mkState (selectedProducts s) (localStorage_selectedProducts s) (lastDisplayedProducts s)
    (productsContainer s) (selectedProductsList s) (conversationMessages s)
    (chatWindow s) (userInput s) (sendBtn_disabled s) b label (journal s).

Definition with_journal (j : list effect) (s : state) : state :=
  mkState (selectedProducts s) (localStorage_selectedProducts s) (lastDisplayedProducts s)
    (productsContainer s) (selectedProductsList s) (conversationMessages s)
    (chatWindow s) (userInput s) (sendBtn_disabled s) (generateBtn_disabled s)
    (generateBtn_label s) j.

(* ================================================================= *)
(** ** Computations: state and exceptions *)

Inductive result (A : Type) :=
| Returned (a : A) (s : state)
| Thrown (e : error) (s : state).
Arguments Returned {A} a s.
Arguments Thrown {A} e s.

Definition M (A : Type) := state -> result A.

Definition ret {A} (a : A) : M A := fun s => Returned a s.

Definition bind {A B} (m : M A) (k : A -> M B) : M B :=
  fun s => match m s with
           | Returned a s' => k a s'
           | Thrown e s' => Thrown e s'
           end.

Definition throw {A} (e : error) : M A := fun s => Thrown e s.

(** [try { m } catch (err) { h err }] *)
Definition try_catch {A} (m : M A) (h : error -> M A) : M A :=
  fun s => match m s with
           | Returned a s' => Returned a s'
           | Thrown e s' => h e s'
           end.

(** [try { m } finally { f }]: [f] runs on both exits; an exception of [m]
    goes on after it. *)
Definition try_finally {A} (m : M A) (f : M unit) : M A :=
  fun s => match m s with
           | Returned a s' => bind f (fun _ => ret a) s'
           | Thrown e s' => bind f (fun _ => throw e) s'
           end.

Definition get : M state := fun s => Returned s s.
Definition modify (f : state -> state) : M unit := fun s => Returned tt (f s).
Definition emit (e : effect) : M unit :=
  modify (fun s => with_journal (journal s ++ [e]) s).

Notation "x <- m ;; k" := (bind m (fun x => k))
  (at level 61, m at next level, right associativity).
Notation "m ;; k" := (bind m (fun _ => k))
  (at level 61, right associativity).

(** The state a handler leaves behind, whether it returned or an exception
    escaped it (the event loop reports the exception and goes on). *)
Definition final {A} (r : result A) : state :=
  match r with
  | Returned _ s => s
  | Thrown _ s => s
  end.

Definition returns {A} (r : result A) : bool :=
  match r with
  | Returned _ _ => true
  | Thrown _ _ => false
  end.

(** [for (const x of xs) body(x)], as [forEach] runs its callback. *)
Fixpoint forEach {A} (xs : list A) (body : A -> M unit) : M unit :=
  match xs with
  | [] => ret tt
  | x :: rest => body x ;; forEach rest body
  end.

(** [xs.map(f)] for a callback that may throw. *)
Fixpoint mapM {A B} (f : A -> M B) (xs : list A) : M (list B) :=
  match xs with
  | [] => ret []
  | x :: rest => y <- f x ;; ys <- mapM f rest ;; ret (y :: ys)
  end.

(* ================================================================= *)
(** ** What the browser provides *)

Record platform := mkPlatform {
  (** [JSON.parse(text)]: the value, or the [SyntaxError] it throws *)
  JSON_parse : string -> error + value;
  (** [JSON.stringify(v)] of plain data *)
  JSON_stringify : value -> string;
  (** [JSON.stringify(v, null, 2)] *)
  JSON_stringify_indent2 : value -> string;
  (** the exception of [localStorage.setItem(key, raw)], if it throws
      (quota exceeded, storage disabled) *)
  setItem_exception : string -> option error;
  (** the [TypeError] of reading a property of [null] or [undefined], of
      calling what is not a function, or of converting to text an object
      that has no callable [toString] *)
  TypeError : error;
  (** the exception of [querySelector] on [.product-card[data-id="<text>"]],
      if the interpolated text makes the selector ill-formed *)
  selector_exception : string -> option error;
  (** [String.prototype.trim] *)
  trim : string -> string
}.

(** What the awaited [fetch] settles to, as far as [sendMessageToOpenAI]
    looks at it: [res.ok], [res.status], the outcome of [res.text()], and the
    outcome of [res.json()] reduced to the [content] of the parsed reply
    (the worker returns [{ content: <assistant reply> }]). *)
Record response := mkResponse {
  ok : bool;
  status : nat;
  text : error + string;
  json : error + string
}.

(** [fetch] rejects (network failure) or resolves to a response. *)
Definition settlement := (error + response)%type.

(** An [async] handler after its synchronous prefix: finished, or suspended
    on a request with the rest of its body. *)
Inductive async :=
| Done
| Await (req : request) (resume : settlement -> M unit).

Definition dquote : string := String (ascii_of_nat 34) EmptyString.

Definition SYSTEM_PROMPT : string :=
  "You are a helpful L'Oréal assistant that provides step-by-step routines and product guidance when asked. Keep answers concise and user-friendly. Keep conversations to those beauty-related topics and don't respond to unrelated questions.".

Definition WORKER_URL : string := "https://gtx-loreal-2.japiotras.workers.dev/".

Definition THINKING : string := "...thinking...".

Definition ADVISORY : string :=
  "Please select at least one product to generate a routine.".

Definition ROUTINE_INSTRUCTION : string :=
  "Here are the selected products as JSON. Generate a step-by-step routine using these products, include application order, timing (AM/PM), any compatibility notes or cautions, and a short explanation for each step. Respond in plain text.

SELECTED_PRODUCTS_JSON:
".

Definition GENERATE_LABEL : string :=
  "<i class=" +++ dquote +++ "fa-solid fa-wand-magic-sparkles" +++ dquote
  +++ "></i> Generate Routine".

Definition role_name (r : role) : string :=
  match r with
  | system => "system"
  | user => "user"
  | assistant => "assistant"
  end.

Definition is_assistant (b : bubble) : bool :=
  match bubble_role b with
  | assistant => true
  | _ => false
  end.

Definition value_of_message (m : chat_message) : value :=
  VObj [ ("role", VStr (role_name (msg_role m))); ("content", VStr (content m)) ].

(** [classList.add("selected")] / [classList.remove("selected")] on the
    [i]-th card of the container; an element that is no longer in the
    container has no card to change. *)
Fixpoint set_selected_at (i : nat) (b : bool) (cards : list card) : list card :=
  match cards, i with
  | [], _ => []
  | c :: rest, O => mkCard (card_id c) b :: rest
  | c :: rest, S j => c :: set_selected_at j b rest
  end.

(** Index of the first card whose [data-id] attribute is [data_id]. *)
Fixpoint first_card (data_id : string) (cards : list card) : option nat :=
  match cards with
  | [] => None
  | c :: rest =>
      if String.eqb (string_of_Z (card_id c)) data_id then Some O
      else option_map S (first_card data_id rest)
  end.

(** The text of the last assistant bubble replaced, if there is one. *)
Fixpoint set_last_assistant (t : string) (w : list bubble) : option (list bubble) :=
  match w with
  | [] => None
  | b :: rest =>
      match set_last_assistant t rest with
      | Some rest' => Some (b :: rest')
      | None => if is_assistant b then Some (mkBubble (bubble_role b) t :: rest) else None
      end
  end.

(* ================================================================= *)
(** ** The script *)

Section Script.

Variable P : platform.

Definition console_warn (label : string) (err : error) : M unit :=
  emit (ConsoleWarn label err).

Definition console_error (err : error) : M unit :=
  emit (ConsoleError err).

(** [localStorage.setItem("selectedProducts", raw)] *)
Definition localStorage_setItem (raw : string) : M unit :=
  match setItem_exception P raw with
  | Some e => emit (SetItem raw false) ;; throw e
  | None => modify (with_localStorage (Some raw)) ;; emit (SetItem raw true)
  end.

(** [v.name] as an expression: a [TypeError] on [null] and [undefined]. *)
Definition read (v : value) (field : string) : M value :=
  if nullish v then throw (TypeError P) else ret (property v field).

(** [productsContainer.querySelector(`.product-card[data-id="${text}"]`)] *)
Definition querySelector_card (data_id : string) : M (option nat) :=
  match selector_exception P data_id with
  | Some e => throw e
  | None => s <- get ;; ret (first_card data_id (productsContainer s))
  end.

Definition set_card_selected (i : nat) (b : bool) : M unit :=
  modify (fun s => with_productsContainer (set_selected_at i b (productsContainer s)) s).

Definition saveSelectedProducts : M unit :=
  try_catch
    (s <- get ;;
     let arr := VArr (Map_values (selectedProducts s)) in
     localStorage_setItem (JSON_stringify P arr))
    (fun err => console_warn "Could not save selected products" err).

(** [${v}] in a template literal: the text of [v], or the [TypeError] of
    its conversion. *)
Definition interpolate (v : value) : M string :=
  match ToString v with
  | Some t => ret t
  | None => throw (TypeError P)
  end.

(** One chip of the template: [p.id], [p.name] and [p.brand] interpolated. *)
Definition chip_of (p : value) : M chip :=
  i <- read p "id" ;;
  i <- interpolate i ;;
  n <- read p "name" ;;
  n <- interpolate n ;;
  b <- read p "brand" ;;
  b <- interpolate b ;;
  ret (mkChip i n b).

Definition set_selectedProductsList (v : selected_view) : M unit :=
  modify (with_selectedProductsList v) ;; emit (RenderSelected v).

(** The click handler of each [.chip-remove] button is [chip_remove_click]. *)
Definition renderSelectedProducts : M unit :=
  s <- get ;;
  if Nat.eqb (Map_size (selectedProducts s)) 0 then
    set_selectedProductsList NoProductsSelected
  else
    chips <- mapM chip_of (Map_values (selectedProducts s)) ;;
    set_selectedProductsList (Chips chips).

Definition markSelectedCards : M unit :=
  s <- get ;;
  forEach (selectedProducts s) (fun entry =>
    data_id <- interpolate (fst entry) ;;
    card <- querySelector_card data_id ;;
    match card with
    | Some i => set_card_selected i true
    | None => ret tt
    end).

(** [arr.forEach(callback)]: only an array has the method. *)
Definition Array_forEach (arr : value) (callback : value -> M unit) : M unit :=
  match arr with
  | VArr items => forEach items callback
  | _ => throw (TypeError P)
  end.

Definition Map_set_selected (k v : value) : M unit :=
  modify (fun s => with_selectedProducts (Map_set k v (selectedProducts s)) s).

Definition Map_delete_selected (k : value) : M unit :=
  modify (fun s => with_selectedProducts (Map_delete k (selectedProducts s)) s).

(** [!raw] for what [getItem] returns: [null] or the empty string. *)
Definition falsy (raw : option string) : bool :=
  match raw with
  | None => true
  | Some r => String.eqb r EmptyString
  end.

Definition JSON_parse_or_throw (raw : string) : M value :=
  match JSON_parse P raw with
  | inl e => throw e
  | inr v => ret v
  end.

Definition loadSelectedFromStorage : M unit :=
  try_catch
    (s <- get ;;
     let raw := localStorage_selectedProducts s in
     if falsy raw then
       renderSelectedProducts
     else
       arr <- JSON_parse_or_throw (match raw with Some r => r | None => EmptyString end) ;;
       modify (with_selectedProducts []) ;;
       Array_forEach arr (fun p => k <- read p "id" ;; Map_set_selected k p) ;;
       renderSelectedProducts ;;
       markSelectedCards)
    (fun err =>
       console_warn "Could not load selected products" err ;;
       renderSelectedProducts).

(** The fresh markup has one unselected card per product; each card gets its
    listeners ([card_click] is the click listener).  The template
    interpolates [name], [brand] and [image] as they are: this holds of
    products whose three texts are [plain_text]; other text is parsed as
    markup and can add elements of its own, which the container of this
    model does not hold. *)
Definition displayProducts (products : list product) : M unit :=
  modify (with_lastDisplayedProducts (Some products)) ;;
  modify (with_productsContainer (map (fun product => mkCard (id product) false) products)) ;;
  markSelectedCards.

Definition toggleSelect (productId : Z) (cardElement : nat) : M unit :=
  s <- get ;;
  let products := match lastDisplayedProducts s with Some l => l | None => [] end in
  match find (fun p => id p =? productId)%Z products with
  | None => ret tt
  | Some product =>
      (if Map_has (VNum productId) (selectedProducts s) then
         Map_delete_selected (VNum productId) ;;
         set_card_selected cardElement false
       else
         Map_set_selected (VNum productId) (value_of_product product) ;;
         set_card_selected cardElement true) ;;
      saveSelectedProducts ;;
      renderSelectedProducts
  end.

(** Click on the [i]-th card: [toggleSelect(Number(card.dataset.id), card)]. *)
Definition card_click (i : nat) : M unit :=
  s <- get ;;
  match nth_error (productsContainer s) i with
  | Some c => toggleSelect (card_id c) i
  | None => ret tt
  end.

(** Click on a chip's remove button; [removeId] is
    [Number(btn.dataset.removeId)]. *)
Definition chip_remove_click (removeId : Z) : M unit :=
  Map_delete_selected (VNum removeId) ;;
  s <- get ;;
  (* a decimal numeral always makes a well-formed selector *)
  match first_card (string_of_Z removeId) (productsContainer s) with
  | Some i => set_card_selected i false
  | None => ret tt
  end ;;
  renderSelectedProducts ;;
  saveSelectedProducts.

(** The [change] handler of the category filter, from the point where
    [loadProducts()] has delivered [products]. *)
Definition categoryFilter_change (products : list product) (selectedCategory : string) : M unit :=
  let filteredProducts :=
    filter (fun product => String.eqb (category product) selectedCategory) products in
  displayProducts filteredProducts.

(* ----------------------------------------------------------------- *)
(** *** Chat *)

Definition appendChatMessage (r : role) (t : string) : M unit :=
  modify (fun s => with_chatWindow (chatWindow s ++ [mkBubble r t]) s).

(** [conversationMessages.push(m)] *)
Definition conversationMessages_push (m : chat_message) : M unit :=
  modify (fun s => with_conversationMessages (conversationMessages s ++ [m]) s).

(** [sendMessageToOpenAI(messages)] up to its first [await]: the request
    that [fetch] is called with. *)
Definition sendMessageToOpenAI_request (messages : list chat_message) : request :=
  mkRequest WORKER_URL "POST" "application/json"
    (JSON_stringify P (VObj [ ("messages", VArr (map value_of_message messages)) ])).

(** Settling a promise: its value, or its rejection thrown at the [await]. *)
Definition await {A} (r : error + A) : M A :=
  match r with
  | inl e => throw e
  | inr a => ret a
  end.

(** [sendMessageToOpenAI] from the point where [fetch] has settled.  It
    touches no state between its [await]s, so they are taken in one step. *)
Definition sendMessageToOpenAI_settled (r : settlement) : M string :=
  res <- await r ;;
  if negb (ok res) then
    errText <- await (text res) ;;
    throw (Error ("Worker error: " +++ string_of_nat (status res) +++ " " +++ errText))
  else
    await (json res).

(** The last assistant bubble gets the reply; with no assistant bubble in
    the window the reply is appended. *)
Definition show_reply (aiText : string) : M unit :=
  s <- get ;;
  match set_last_assistant aiText (chatWindow s) with
  | Some w => modify (with_chatWindow w)
  | None => appendChatMessage assistant aiText
  end.

(** The [submit] handler of the chat form from its [await] on: the rest of
    the [try] block, the [catch] and the [finally]. *)
Definition chatForm_submit_resumed (settled : settlement) : M unit :=
  try_finally
    (try_catch
       (aiText <- sendMessageToOpenAI_settled settled ;;
        show_reply aiText ;;
        conversationMessages_push (mkMessage assistant aiText))
       (fun err =>
          console_error err ;;
          appendChatMessage assistant ("Error: " +++ message err)))
    (modify (with_sendBtn_disabled false)).

(** The [submit] handler of the chat form.  The [try] block opens before
    the thinking bubble is appended; nothing in it can throw before the
    [await], so the [try]/[catch]/[finally] is placed on the continuation. *)
Definition chatForm_submit : M async :=
  s <- get ;;
  let text := trim P (userInput s) in
  if String.eqb text EmptyString then ret Done
  else
    appendChatMessage user text ;;
    conversationMessages_push (mkMessage user text) ;;
    modify (with_userInput EmptyString) ;;
    modify (with_sendBtn_disabled true) ;;
    appendChatMessage assistant THINKING ;;
    s' <- get ;;
    let req := sendMessageToOpenAI_request (conversationMessages s') in
    emit (Fetch req) ;;
    ret (Await req chatForm_submit_resumed).

(** The form submitted with [typed] in the input field. *)
Definition chat_submission (typed : string) : M async :=
  modify (with_userInput typed) ;; chatForm_submit.

(* ----------------------------------------------------------------- *)
(** *** Routine generation *)

Definition getSelectedProductsArray : M (list value) :=
  s <- get ;;
  mapM (fun p =>
          i <- read p "id" ;;
          b <- read p "brand" ;;
          n <- read p "name" ;;
          c <- read p "category" ;;
          im <- read p "image" ;;
          d <- read p "description" ;;
          ret (VObj [ ("id", i); ("brand", b); ("name", n); ("category", c);
                      ("image", im); ("description", d) ]))
       (Map_values (selectedProducts s)).

(** The click handler of the routine button from its [await] on. *)
Definition generateBtn_click_resumed (settled : settlement) : M unit :=
  try_finally
    (try_catch
       (aiText <- sendMessageToOpenAI_settled settled ;;
        show_reply aiText ;;
        conversationMessages_push (mkMessage assistant aiText))
       (fun err =>
          console_error err ;;
          appendChatMessage assistant ("Error generating routine: " +++ message err)))
    (modify (with_generateBtn false GENERATE_LABEL)).

Definition generateBtn_click : M async :=
  items <- getSelectedProductsArray ;;
  if Nat.eqb (List.length items) 0 then
    appendChatMessage assistant ADVISORY ;;
    ret Done
  else
    let userInstruction :=
      ROUTINE_INSTRUCTION +++ JSON_stringify_indent2 P (VArr items) in
    conversationMessages_push (mkMessage user userInstruction) ;;
    appendChatMessage user
      ("Generate routine for " +++ string_of_nat (List.length items) +++ " selected product(s).") ;;
    appendChatMessage assistant THINKING ;;
    modify (with_generateBtn true "Generating…") ;;
    s <- get ;;
    let req := sendMessageToOpenAI_request (conversationMessages s) in
    emit (Fetch req) ;;
    ret (Await req generateBtn_click_resumed).

(* ----------------------------------------------------------------- *)
(** *** The page as an event loop *)

(** The page between two events: its state and the bodies suspended on a
    request, oldest first. *)
Record page := mkPage {
  current : state;
  awaiting : list (settlement -> M unit)
}.

(** The globals as the script declares them, on a document as its markup
    declares it: the store is empty, [conversationMessages] holds the
    system turn, the container shows its placeholder (no card), the chat
    window is empty, the controls are enabled and the input is empty;
    storage holds [stored]. *)
Definition script_start (stored : option string) : state :=
  mkState [] stored None [] (Chips []) [mkMessage system SYSTEM_PROMPT] []
    EmptyString false false GENERATE_LABEL [].

(** The page the script leaves: its one top-level call is
    [loadSelectedFromStorage()].  When that call raises, the script stops
    there in the browser and the listeners registered after it (category
    filter, chat form, routine button) do not exist: no event below
    occurs on such a page.  [run] does not look at this, so what holds of
    every page of [run] holds of the pages the browser reaches; what needs
    the listeners is stated for a load that returned ([started]). *)
Definition page_load (stored : option string) : page :=
  mkPage (final (loadSelectedFromStorage (script_start stored))) [].

Inductive event :=
| CategoryChange (products : list product) (selectedCategory : string)
| CardClick (i : nat)
| ChipRemoveClick (removeId : Z)
| Submit (typed : string)
| GenerateClick
| Settle (i : nat) (outcome : settlement).

(** A handler run to its end or to its [await]. *)
Definition run_handler (h : M async) (p : page) : page :=
  match h (current p) with
  | Returned Done s => mkPage s (awaiting p)
  | Returned (Await _ resume) s => mkPage s (awaiting p ++ [resume])
  | Thrown _ s => mkPage s (awaiting p)
  end.

Definition run_sync (h : M unit) (p : page) : page :=
  mkPage (final (h (current p))) (awaiting p).

Fixpoint remove_nth {A} (i : nat) (l : list A) : list A :=
  match l, i with
  | [], _ => []
  | _ :: rest, O => rest
  | x :: rest, S j => x :: remove_nth j rest
  end.

(** One event.  A disabled button dispatches nothing: the chat form is not
    submitted while [sendBtn] is disabled, nor the routine button clicked
    while it is. *)
Definition dispatch (e : event) (p : page) : page :=
  match e with
  | CategoryChange products selectedCategory =>
      run_sync (categoryFilter_change products selectedCategory) p
  | CardClick i => run_sync (card_click i) p
  | ChipRemoveClick removeId => run_sync (chip_remove_click removeId) p
  | Submit typed =>
      if sendBtn_disabled (current p) then p
      else run_handler (chat_submission typed) p
  | GenerateClick =>
      if generateBtn_disabled (current p) then p
      else run_handler generateBtn_click p
  | Settle i outcome =>
      match nth_error (awaiting p) i with
      | Some resume =>
          mkPage (final (resume outcome (current p))) (remove_nth i (awaiting p))
      | None => p
      end
  end.

Definition run (events : list event) (p : page) : page :=
  fold_left (fun q e => dispatch e q) events p.

(** A submission that nothing interrupts: the handler, then its
    continuation on the settlement. *)
Definition exchange (h : M async) (outcome : settlement) (s : state) : state :=
  match h s with
  | Returned (Await _ resume) s' => final (resume outcome s')
  | r => final r
  end.

(** The request a handler suspends on, if it does. *)
Definition issued (h : M async) (s : state) : option request :=
  match h s with
  | Returned (Await req _) _ => Some req
  | _ => None
  end.

End Script.

(* ================================================================= *)
(** ** A reference platform

    A concrete browser to run the script on, for the sessions below; the
    theorems are about every platform.  It covers less than a browser
    does: its JSON codec reads and writes the values of this model
    (integers, not fractions or exponents; strings with the escapes of the
    Basic Latin range), its storage takes a write up to a quota of
    characters, its selector check refuses every text with a quote, a
    backslash or a line break, and its [trim] strips ASCII white space
    only. *)

Module Reference.

(** A member read after others: a name read before keeps its place and
    takes the new value, as in [JSON.parse].  The members are held last
    first. *)
Fixpoint put_member (k : string) (v : value) (acc : list (string * value))
  : option (list (string * value)) :=
  match acc with
  | [] => None
  | (k', v') :: rest =>
      if String.eqb k' k then Some ((k', v) :: rest)
      else option_map (cons (k', v')) (put_member k v rest)
  end.

Definition add_member (k : string) (v : value) (acc : list (string * value))
  : list (string * value) :=
  match put_member k v acc with
  | Some acc' => acc'
  | None => (k, v) :: acc
  end.

Definition is_space (c : ascii) : bool :=
  match nat_of_ascii c with
  | 9 | 10 | 11 | 12 | 13 | 32 => true
  | _ => false
  end.

Fixpoint trim_start (s : string) : string :=
  match s with
  | String c rest => if is_space c then trim_start rest else s
  | EmptyString => EmptyString
  end.

Fixpoint string_rev_onto (s acc : string) : string :=
  match s with
  | EmptyString => acc
  | String c rest => string_rev_onto rest (String c acc)
  end.

Definition string_rev (s : string) : string := string_rev_onto s EmptyString.

Definition trim (s : string) : string :=
  string_rev (trim_start (string_rev (trim_start s))).

(* ---------- writing ---------- *)

Definition hex_digit (n : nat) : ascii :=
  ascii_of_nat (if n <? 10 then 48 + n else 87 + n)%nat.

Definition escape_char (c : ascii) : string :=
  let n := nat_of_ascii c in
  match n with
  | 34 => "\" +++ dquote
  | 92 => "\\"
  | 8 => "\b"
  | 9 => "\t"
  | 10 => "\n"
  | 12 => "\f"
  | 13 => "\r"
  | _ =>
      if (n <? 32)%nat then
        "\u00" +++ String (hex_digit (n / 16)) (String (hex_digit (n mod 16)) EmptyString)
      else String c EmptyString
  end.

Fixpoint escape (s : string) : string :=
  match s with
  | EmptyString => EmptyString
  | String c rest => escape_char c +++ escape rest
  end.

Definition quote (s : string) : string := dquote +++ escape s +++ dquote.

Definition is_undefined (v : value) : bool :=
  match v with
  | VUndefined => true
  | _ => false
  end.

(** [undefined] inside an array is written [null]; a field whose value is
    [undefined] is left out. *)
Fixpoint stringify (v : value) : string :=
  match v with
  | VUndefined | VNull => "null"
  | VBool true => "true"
  | VBool false => "false"
  | VNum n => string_of_Z n
  | VStr s => quote s
  | VArr items => "[" +++ String.concat "," (map stringify items) +++ "]"
  | VObj fields =>
      "{" +++ String.concat ","
                (flat_map (fun kv : string * value =>
                   let (k, x) := kv in
                   if is_undefined x then [] else [quote k +++ ":" +++ stringify x])
                   fields)
          +++ "}"
  end.

Fixpoint spaces (n : nat) : string :=
  match n with
  | O => EmptyString
  | S k => String " " (spaces k)
  end.

Definition newline : string := String (ascii_of_nat 10) EmptyString.

Definition block (opening closing : string) (depth : nat) (entries : list string) : string :=
  match entries with
  | [] => opening +++ closing
  | _ =>
      opening +++ newline +++ spaces (2 * (depth + 1))
      +++ String.concat ("," +++ newline +++ spaces (2 * (depth + 1))) entries
      +++ newline +++ spaces (2 * depth) +++ closing
  end.

Fixpoint stringify_indent (depth : nat) (v : value) : string :=
  match v with
  | VArr items => block "[" "]" depth (map (stringify_indent (depth + 1)) items)
  | VObj fields =>
      block "{" "}" depth
        (flat_map (fun kv : string * value =>
           let (k, x) := kv in
           if is_undefined x then []
           else [quote k +++ ": " +++ stringify_indent (depth + 1) x])
           fields)
  | other => stringify other
  end.

(* ---------- reading ---------- *)

Fixpoint skip_ws (s : string) : string :=
  match s with
  | String c rest =>
      match nat_of_ascii c with
      | 9 | 10 | 13 | 32 => skip_ws rest
      | _ => s
      end
  | EmptyString => EmptyString
  end.

Definition expect (word : string) (s : string) (v : value) : option (value * string) :=
  if String.prefix word s
  then Some (v, String.substring (String.length word) (String.length s - String.length word) s)
  else None.

Definition digit_of (c : ascii) : option Z :=
  let n := nat_of_ascii c in
  if ((48 <=? n) && (n <=? 57))%nat then Some (Z.of_nat (n - 48)) else None.

Fixpoint read_digits (s : string) (acc : Z) : Z * string :=
  match s with
  | String c rest =>
      match digit_of c with
      | Some d => read_digits rest (acc * 10 + d)%Z
      | None => (acc, s)
      end
  | EmptyString => (acc, s)
  end.

(** An integer literal: no leading zero, no fraction, no exponent. *)
Definition read_natural (s : string) : option (Z * string) :=
  match s with
  | String c rest =>
      match digit_of c with
      | Some d =>
          let '(n, r) := if (d =? 0)%Z then (0%Z, rest) else read_digits rest d in
          match r with
          | String c' _ =>
              match digit_of c', nat_of_ascii c' with
              | Some _, _ => None
              | None, 46 | None, 69 | None, 101 => None
              | None, _ => Some (n, r)
              end
          | EmptyString => Some (n, r)
          end
      | None => None
      end
  | EmptyString => None
  end.

Definition hex_value (c : ascii) : option nat :=
  let n := nat_of_ascii c in
  if ((48 <=? n) && (n <=? 57))%nat then Some (n - 48)
  else if ((97 <=? n) && (n <=? 102))%nat then Some (n - 87)
  else if ((65 <=? n) && (n <=? 70))%nat then Some (n - 55)
  else None.

(** The characters of a string literal after its opening quote. *)
Fixpoint read_chars (fuel : nat) (s : string) (acc : string) : option (string * string) :=
  match fuel with
  | O => None
  | S fuel' =>
      match s with
      | EmptyString => None
      | String c rest =>
          match nat_of_ascii c with
          | 34 => Some (string_rev acc, rest)
          | 92 =>
              match rest with
              | String e rest' =>
                  match nat_of_ascii e with
                  | 34 => read_chars fuel' rest' (String e acc)
                  | 92 => read_chars fuel' rest' (String e acc)
                  | 47 => read_chars fuel' rest' (String e acc)
                  | 98 => read_chars fuel' rest' (String (ascii_of_nat 8) acc)
                  | 102 => read_chars fuel' rest' (String (ascii_of_nat 12) acc)
                  | 110 => read_chars fuel' rest' (String (ascii_of_nat 10) acc)
                  | 114 => read_chars fuel' rest' (String (ascii_of_nat 13) acc)
                  | 116 => read_chars fuel' rest' (String (ascii_of_nat 9) acc)
                  | 117 =>
                      match rest' with
                      | String a (String b (String c1 (String d rest''))) =>
                          match hex_value a, hex_value b, hex_value c1, hex_value d with
                          | Some 0, Some 0, Some h, Some l =>
                              if (h <? 8)%nat
                              then read_chars fuel' rest'' (String (ascii_of_nat (16 * h + l)) acc)
                              else None
                          | _, _, _, _ => None
                          end
                      | _ => None
                      end
                  | _ => None
                  end
              | EmptyString => None
              end
          | n => if (n <? 32)%nat then None else read_chars fuel' rest (String c acc)
          end
      end
  end.

Fixpoint read_value (fuel : nat) (s : string) : option (value * string) :=
  match fuel with
  | O => None
  | S fuel' =>
      let elements :=
        (fix elements (n : nat) (s : string) (acc : list value) {struct n}
           : option (value * string) :=
           match n with
           | O => None
           | S n' =>
               match read_value fuel' s with
               | Some (v, r) =>
                   match skip_ws r with
                   | String c r' =>
                       match nat_of_ascii c with
                       | 44 => elements n' r' (v :: acc)
                       | 93 => Some (VArr (rev (v :: acc)), r')
                       | _ => None
                       end
                   | EmptyString => None
                   end
               | None => None
               end
           end) in
      let members :=
        (fix members (n : nat) (s : string) (acc : list (string * value)) {struct n}
           : option (value * string) :=
           match n with
           | O => None
           | S n' =>
               match skip_ws s with
               | String q r0 =>
                   if Nat.eqb (nat_of_ascii q) 34 then
                     match read_chars (S (String.length r0)) r0 EmptyString with
                     | Some (k, r1) =>
                         match skip_ws r1 with
                         | String colon r2 =>
                             if Nat.eqb (nat_of_ascii colon) 58 then
                               match read_value fuel' r2 with
                               | Some (v, r3) =>
                                   match skip_ws r3 with
                                   | String c r4 =>
                                       match nat_of_ascii c with
                                       | 44 => members n' r4 (add_member k v acc)
                                       | 125 => Some (VObj (rev (add_member k v acc)), r4)
                                       | _ => None
                                       end
                                   | EmptyString => None
                                   end
                               | None => None
                               end
                             else None
                         | EmptyString => None
                         end
                     | None => None
                     end
                   else None
               | EmptyString => None
               end
           end) in
      match skip_ws s with
      | EmptyString => None
      | String c rest =>
          match nat_of_ascii c with
          | 110 => expect "ull" rest VNull
          | 116 => expect "rue" rest (VBool true)
          | 102 => expect "alse" rest (VBool false)
          | 34 =>
              match read_chars (S (String.length rest)) rest EmptyString with
              | Some (str, r) => Some (VStr str, r)
              | None => None
              end
          | 45 =>
              match read_natural rest with
              | Some (n, r) => Some (VNum (- n), r)
              | None => None
              end
          | 91 =>
              match skip_ws rest with
              | String c' r' =>
                  if Nat.eqb (nat_of_ascii c') 93 then Some (VArr [], r')
                  else elements (S (String.length rest)) rest []
              | EmptyString => None
              end
          | 123 =>
              match skip_ws rest with
              | String c' r' =>
                  if Nat.eqb (nat_of_ascii c') 125 then Some (VObj [], r')
                  else members (S (String.length rest)) rest []
              | EmptyString => None
              end
          | _ =>
              match read_natural (String c rest) with
              | Some (n, r) => Some (VNum n, r)
              | None => None
              end
          end
      end
  end.

Definition SyntaxError : error := mkError "SyntaxError" "Unexpected token in JSON".

Definition parse (s : string) : error + value :=
  match read_value (S (String.length s)) s with
  | Some (v, rest) =>
      match skip_ws rest with
      | EmptyString => inr v
      | _ => inl SyntaxError
      end
  | None => inl SyntaxError
  end.

Definition QuotaExceededError : error :=
  mkError "QuotaExceededError" "The quota has been exceeded.".

Definition setItem_exception (quota : nat) (raw : string) : option error :=
  if (String.length raw <=? quota)%nat then None else Some QuotaExceededError.

Fixpoint plain_text (s : string) : bool :=
  match s with
  | EmptyString => true
  | String c rest =>
      match nat_of_ascii c with
      | 34 | 92 | 10 | 12 | 13 => false
      | _ => plain_text rest
      end
  end.

Definition selector_exception (data_id : string) : option error :=
  if plain_text data_id then None
  else Some (mkError "SyntaxError" "The selector is not valid.").

Definition browser (quota : nat) : platform :=
  mkPlatform parse stringify (stringify_indent 0) (setItem_exception quota)
    (mkError "TypeError" "Cannot read properties of null")
    selector_exception trim.

End Reference.

(* ================================================================= *)
(** ** Vocabulary of the properties *)

(** The representation invariant of a [Map]: no key occurs twice. *)
Fixpoint Map_ok (m : Map) : bool :=
  match m with
  | [] => true
  | (k, _) :: rest => negb (Map_has k rest) && Map_ok rest
  end.

(** No stored value is [null] or [undefined]: every one can be read. *)
Definition readable (m : Map) : bool :=
  forallb (fun v => negb (nullish v)) (Map_values m).

(** Every entry sits under the [id] of its value. *)
Definition keyed_by_id (m : Map) : Prop :=
  Forall (fun entry => property (snd entry) "id" = fst entry) m.

(** The three interpolations of a chip can be converted to text. *)
Definition chip_printable (p : value) : bool :=
  printable (property p "id") && printable (property p "name")
  && printable (property p "brand").

(** Every stored value makes a chip: the template of
    [renderSelectedProducts] does not throw on it. *)
Definition renderable (m : Map) : bool :=
  forallb chip_printable (Map_values m).

(** The chips [renderSelectedProducts] computes for a readable and
    renderable store. *)
Definition chip_view (p : value) : chip :=
  mkChip (printed (property p "id")) (printed (property p "name"))
    (printed (property p "brand")).

Definition view_of (m : Map) : selected_view :=
  if Nat.eqb (Map_size m) 0 then NoProductsSelected
  else Chips (map chip_view (Map_values m)).

(** What [saveSelectedProducts] does to the outside for a store [m]: the
    write, and the warning when it is refused. *)
Definition write_effects (P : platform) (m : Map) : list effect :=
  let raw := JSON_stringify P (VArr (Map_values m)) in
  match setItem_exception P raw with
  | None => [SetItem raw true]
  | Some e => [SetItem raw false; ConsoleWarn "Could not save selected products" e]
  end.

(** The page after [renderSelectedProducts] on a readable and renderable
    store. *)
Definition rendered (s : state) : state :=
  let v := view_of (selectedProducts s) in
  with_journal (journal s ++ [RenderSelected v]) (with_selectedProductsList v s).

(** The page after [saveSelectedProducts]. *)
Definition saved (P : platform) (s : state) : state :=
  let raw := JSON_stringify P (VArr (Map_values (selectedProducts s))) in
  match setItem_exception P raw with
  | None =>
      with_journal (journal s ++ [SetItem raw true]) (with_localStorage (Some raw) s)
  | Some _ =>
      with_journal (journal s ++ write_effects P (selectedProducts s)) s
  end.

(** The store after one toggle of a resolvable identifier. *)
Definition toggled (productId : Z) (product : product) (m : Map) : Map :=
  if Map_has (VNum productId) m then Map_delete (VNum productId) m
  else Map_set (VNum productId) (value_of_product product) m.

(** The displayed set: [window.__lastDisplayedProducts || []]. *)
Definition displayed (s : state) : list product :=
  match lastDisplayedProducts s with
  | Some products => products
  | None => []
  end.

(** The identifier resolves in the displayed set. *)
Definition resolvable (productId : Z) (s : state) : bool :=
  existsb (fun p => (id p =? productId)%Z) (displayed s).

(** A sequence of toggles of one identifier, one click per card element. *)
Fixpoint toggles (P : platform) (productId : Z) (cards : list nat) (s : state) : state :=
  match cards with
  | [] => s
  | c :: rest => toggles P productId rest (final (toggleSelect P productId c s))
  end.

(** Before it saves and renders, a toggle of a resolved identifier has
    changed the store and the class of the card. *)
Definition toggle_applied (productId : Z) (cardElement : nat) (product : product)
    (s : state) : state :=
  with_productsContainer
    (set_selected_at cardElement (negb (Map_has (VNum productId) (selectedProducts s)))
       (productsContainer s))
    (with_selectedProducts (toggled productId product (selectedProducts s)) s).

Definition LOAD_WARNING : string := "Could not load selected products".

(** The callback of [arr.forEach] in [loadSelectedFromStorage]. *)
Definition load_callback (P : platform) (p : value) : M unit :=
  k <- read P p "id" ;; Map_set_selected k p.

(** What storage holds, as [loadSelectedFromStorage] tells it apart. *)
Inductive stored_content :=
| Missing                          (* no item, or the empty string *)
| Unparseable (e : error)          (* [JSON.parse] throws *)
| NotAnArray (v : value)           (* parsed, but without [forEach] *)
| AnArray (items : list value).

Definition classify (P : platform) (stored : option string) : stored_content :=
  match stored with
  | None => Missing
  | Some raw =>
      if String.eqb raw EmptyString then Missing
      else match JSON_parse P raw with
           | inl e => Unparseable e
           | inr (VArr items) => AnArray items
           | inr v => NotAnArray v
           end
  end.

(** The entries an array leaves in an empty store: its elements up to the
    first [null], each under whatever its [id] reads as. *)
Fixpoint loaded (items : list value) (m : Map) : Map :=
  match items with
  | [] => m
  | p :: rest => if nullish p then m else loaded rest (Map_set (property p "id") p m)
  end.

(** The remote call fails with [err]: the request is rejected (network
    failure), or the response is not a success; a body that cannot be read
    fails the call as well. *)
Inductive fails : settlement -> error -> Prop :=
| fails_network e :
    fails (inl e) e
| fails_status res errText :
    ok res = false -> text res = inr errText ->
    fails (inr res)
      (Error ("Worker error: " +++ string_of_nat (status res) +++ " " +++ errText))
| fails_text res e :
    ok res = false -> text res = inl e -> fails (inr res) e
| fails_json res e :
    ok res = true -> json res = inl e -> fails (inr res) e.

(** The call succeeds with the reply [aiText]. *)
Definition succeeds (outcome : settlement) (aiText : string) : Prop :=
  exists res, outcome = inr res /\ ok res = true /\ json res = inr aiText.

Definition SYSTEM_TURN : chat_message := mkMessage system SYSTEM_PROMPT.

Definition not_system (m : chat_message) : Prop := msg_role m <> system.

(** The log is the system turn followed by user and assistant turns. *)
Definition log_shape (log : list chat_message) : Prop :=
  exists rest, log = SYSTEM_TURN :: rest /\ Forall not_system rest.

(** The instruction turn of a routine generation for the store [m]. *)
Definition routine_item (p : value) : value :=
  VObj [ ("id", property p "id"); ("brand", property p "brand");
         ("name", property p "name"); ("category", property p "category");
         ("image", property p "image"); ("description", property p "description") ].

Definition routine_turn (P : platform) (m : Map) : chat_message :=
  mkMessage user
    (ROUTINE_INSTRUCTION +++ JSON_stringify_indent2 P (VArr (map routine_item (Map_values m)))).

(** The page when a chat submission with a non-blank text suspends. *)
Definition submitted (P : platform) (typed : string) (s : state) : state :=
  let text := trim P typed in
  let log := conversationMessages s ++ [mkMessage user text] in
  with_journal (journal s ++ [Fetch (sendMessageToOpenAI_request P log)])
    (with_chatWindow
       (chatWindow s ++ [mkBubble user text; mkBubble assistant THINKING])
       (with_sendBtn_disabled true
          (with_userInput EmptyString (with_conversationMessages log s)))).

(** The page when a routine generation for a non-empty store suspends. *)
Definition generating (P : platform) (s : state) : state :=
  let items := map routine_item (Map_values (selectedProducts s)) in
  let log := conversationMessages s ++ [routine_turn P (selectedProducts s)] in
  with_journal (journal s ++ [Fetch (sendMessageToOpenAI_request P log)])
    (with_generateBtn true "Generating…"
       (with_chatWindow
          (chatWindow s ++
             [mkBubble user
                ("Generate routine for " +++ string_of_nat (List.length items)
                 +++ " selected product(s).");
              mkBubble assistant THINKING])
          (with_conversationMessages log s))).

(** The window once a reply is shown in it. *)
Definition shown (aiText : string) (w : list bubble) : list bubble :=
  match set_last_assistant aiText w with
  | Some w' => w'
  | None => w ++ [mkBubble assistant aiText]
  end.

(** The page after the [try] block of a resumed handler has run through
    with the reply [aiText] (before its [finally]). *)
Definition replied (aiText : string) (s : state) : state :=
  with_conversationMessages (conversationMessages s ++ [mkMessage assistant aiText])
    (with_chatWindow (shown aiText (chatWindow s)) s).

(** The page after the [catch] of a resumed handler has reported [err]
    under the given prefix (before its [finally]). *)
Definition reported (prefix : string) (err : error) (s : state) : state :=
  with_chatWindow (chatWindow s ++ [mkBubble assistant (prefix +++ message err)])
    (with_journal (journal s ++ [ConsoleError err]) s).

(** Invariance through a computation: [I] holds at either exit, and [Q] of
    the value it returns. *)
Definition hoare {A} (I : state -> Prop) (m : M A) (Q : A -> Prop) : Prop :=
  forall s, I s ->
    match m s with
    | Returned a s' => I s' /\ Q a
    | Thrown _ s' => I s'
    end.

Definition stable {A} (I : state -> Prop) (m : M A) : Prop :=
  hoare I m (fun _ => True).

(** A suspended body keeps [I] whatever the request settles to. *)
Definition resumes_stably (I : state -> Prop) (a : async) : Prop :=
  match a with
  | Done => True
  | Await _ resume => forall outcome, stable I (resume outcome)
  end.

(** Invariants that do not look at what saving and rendering change. *)
Definition blind_to_output (I : state -> Prop) : Prop :=
  forall s, I s ->
    (forall j, I (with_journal j s)) /\
    (forall r, I (with_localStorage r s)) /\
    (forall v, I (with_selectedProductsList v s)).

(** What holds of the page between any two events: the store is a
    well-formed map of readable values under their identifiers, and the log
    is the system turn followed by user and assistant turns. *)
Definition store_wf (m : Map) : Prop :=
  Map_ok m = true /\ readable m = true /\ keyed_by_id m.

Definition state_ok (s : state) : Prop :=
  store_wf (selectedProducts s) /\ log_shape (conversationMessages s).

Definition page_ok (p : page) : Prop :=
  state_ok (current p)
  /\ Forall (fun resume : settlement -> M unit =>
               forall outcome, stable state_ok (resume outcome))
       (awaiting p).

(* ================================================================= *)
(** ** A session to run *)

Module Session.

Definition browser : platform := Reference.browser 5000.

(** A browser whose storage refuses every write. *)
Definition full_browser : platform := Reference.browser 0.

Definition serum : product :=
  mkProduct 7 "Hydrating Serum" "CeraVe" "skincare" "img/serum.png" "Hydrates the skin".
Definition cleanser : product :=
  mkProduct 9 "Foaming Cleanser" "La Roche-Posay" "skincare" "img/cleanser.png" "Cleans".
Definition lipstick : product :=
  mkProduct 11 "Matte Lipstick" "Maybelline" "makeup" "img/lipstick.png" "Lasts".

Definition catalog : list product := [serum; cleanser; lipstick].

(** A first visit: nothing stored. *)
Definition fresh : page := page_load browser None.

(** The skincare category displayed. *)
Definition browsing : page := run browser [CategoryChange catalog "skincare"] fresh.

(** The serum card clicked. *)
Definition one_selected : page := run browser [CardClick 0] browsing.

(** A later visit: the serum comes back from storage, no category is shown. *)
Definition returning : page :=
  page_load browser (Some (Reference.stringify (VArr [value_of_product serum]))).

(** The same visit with the skincare category displayed. *)
Definition returning_browsing : page :=
  run browser [CategoryChange catalog "skincare"] returning.

Definition ok_reply (reply : string) : settlement :=
  inr (mkResponse true 200 (inr reply) (inr reply)).

Definition server_error : settlement :=
  inr (mkResponse false 500 (inr "upstream timeout") (inl Reference.SyntaxError)).

End Session.

(** The events of the selection side: they start and settle no request. *)
Definition selection_event (e : event) : bool :=
  match e with
  | CategoryChange _ _ | CardClick _ | ChipRemoveClick _ => true
  | Submit _ | GenerateClick | Settle _ _ => false
  end.

(* ================================================================= *)
(** ** More vocabulary: the page as a whole *)

(** Every key is a number, as the keys that toggling enters are. *)
Definition numeric_keys (m : Map) : bool :=
  forallb (fun k => match k with VNum _ => true | _ => false end) (Map_keys m).

(** What the document shows is what the globals hold: the chips are those
    of the store, and the cards are those of the displayed set. *)
Definition mirrors (s : state) : Prop :=
  selectedProductsList s = view_of (selectedProducts s)
  /\ map card_id (productsContainer s) = map id (displayed s).

(** On top of [state_ok]: every stored value makes a chip, so rendering
    does not throw, and the document mirrors the globals. *)
Definition state_sound (s : state) : Prop :=
  state_ok s /\ renderable (selectedProducts s) = true /\ mirrors s.

Definition page_sound (p : page) : Prop :=
  state_sound (current p)
  /\ Forall (fun resume : settlement -> M unit =>
               forall outcome, stable state_sound (resume outcome))
       (awaiting p).

(** The marks [markSelectedCards] leaves on a list of cards for the keys of
    a store, when every selector is accepted. *)
Fixpoint marked (keys : list value) (cards : list card) : list card :=
  match keys with
  | [] => cards
  | k :: rest =>
      marked rest
        (match first_card (printed k) cards with
         | Some i => set_selected_at i true cards
         | None => cards
         end)
  end.

Definition is_fetch (e : effect) : bool :=
  match e with
  | Fetch _ => true
  | _ => false
  end.

Definition has_role (r : role) (m : chat_message) : bool :=
  match msg_role m, r with
  | system, system | user, user | assistant, assistant => true
  | _, _ => false
  end.

(** Requests issued so far, and turns of a role in the log. *)
Definition requests (s : state) : nat :=
  List.length (filter is_fetch (journal s)).

Definition turns (r : role) (s : state) : nat :=
  List.length (filter (has_role r) (conversationMessages s)).

(** Every user turn was sent, and no reply is in the log without its
    question: the assistant turns and the requests in flight together never
    outnumber the user turns. *)
Definition accounted (p : page) : Prop :=
  requests (current p) = turns user (current p)
  /\ turns assistant (current p) + List.length (awaiting p) <= turns user (current p).

(** The bodies that can be suspended: those of the two pipelines. *)
Definition known_resume (resume : settlement -> M unit) : Prop :=
  resume = chatForm_submit_resumed \/ resume = generateBtn_click_resumed.

(** What the selection side of the page consists of. *)
Definition selection_part (s : state) :
    Map * option string * option (list product) * list card * selected_view :=
  (selectedProducts s, localStorage_selectedProducts s, lastDisplayedProducts s,
   productsContainer s, selectedProductsList s).

(** What the conversation side of the page consists of. *)
Definition conversation_part (s : state) :
    list chat_message * list bubble * string * bool * bool * string :=
  (conversationMessages s, chatWindow s, userInput s, sendBtn_disabled s,
   generateBtn_disabled s, generateBtn_label s).

(** The mark of one key on one card: the card whose [data-id] is the text
    of the key gets the [selected] class. *)
Definition mark_text (t : string) (c : card) : card :=
  if String.eqb (string_of_Z (card_id c)) t then mkCard (card_id c) true else c.

(** The products a category filter keeps. *)
Definition in_category (selectedCategory : string) (products : list product) : list product :=
  filter (fun product => String.eqb (category product) selectedCategory) products.

(** Text that stays text when the card template is assigned to
    [innerHTML]: it holds no [<], which would open a tag inside [h3] or
    [p], and no double quote, which would close the [src] or [alt]
    attribute it is written into. *)
Definition plain_text (t : string) : bool :=
  forallb (fun c => negb (Ascii.eqb c "<"%char) && negb (Ascii.eqb c (ascii_of_nat 34)))
    (list_ascii_of_string t).

(** The three texts of a product that [displayProducts] interpolates
    without escaping them. *)
Definition plain_product (p : product) : bool :=
  plain_text (name p) && plain_text (brand p) && plain_text (image p).

(** Every set of products an event displays is plain. *)
Definition plain_event (e : event) : bool :=
  match e with
  | CategoryChange products selectedCategory =>
      forallb plain_product (in_category selectedCategory products)
  | _ => true
  end.

(** The script ran to its end: the load at its start did not raise, so the
    statements after it, which register the listeners of the category
    filter, the chat form and the routine button, were executed. *)
Definition started (P : platform) (stored : option string) : bool :=
  returns (loadSelectedFromStorage P (script_start stored)).

(** The log of a state is [log] with user and assistant turns appended. *)
Definition grows_from (log : list chat_message) (st : state) : Prop :=
  exists more, conversationMessages st = log ++ more /\ Forall not_system more.

(* ================================================================= *)
(** ** The hover tooltip *)

(** The numbers of a layout (the rectangles, the scroll offsets, the width
    of the window) are finite doubles, hence rationals: [<] compares them
    exactly and [Math.round] is exact.  The sums, the differences and the
    halving of [showTooltipForCard] are the operations of doubles, which
    round their exact result; they are left open. *)
Record numbers := mkNumbers {
  num_add : Q -> Q -> Q;
  num_sub : Q -> Q -> Q;
  num_half : Q -> Q
}.

(** [x < y] *)
Definition num_lt (x y : Q) : bool := negb (Qle_bool y x).

(** [Math.round(x)]: the nearest integer, halves going up. *)
Definition Math_round (x : Q) : Z := Qfloor (x + (1 # 2)).

Definition eight : Q := 8 # 1.

(** What [showTooltipForCard] measures: the rectangle of the card, the
    rectangle of the tooltip once it has its text, and the window. *)
Record measures := mkMeasures {
  rect_top : Q;
  rect_left : Q;
  rect_bottom : Q;
  rect_width : Q;
  ttRect_width : Q;
  ttRect_height : Q;
  scrollX : Q;
  scrollY : Q;
  innerWidth : Q
}.

(** The [productTooltip] element with the callbacks it waits for.  The
    callbacks of a kind are the same closure and capture nothing, so they
    are counted: [animation_frames] requested and not yet run, [timeouts]
    set by [hideTooltip] and not yet fired. *)
Record tooltip := mkTooltip {
  innerText : string;
  style_opacity : string;
  style_display : string;
  style_top : string;
  style_left : string;
  animation_frames : nat;
  timeouts : nat
}.

(** The element as [document.createElement("div")] makes it. *)
Definition productTooltip_created : tooltip :=
  mkTooltip EmptyString EmptyString EmptyString EmptyString EmptyString 0 0.

(** What happens to the tooltip: the pointer enters the [i]-th card (and
    the layout is measured), the pointer leaves a card, a requested frame
    callback runs, a timer fires. *)
Inductive hover :=
| MouseEnter (i : nat) (g : measures)
| MouseLeave
| AnimationFrame
| TimerFires.

Definition is_MouseEnter (e : hover) : bool :=
  match e with
  | MouseEnter _ _ => true
  | _ => false
  end.

Definition is_mouse (e : hover) : bool :=
  match e with
  | MouseEnter _ _ | MouseLeave => true
  | _ => false
  end.

Section Tooltip.

Variable N : numbers.

(** [minLeft] and [maxLeft] of [showTooltipForCard]. *)
Definition minLeft (g : measures) : Q := num_add N (scrollX g) eight.

Definition maxLeft (g : measures) : Q :=
  num_sub N (num_sub N (num_add N (scrollX g) (innerWidth g)) (ttRect_width g)) eight.

(** [top] when it is written to the style: above the card, or below it
    when that would start above the eighth pixel of the viewport. *)
Definition tooltip_top (g : measures) : Q :=
  let margin := eight in
  let top :=
    num_sub N (num_sub N (num_add N (scrollY g) (rect_top g)) (ttRect_height g)) margin in
  if num_lt top (num_add N (scrollY g) eight) then
    num_add N (num_add N (scrollY g) (rect_bottom g)) margin
  else top.

(** [left] when it is rounded and written to the style: centred on the
    card, then the two clamps in the order of the source. *)
Definition tooltip_left (g : measures) : Q :=
  let left :=
    num_add N (num_add N (scrollX g) (rect_left g))
      (num_half N (num_sub N (rect_width g) (ttRect_width g))) in
  let left := if num_lt left (minLeft g) then minLeft g else left in
  let left := if num_lt (maxLeft g) left then maxLeft g else left in
  left.

Definition showTooltipForCard (product : option product) (g : measures)
    (t : tooltip) : tooltip :=
  match product with
  | None => t
  | Some product =>
      mkTooltip
        (if String.eqb (description product) EmptyString then "No description"
         else description product)
        "0"
        "block"
        (string_of_Z (Math_round (tooltip_top g)) +++ "px")
        (string_of_Z (Math_round (tooltip_left g)) +++ "px")
        (S (animation_frames t))
        (timeouts t)
  end.

Definition hideTooltip (t : tooltip) : tooltip :=
  mkTooltip (innerText t) "0" (style_display t) (style_top t) (style_left t)
    (animation_frames t) (S (timeouts t)).

(** The [mouseenter] listener of the [i]-th card. *)
Definition card_mouseenter (i : nat) (g : measures) (s : state) (t : tooltip) : tooltip :=
  match nth_error (productsContainer s) i with
  | Some c =>
      let products := match lastDisplayedProducts s with Some l => l | None => [] end in
      showTooltipForCard (find (fun p => id p =? card_id c)%Z products) g t
  | None => t
  end.

(** The [mouseleave] listener of a card. *)
Definition card_mouseleave (t : tooltip) : tooltip := hideTooltip t.

(** One callback of [requestAnimationFrame] runs. *)
Definition animation_frame (t : tooltip) : tooltip :=
  match animation_frames t with
  | 0 => t
  | S n =>
      mkTooltip (innerText t) "1" (style_display t) (style_top t) (style_left t)
        n (timeouts t)
  end.

(** One timer of [hideTooltip] fires. *)
Definition timer_fires (t : tooltip) : tooltip :=
  match timeouts t with
  | 0 => t
  | S n =>
      mkTooltip (innerText t) (style_opacity t)
        (if String.eqb (style_opacity t) "0" then "none" else style_display t)
        (style_top t) (style_left t) (animation_frames t) n
  end.

Definition hover_step (s : state) (t : tooltip) (e : hover) : tooltip :=
  match e with
  | MouseEnter i g => card_mouseenter i g s t
  | MouseLeave => card_mouseleave t
  | AnimationFrame => animation_frame t
  | TimerFires => timer_fires t
  end.

Definition hover_run (s : state) (events : list hover) (t : tooltip) : tooltip :=
  fold_left (hover_step s) events t.

End Tooltip.

(** The tooltip is faded out with no frame callback pending, and it is
    hidden or a timer is there to hide it. *)
Definition fading (t : tooltip) : Prop :=
  style_opacity t = "0" /\ animation_frames t = 0
  /\ (style_display t = "none" \/ 0 < timeouts t).

(** Arithmetic without rounding: that of doubles on the whole and half
    pixels of a layout, which they add, subtract and halve exactly. *)
Definition exact_numbers : numbers :=
  mkNumbers Qplus Qminus (fun x => Qdiv x (2 # 1)).

(** A card measured near the left edge of a window 1024 pixels wide, with
    a tooltip 241 pixels wide. *)
Definition near_left_edge : measures :=
  mkMeasures (300 # 1) (20 # 1) (420 # 1) (180 # 1) (241 # 1) (40 # 1) 0 0 (1024 # 1).

(** A card measured near the right edge of the same window. *)
Definition near_right_edge : measures :=
  mkMeasures (300 # 1) (900 # 1) (420 # 1) (180 # 1) (241 # 1) (40 # 1) 0 0 (1024 # 1).

(* ================================================================= *)
(** ** Facts about [Map] *)

Lemma sameValueZero_sym (a b : value) : sameValueZero a b = sameValueZero b a.
Proof.
  destruct a, b; simpl; try reflexivity.
  - destruct b, b0; reflexivity.
  - apply Z.eqb_sym.
  - apply String.eqb_sym.
Qed.

Lemma sameValueZero_eq (a b : value) : sameValueZero a b = true -> a = b.
Proof.
  destruct a, b; simpl; try discriminate; try reflexivity; intros H.
  - apply Bool.eqb_prop in H. now subst.
  - apply Z.eqb_eq in H. now subst.
  - apply String.eqb_eq in H. now subst.
Qed.

Lemma Map_has_set_same (n : Z) (v : value) (m : Map) :
  Map_has (VNum n) (Map_set (VNum n) v m) = true.
Proof.
  induction m as [|[k' v'] rest IH]; simpl.
  - now rewrite Z.eqb_refl.
  - destruct (sameValueZero k' (VNum n)) eqn:E; simpl; rewrite E; simpl; auto.
Qed.

Lemma Map_has_set_other (x k v : value) (m : Map) :
  sameValueZero k x = false ->
  Map_has x (Map_set k v m) = Map_has x m.
Proof.
  intros Hkx. induction m as [|[k' v'] rest IH]; simpl.
  - now rewrite Hkx.
  - destruct (sameValueZero k' k); simpl; [reflexivity | now rewrite IH].
Qed.

Lemma Map_has_delete_absent (x k : value) (m : Map) :
  Map_has x m = false -> Map_has x (Map_delete k m) = false.
Proof.
  induction m as [|[k' v'] rest IH]; simpl; [reflexivity|].
  intros H. apply orb_false_iff in H as [H1 H2].
  destruct (sameValueZero k' k); simpl; [assumption|].
  now rewrite H1, IH.
Qed.

Lemma Map_has_delete_same (k : value) (m : Map) :
  Map_ok m = true -> Map_has k (Map_delete k m) = false.
Proof.
  induction m as [|[k' v'] rest IH]; simpl; [reflexivity|].
  intros H. apply andb_true_iff in H as [H1 H2].
  destruct (sameValueZero k' k) eqn:E.
  - apply sameValueZero_eq in E. subst k'.
    now apply negb_true_iff in H1.
  - simpl. rewrite E. simpl. now apply IH.
Qed.

Lemma Map_ok_set (k v : value) (m : Map) :
  Map_ok m = true -> Map_ok (Map_set k v m) = true.
Proof.
  induction m as [|[k' v'] rest IH]; simpl; [reflexivity|].
  intros H. apply andb_true_iff in H as [H1 H2].
  destruct (sameValueZero k' k) eqn:E; simpl.
  - now rewrite H1, H2.
  - rewrite Map_has_set_other by (now rewrite sameValueZero_sym).
    now rewrite H1, IH.
Qed.

Lemma Map_ok_delete (k : value) (m : Map) :
  Map_ok m = true -> Map_ok (Map_delete k m) = true.
Proof.
  induction m as [|[k' v'] rest IH]; simpl; [reflexivity|].
  intros H. apply andb_true_iff in H as [H1 H2].
  destruct (sameValueZero k' k); simpl; [assumption|].
  apply negb_true_iff in H1.
  now rewrite Map_has_delete_absent, IH.
Qed.

Lemma readable_set (k v : value) (m : Map) :
  nullish v = false -> readable m = true -> readable (Map_set k v m) = true.
Proof.
  unfold readable, Map_values. intros Hv.
  induction m as [|[k' v'] rest IH]; simpl.
  - now rewrite Hv.
  - intros H. apply andb_true_iff in H as [H1 H2].
    destruct (sameValueZero k' k); simpl.
    + now rewrite Hv, H2.
    + now rewrite H1, IH.
Qed.

Lemma readable_delete (k : value) (m : Map) :
  readable m = true -> readable (Map_delete k m) = true.
Proof.
  unfold readable, Map_values.
  induction m as [|[k' v'] rest IH]; simpl; [reflexivity|].
  intros H. apply andb_true_iff in H as [H1 H2].
  destruct (sameValueZero k' k); simpl; [assumption|].
  now rewrite H1, IH.
Qed.

Lemma keyed_by_id_set (k v : value) (m : Map) :
  property v "id" = k -> keyed_by_id m -> keyed_by_id (Map_set k v m).
Proof.
  unfold keyed_by_id. intros Hk.
  induction m as [|[k' v'] rest IH]; simpl; intros H.
  - constructor; [assumption | constructor].
  - apply Forall_cons_iff in H as [Hhd Htl].
    destruct (sameValueZero k' k) eqn:E.
    + apply sameValueZero_eq in E. subst k'.
      constructor; [exact Hk | assumption].
    + constructor; [assumption | now apply IH].
Qed.

Lemma keyed_by_id_delete (k : value) (m : Map) :
  keyed_by_id m -> keyed_by_id (Map_delete k m).
Proof.
  unfold keyed_by_id.
  induction m as [|[k' v'] rest IH]; simpl; intros H; [assumption|].
  apply Forall_cons_iff in H as [Hhd Htl].
  destruct (sameValueZero k' k); [assumption|].
  constructor; [assumption | now apply IH].
Qed.

(** Appending an absent key is what [set] does to it. *)
Lemma Map_set_absent (k v : value) (m : Map) :
  Map_has k m = false -> Map_set k v m = m ++ [(k, v)].
Proof.
  induction m as [|[k' v'] rest IH]; simpl; [reflexivity|].
  intros H. apply orb_false_iff in H as [H1 H2].
  now rewrite H1, IH.
Qed.

Lemma Map_has_app (k : value) (m1 m2 : Map) :
  Map_has k (m1 ++ m2) = Map_has k m1 || Map_has k m2.
Proof.
  induction m1 as [|[k' v'] rest IH]; simpl; [reflexivity|].
  now rewrite IH, orb_assoc.
Qed.

(** In a well-formed map no earlier key matches a later one. *)
Lemma Map_ok_app_absent (m1 m2 : Map) (k v : value) :
  Map_ok (m1 ++ (k, v) :: m2) = true -> Map_has k m1 = false.
Proof.
  induction m1 as [|[k' v'] rest IH]; simpl; [reflexivity|].
  intros H. apply andb_true_iff in H as [H1 H2].
  apply negb_true_iff in H1. rewrite Map_has_app in H1.
  apply orb_false_iff in H1 as [_ H1]. simpl in H1.
  apply orb_false_iff in H1 as [H1 _].
  rewrite sameValueZero_sym, H1. simpl. now apply IH.
Qed.

Lemma toggled_has (productId : Z) (p : product) (m : Map) :
  Map_ok m = true ->
  Map_has (VNum productId) (toggled productId p m) = negb (Map_has (VNum productId) m).
Proof.
  intros Hok. unfold toggled.
  destruct (Map_has (VNum productId) m) eqn:E; simpl.
  - now apply Map_has_delete_same.
  - apply Map_has_set_same.
Qed.

Lemma toggled_ok (productId : Z) (p : product) (m : Map) :
  Map_ok m = true -> Map_ok (toggled productId p m) = true.
Proof.
  intros H. unfold toggled.
  destruct (Map_has (VNum productId) m); [now apply Map_ok_delete | now apply Map_ok_set].
Qed.

Lemma toggled_readable (productId : Z) (p : product) (m : Map) :
  readable m = true -> readable (toggled productId p m) = true.
Proof.
  intros H. unfold toggled.
  destruct (Map_has (VNum productId) m);
    [now apply readable_delete | now apply readable_set].
Qed.

Lemma renderable_set (k v : value) (m : Map) :
  chip_printable v = true -> renderable m = true -> renderable (Map_set k v m) = true.
Proof.
  unfold renderable, Map_values. intros Hv.
  induction m as [|[k' v'] rest IH]; simpl.
  - now rewrite Hv.
  - intros H. apply andb_true_iff in H as [H1 H2].
    destruct (sameValueZero k' k); simpl.
    + now rewrite Hv, H2.
    + now rewrite H1, IH.
Qed.

Lemma renderable_delete (k : value) (m : Map) :
  renderable m = true -> renderable (Map_delete k m) = true.
Proof.
  unfold renderable, Map_values.
  induction m as [|[k' v'] rest IH]; simpl; [reflexivity|].
  intros H. apply andb_true_iff in H as [H1 H2].
  destruct (sameValueZero k' k); simpl; [assumption|].
  now rewrite H1, IH.
Qed.

(** A product record makes a chip: its [id] is a number, its [name] and
    [brand] are strings. *)
Lemma chip_printable_product (p : product) : chip_printable (value_of_product p) = true.
Proof. reflexivity. Qed.

Lemma toggled_renderable (productId : Z) (p : product) (m : Map) :
  renderable m = true -> renderable (toggled productId p m) = true.
Proof.
  intros H. unfold toggled.
  destruct (Map_has (VNum productId) m);
    [now apply renderable_delete
    |apply renderable_set; [apply chip_printable_product | assumption]].
Qed.

(* ================================================================= *)
(** ** Running a computation *)

Lemma bind_returned {A B} (m : M A) (k : A -> M B) (s s' : state) (a : A) :
  m s = Returned a s' -> bind m k s = k a s'.
Proof. intros H. unfold bind. now rewrite H. Qed.

Lemma bind_thrown {A B} (m : M A) (k : A -> M B) (s s' : state) (e : error) :
  m s = Thrown e s' -> bind m k s = Thrown e s'.
Proof. intros H. unfold bind. now rewrite H. Qed.

Lemma try_catch_returned {A} (m : M A) (h : error -> M A) (s s' : state) (a : A) :
  m s = Returned a s' -> try_catch m h s = Returned a s'.
Proof. intros H. unfold try_catch. now rewrite H. Qed.

Lemma try_catch_thrown {A} (m : M A) (h : error -> M A) (s s' : state) (e : error) :
  m s = Thrown e s' -> try_catch m h s = h e s'.
Proof. intros H. unfold try_catch. now rewrite H. Qed.

Lemma try_finally_returned {A} (m : M A) (f : M unit) (s s' s'' : state) (a : A) :
  m s = Returned a s' -> f s' = Returned tt s'' ->
  try_finally m f s = Returned a s''.
Proof. intros H Hf. unfold try_finally, bind. now rewrite H, Hf. Qed.

(* ================================================================= *)
(** ** Invariance rules *)

Section Rules.

Context {A B : Type} (I : state -> Prop).

Lemma hoare_ret (a : A) (Q : A -> Prop) : Q a -> hoare I (ret a) Q.
Proof. intros HQ s Hs. simpl. auto. Qed.

Lemma hoare_throw (e : error) (Q : A -> Prop) : hoare I (throw e) Q.
Proof. intros s Hs. exact Hs. Qed.

Lemma hoare_bind (m : M A) (k : A -> M B) (Q : A -> Prop) (R : B -> Prop) :
  hoare I m Q -> (forall a, Q a -> hoare I (k a) R) -> hoare I (bind m k) R.
Proof.
  intros Hm Hk s Hs. unfold bind. specialize (Hm s Hs).
  destruct (m s) as [a s'|e s']; [|exact Hm].
  destruct Hm as [Hs' Ha]. exact (Hk a Ha s' Hs').
Qed.

Lemma hoare_weaken (m : M A) (Q Q' : A -> Prop) :
  hoare I m Q -> (forall a, Q a -> Q' a) -> hoare I m Q'.
Proof.
  intros Hm HQ s Hs. specialize (Hm s Hs).
  destruct (m s); [|exact Hm]. destruct Hm. auto.
Qed.

Lemma hoare_try_catch (m : M A) (h : error -> M A) (Q : A -> Prop) :
  hoare I m Q -> (forall e, hoare I (h e) Q) -> hoare I (try_catch m h) Q.
Proof.
  intros Hm Hh s Hs. unfold try_catch. specialize (Hm s Hs).
  destruct (m s) as [a s'|e s']; [exact Hm|]. exact (Hh e s' Hm).
Qed.

Lemma hoare_try_finally (m : M A) (f : M unit) (Q : A -> Prop) :
  hoare I m Q -> stable I f -> hoare I (try_finally m f) Q.
Proof.
  intros Hm Hf s Hs. unfold try_finally, bind. specialize (Hm s Hs).
  destruct (m s) as [a s'|e s'].
  - destruct Hm as [Hs' Ha]. specialize (Hf s' Hs').
    destruct (f s'); simpl; [destruct Hf; auto | exact Hf].
  - specialize (Hf s' Hm). destruct (f s'); simpl; [destruct Hf; auto | exact Hf].
Qed.

End Rules.

Lemma hoare_get (I : state -> Prop) : hoare I get I.
Proof. intros s Hs. simpl. auto. Qed.

Lemma stable_modify (I : state -> Prop) (f : state -> state) :
  (forall s, I s -> I (f s)) -> stable I (modify f).
Proof. intros Hf s Hs. simpl. auto. Qed.

Lemma stable_emit (I : state -> Prop) (e : effect) :
  (forall s j, I s -> I (with_journal j s)) -> stable I (emit e).
Proof. intros Hj. apply stable_modify. intros s Hs. now apply Hj. Qed.

Lemma stable_forEach {A} (I : state -> Prop) (xs : list A) (body : A -> M unit) :
  (forall x, stable I (body x)) -> stable I (forEach xs body).
Proof.
  intros Hb. induction xs as [|x rest IH]; simpl.
  - now apply hoare_ret.
  - eapply hoare_bind; [apply Hb | intros; exact IH].
Qed.

Lemma stable_mapM {A B} (I : state -> Prop) (f : A -> M B) (xs : list A) :
  (forall x, stable I (f x)) -> stable I (mapM f xs).
Proof.
  intros Hf. induction xs as [|x rest IH]; simpl.
  - now apply hoare_ret.
  - eapply hoare_bind; [apply Hf|]. intros y _.
    eapply hoare_bind; [exact IH|]. intros ys _. now apply hoare_ret.
Qed.

Lemma stable_final {A} (I : state -> Prop) (m : M A) (s : state) :
  stable I m -> I s -> I (final (m s)).
Proof.
  intros Hm Hs. specialize (Hm s Hs). destruct (m s); simpl; tauto.
Qed.

Ltac unfold_script :=
  unfold console_warn, console_error, localStorage_setItem, read,
    querySelector_card, set_card_selected, saveSelectedProducts, chip_of, interpolate,
    set_selectedProductsList, renderSelectedProducts, markSelectedCards,
    Array_forEach, Map_set_selected, Map_delete_selected,
    JSON_parse_or_throw, appendChatMessage, conversationMessages_push,
    sendMessageToOpenAI_settled, show_reply, getSelectedProductsArray.

(** Decomposes an invariance goal along the structure of the computation;
    what remains is that each state update keeps the invariant. *)
Ltac stable_step :=
  match goal with
  | |- stable _ _ => unfold stable
  | |- hoare _ (ret _) _ => apply hoare_ret; try exact Logic.I
  | |- hoare _ (throw _) _ => apply hoare_throw
  | |- hoare _ (bind get _) _ => eapply hoare_bind; [apply hoare_get | intros ? ?]
  | |- hoare _ (bind _ _) _ =>
      apply hoare_bind with (Q := fun _ => True);
      [| let a := fresh "a" in intros a _]
  | |- hoare _ (try_catch _ _) _ =>
      apply hoare_try_catch; [| let e := fresh "e" in intros e]
  | |- hoare _ (try_finally _ _) _ => apply hoare_try_finally
  | |- hoare _ (forEach _ _) _ =>
      apply stable_forEach; let x := fresh "x" in intros x
  | |- hoare _ (mapM _ _) _ =>
      apply stable_mapM; let x := fresh "x" in intros x
  | |- hoare _ (modify _) _ => apply stable_modify
  | |- hoare _ (emit _) _ => apply stable_emit
  | |- hoare _ (await _) _ => unfold await
  | |- hoare _ (if ?c then _ else _) _ => destruct c eqn:?
  | |- hoare _ (match ?x with _ => _ end) _ => destruct x eqn:?
  | |- hoare _ _ _ => progress unfold_script
  end.

Ltac stable_auto := repeat stable_step.


(* ================================================================= *)
(** ** Saving and rendering *)

Section Output.

Variable P : platform.

Lemma journal_saved (s : state) :
  journal (saved P s) = journal s ++ write_effects P (selectedProducts s).
Proof.
  unfold saved, write_effects.
  destruct (setItem_exception P _); reflexivity.
Qed.

Lemma selectedProducts_saved (s : state) :
  selectedProducts (saved P s) = selectedProducts s.
Proof. unfold saved. destruct (setItem_exception P _); reflexivity. Qed.

(** [saveSelectedProducts] always returns: a refused write is logged. *)
Lemma saveSelectedProducts_eq (s : state) :
  saveSelectedProducts P s = Returned tt (saved P s).
Proof.
  unfold saveSelectedProducts, saved, write_effects, try_catch, bind, get,
    localStorage_setItem, console_warn, emit, modify, throw.
  destruct (setItem_exception P _) eqn:E; simpl; [|reflexivity].
  unfold with_journal; simpl. now rewrite <- app_assoc.
Qed.

Lemma interpolate_printable (v : value) (s : state) :
  printable v = true -> interpolate P v s = Returned (printed v) s.
Proof.
  unfold printable, printed, interpolate. now destruct (ToString v).
Qed.

Lemma interpolate_unprintable (v : value) (s : state) :
  printable v = false -> interpolate P v s = Thrown (TypeError P) s.
Proof.
  unfold printable, interpolate. now destruct (ToString v).
Qed.

Lemma chip_of_printable (v : value) (s : state) :
  nullish v = false -> chip_printable v = true ->
  chip_of P v s = Returned (chip_view v) s.
Proof.
  intros Hv Hp. unfold chip_printable in Hp.
  apply andb_true_iff in Hp as [Hp Hb]. apply andb_true_iff in Hp as [Hi Hn].
  unfold chip_of, read. rewrite Hv.
  unfold bind, ret. rewrite !interpolate_printable by assumption. reflexivity.
Qed.

Lemma chip_of_unprintable (v : value) (s : state) :
  nullish v = false -> chip_printable v = false ->
  chip_of P v s = Thrown (TypeError P) s.
Proof.
  intros Hv Hp. unfold chip_printable in Hp. unfold chip_of, read. rewrite Hv.
  unfold bind, ret.
  destruct (printable (property v "id")) eqn:Hi;
    [rewrite interpolate_printable by assumption
    |now rewrite interpolate_unprintable by assumption].
  destruct (printable (property v "name")) eqn:Hn;
    [rewrite interpolate_printable by assumption
    |now rewrite interpolate_unprintable by assumption].
  destruct (printable (property v "brand")) eqn:Hb; [discriminate|].
  now rewrite interpolate_unprintable by assumption.
Qed.

Lemma mapM_chip_of (vs : list value) (s : state) :
  forallb (fun v => negb (nullish v)) vs = true ->
  forallb chip_printable vs = true ->
  mapM (chip_of P) vs s = Returned (map chip_view vs) s.
Proof.
  induction vs as [|v rest IH]; simpl; [reflexivity|].
  intros H Hp. apply andb_true_iff in H as [Hv Hrest].
  apply andb_true_iff in Hp as [Hpv Hprest].
  apply negb_true_iff in Hv.
  unfold bind at 1. rewrite chip_of_printable by assumption.
  unfold bind. now rewrite IH.
Qed.

Lemma mapM_chip_of_throws (vs : list value) (s : state) :
  forallb (fun v => negb (nullish v)) vs = true ->
  forallb chip_printable vs = false ->
  mapM (chip_of P) vs s = Thrown (TypeError P) s.
Proof.
  induction vs as [|v rest IH]; simpl; [discriminate|].
  intros H Hp. apply andb_true_iff in H as [Hv Hrest].
  apply negb_true_iff in Hv.
  unfold bind at 1. destruct (chip_printable v) eqn:Hpv.
  - rewrite chip_of_printable by assumption. simpl in Hp.
    unfold bind. now rewrite IH.
  - now rewrite chip_of_unprintable by assumption.
Qed.

Lemma renderSelectedProducts_eq (s : state) :
  readable (selectedProducts s) = true ->
  renderable (selectedProducts s) = true ->
  renderSelectedProducts P s = Returned tt (rendered s).
Proof.
  intros Hr Hp. unfold renderSelectedProducts, rendered, view_of, bind, get.
  destruct (Nat.eqb (Map_size (selectedProducts s)) 0); [reflexivity|].
  now rewrite mapM_chip_of.
Qed.

(** On a store with a value that makes no chip the template throws before
    anything is assigned. *)
Lemma renderSelectedProducts_throws (s : state) :
  readable (selectedProducts s) = true ->
  renderable (selectedProducts s) = false ->
  renderSelectedProducts P s = Thrown (TypeError P) s.
Proof.
  intros Hr Hp. unfold renderSelectedProducts, bind, get.
  destruct (Nat.eqb (Map_size (selectedProducts s)) 0) eqn:E.
  - destruct (selectedProducts s); [discriminate Hp | discriminate E].
  - now rewrite mapM_chip_of_throws.
Qed.

Lemma saveSelectedProducts_stable (I : state -> Prop) :
  blind_to_output I -> stable I (saveSelectedProducts P).
Proof.
  intros HI s Hs. rewrite saveSelectedProducts_eq. split; [|exact Logic.I].
  unfold saved. destruct (setItem_exception P _).
  - now apply HI.
  - apply HI. now apply HI.
Qed.

Lemma renderSelectedProducts_stable (I : state -> Prop) :
  blind_to_output I -> stable I (renderSelectedProducts P).
Proof.
  intros HI. stable_auto; try (intros s Hs; now apply HI); try (intros s j Hs; now apply HI).
Qed.

End Output.

(* ================================================================= *)
(** ** Toggling and removing *)

Section Selection.

Variable P : platform.

Lemma find_unresolvable (productId : Z) (s : state) :
  resolvable productId s = false ->
  find (fun p => (id p =? productId)%Z) (displayed s) = None.
Proof.
  unfold resolvable. induction (displayed s) as [|p rest IH]; simpl; [reflexivity|].
  intros H. apply orb_false_iff in H as [H1 H2]. rewrite H1. now apply IH.
Qed.

Lemma find_resolvable (productId : Z) (s : state) :
  resolvable productId s = true ->
  exists product, find (fun p => (id p =? productId)%Z) (displayed s) = Some product.
Proof.
  unfold resolvable. induction (displayed s) as [|p rest IH]; simpl; [discriminate|].
  intros H. destruct (id p =? productId)%Z; [now exists p|]. now apply IH.
Qed.

Lemma toggleSelect_resolved (productId : Z) (cardElement : nat) (product : product)
    (s : state) :
  find (fun p => (id p =? productId)%Z) (displayed s) = Some product ->
  toggleSelect P productId cardElement s =
  renderSelectedProducts P (saved P (toggle_applied productId cardElement product s)).
Proof.
  intros Hfind. unfold toggleSelect, bind at 1, get.
  fold (displayed s). rewrite Hfind.
  unfold bind at 1. unfold toggle_applied, toggled.
  destruct (Map_has (VNum productId) (selectedProducts s)); simpl;
    unfold bind; now rewrite saveSelectedProducts_eq.
Qed.

Lemma toggleSelect_unresolved (productId : Z) (cardElement : nat) (s : state) :
  resolvable productId s = false ->
  toggleSelect P productId cardElement s = Returned tt s.
Proof.
  intros H. unfold toggleSelect, bind, get. fold (displayed s).
  now rewrite find_unresolvable.
Qed.

Lemma toggleSelect_store (productId : Z) (cardElement : nat) (s : state) :
  resolvable productId s = true ->
  exists product,
    selectedProducts (final (toggleSelect P productId cardElement s))
    = toggled productId product (selectedProducts s)
    /\ lastDisplayedProducts (final (toggleSelect P productId cardElement s))
       = lastDisplayedProducts s.
Proof.
  intros H. destruct (find_resolvable _ _ H) as [product Hfind].
  exists product. rewrite (toggleSelect_resolved _ _ _ _ Hfind).
  set (I := fun st : state =>
              selectedProducts st = toggled productId product (selectedProducts s)
              /\ lastDisplayedProducts st = lastDisplayedProducts s).
  change (I (final (renderSelectedProducts P
                      (saved P (toggle_applied productId cardElement product s))))).
  apply stable_final.
  - apply renderSelectedProducts_stable. intros st Hst. unfold I in *. now simpl.
  - unfold I, saved. destruct (setItem_exception P _); now simpl.
Qed.

Lemma chip_remove_click_eq (removeId : Z) (s : state) :
  readable (selectedProducts s) = true ->
  renderable (selectedProducts s) = true ->
  exists cards,
    chip_remove_click P removeId s =
    Returned tt
      (saved P (rendered (with_productsContainer cards
         (with_selectedProducts (Map_delete (VNum removeId) (selectedProducts s)) s)))).
Proof.
  intros Hr Hp.
  unfold chip_remove_click, Map_delete_selected, bind at 1, modify.
  unfold bind at 1, get. simpl productsContainer.
  destruct (first_card (string_of_Z removeId) (productsContainer s)) as [i|].
  - exists (set_selected_at i false (productsContainer s)).
    unfold bind at 1, set_card_selected, modify. simpl. unfold bind.
    rewrite renderSelectedProducts_eq
      by (simpl; (now apply readable_delete) || (now apply renderable_delete)).
    apply saveSelectedProducts_eq.
  - exists (productsContainer s).
    unfold bind at 1, ret. unfold bind.
    rewrite renderSelectedProducts_eq
      by (simpl; (now apply readable_delete) || (now apply renderable_delete)).
    rewrite saveSelectedProducts_eq. destruct s; reflexivity.
Qed.

End Selection.

(* ================================================================= *)
(** ** Loading *)

Lemma with_selectedProducts_same (s : state) :
  with_selectedProducts (selectedProducts s) s = s.
Proof. now destruct s. Qed.

Lemma readable_loaded (items : list value) (m : Map) :
  readable m = true -> readable (loaded items m) = true.
Proof.
  revert m. induction items as [|p rest IH]; simpl; intros m Hm; [assumption|].
  destruct (nullish p) eqn:E; [assumption|].
  apply IH. now apply readable_set.
Qed.

Lemma Map_ok_loaded (items : list value) (m : Map) :
  Map_ok m = true -> Map_ok (loaded items m) = true.
Proof.
  revert m. induction items as [|p rest IH]; simpl; intros m Hm; [assumption|].
  destruct (nullish p); [assumption|]. apply IH. now apply Map_ok_set.
Qed.

Lemma keyed_by_id_loaded (items : list value) (m : Map) :
  keyed_by_id m -> keyed_by_id (loaded items m).
Proof.
  revert m. induction items as [|p rest IH]; simpl; intros m Hm; [assumption|].
  destruct (nullish p); [assumption|]. apply IH. now apply keyed_by_id_set.
Qed.

(** Rebuilding a well-formed store from its values gives it back, in the
    same order. *)
Lemma loaded_values (m2 m1 : Map) :
  Map_ok (m1 ++ m2) = true -> readable m2 = true -> keyed_by_id m2 ->
  loaded (Map_values m2) m1 = m1 ++ m2.
Proof.
  revert m1. induction m2 as [|[k v] rest IH]; intros m1 Hok Hr Hk; simpl.
  - now rewrite app_nil_r.
  - unfold readable in Hr. simpl in Hr. apply andb_true_iff in Hr as [Hv Hr].
    apply negb_true_iff in Hv. rewrite Hv.
    apply Forall_cons_iff in Hk as [Hid Hk]. simpl in Hid. rewrite Hid.
    rewrite Map_set_absent by (eapply Map_ok_app_absent; eassumption).
    rewrite IH; try assumption.
    + now rewrite <- app_assoc.
    + now rewrite <- app_assoc.
Qed.

Section Loading.

Variable P : platform.

(** The callback runs until the first element it cannot read. *)
Lemma forEach_load (items : list value) (s : state) :
  forEach items (load_callback P) s =
  (if forallb (fun v => negb (nullish v)) items
   then Returned tt else Thrown (TypeError P))
    (with_selectedProducts (loaded items (selectedProducts s)) s).
Proof.
  revert s. induction items as [|p rest IH]; intros s; simpl.
  - now rewrite with_selectedProducts_same.
  - unfold bind at 1. unfold load_callback at 1, read, bind.
    destruct (nullish p) eqn:E; simpl.
    + now rewrite with_selectedProducts_same.
    + unfold Map_set_selected, modify. rewrite IH. reflexivity.
Qed.

Lemma markSelectedCards_stable (I : state -> Prop) :
  (forall s c, I s -> I (with_productsContainer c s)) ->
  stable I (markSelectedCards P).
Proof.
  intros HI. stable_auto; intros s Hs; now apply HI.
Qed.

Lemma load_missing (s : state) :
  falsy (localStorage_selectedProducts s) = true ->
  readable (selectedProducts s) = true ->
  renderable (selectedProducts s) = true ->
  loadSelectedFromStorage P s = Returned tt (rendered s).
Proof.
  intros Hf Hr Hp. unfold loadSelectedFromStorage, try_catch, bind at 1, get.
  rewrite Hf. now rewrite renderSelectedProducts_eq.
Qed.

Lemma load_unparseable (s : state) (raw : string) (e : error) :
  localStorage_selectedProducts s = Some raw ->
  String.eqb raw EmptyString = false ->
  JSON_parse P raw = inl e ->
  readable (selectedProducts s) = true ->
  renderable (selectedProducts s) = true ->
  loadSelectedFromStorage P s =
  Returned tt (rendered (with_journal (journal s ++ [ConsoleWarn LOAD_WARNING e]) s)).
Proof.
  intros Hs Hne Hp Hr Hpr. unfold loadSelectedFromStorage, try_catch, bind at 1, get.
  rewrite Hs. unfold falsy. rewrite Hne.
  unfold bind at 1, JSON_parse_or_throw. rewrite Hp. simpl.
  unfold bind, console_warn, emit, modify.
  now rewrite renderSelectedProducts_eq.
Qed.

Lemma load_not_array (s : state) (raw : string) (v : value) :
  localStorage_selectedProducts s = Some raw ->
  String.eqb raw EmptyString = false ->
  JSON_parse P raw = inr v ->
  (forall items, v <> VArr items) ->
  loadSelectedFromStorage P s =
  Returned tt
    (rendered (with_journal (journal s ++ [ConsoleWarn LOAD_WARNING (TypeError P)])
                 (with_selectedProducts [] s))).
Proof.
  intros Hs Hne Hp Hv. unfold loadSelectedFromStorage, try_catch, bind at 1, get.
  rewrite Hs. unfold falsy. rewrite Hne.
  unfold bind at 1, JSON_parse_or_throw. rewrite Hp. simpl.
  unfold bind at 1, modify. unfold bind at 1.
  assert (Harr : forall cb st, Array_forEach P v cb st = Thrown (TypeError P) st).
  { intros cb st. destruct v; try reflexivity. now destruct (Hv items). }
  rewrite Harr. unfold bind, console_warn, emit, modify.
  now rewrite renderSelectedProducts_eq by reflexivity.
Qed.

(** An array is taken as it is: the store holds what its elements leave.
    When every one of them makes a chip, every exit ends in a rendering
    that returns. *)
Lemma load_array (s : state) (raw : string) (items : list value) :
  localStorage_selectedProducts s = Some raw ->
  String.eqb raw EmptyString = false ->
  JSON_parse P raw = inr (VArr items) ->
  renderable (loaded items []) = true ->
  exists s', loadSelectedFromStorage P s = Returned tt s'
             /\ selectedProducts s' = loaded items [].
Proof.
  intros Hs Hne Hp Hpr. unfold loadSelectedFromStorage, try_catch, bind at 1, get.
  rewrite Hs. unfold falsy. rewrite Hne.
  unfold bind at 1, JSON_parse_or_throw. rewrite Hp. simpl.
  unfold bind at 1, modify. unfold bind at 1.
  change (forEach items _ ?st) with (forEach items (load_callback P) st).
  rewrite forEach_load. simpl selectedProducts.
  set (s1 := with_selectedProducts (loaded items []) _).
  assert (Hr1 : readable (selectedProducts s1) = true)
    by (now apply readable_loaded).
  set (I := fun st : state => selectedProducts st = loaded items []).
  assert (Hwarn : forall e st, I st ->
            exists s', (console_warn LOAD_WARNING e ;; renderSelectedProducts P) st
                       = Returned tt s' /\ I s').
  { intros e st Hst. unfold bind, console_warn, emit, modify.
    rewrite renderSelectedProducts_eq
      by (simpl; unfold I in Hst; rewrite Hst;
          (now apply readable_loaded) || assumption).
    eexists. split; [reflexivity | exact Hst]. }
  destruct (forallb _ items).
  - unfold bind at 1. rewrite renderSelectedProducts_eq by assumption.
    pose proof (markSelectedCards_stable I) as Hm.
    specialize (Hm (fun st c H => H) (rendered s1) eq_refl).
    destruct (markSelectedCards P (rendered s1)) as [[] s2|e s2].
    + exists s2. split; [reflexivity | apply Hm].
    + now apply Hwarn.
  - now apply Hwarn.
Qed.

(** When one of them makes no chip, the rendering throws in the [try] and
    again in the [catch]: the load raises, with the store filled, one
    warning logged and the chips never assigned. *)
Lemma load_array_raises (s : state) (raw : string) (items : list value) :
  localStorage_selectedProducts s = Some raw ->
  String.eqb raw EmptyString = false ->
  JSON_parse P raw = inr (VArr items) ->
  renderable (loaded items []) = false ->
  loadSelectedFromStorage P s =
  Thrown (TypeError P)
    (with_journal (journal s ++ [ConsoleWarn LOAD_WARNING (TypeError P)])
       (with_selectedProducts (loaded items []) s)).
Proof.
  intros Hs Hne Hp Hpr. unfold loadSelectedFromStorage, try_catch, bind at 1, get.
  rewrite Hs. unfold falsy. rewrite Hne.
  unfold bind at 1, JSON_parse_or_throw. rewrite Hp. simpl.
  unfold bind at 1, modify. unfold bind at 1.
  change (forEach items _ ?st) with (forEach items (load_callback P) st).
  rewrite forEach_load. simpl selectedProducts.
  assert (Hthrow : forall st, selectedProducts st = loaded items [] ->
            renderSelectedProducts P st = Thrown (TypeError P) st).
  { intros st Hst. apply renderSelectedProducts_throws; rewrite Hst;
      [now apply readable_loaded | assumption]. }
  destruct (forallb _ items).
  - unfold bind at 1. rewrite Hthrow by reflexivity.
    unfold bind, console_warn, emit, modify. rewrite Hthrow by reflexivity.
    destruct s; reflexivity.
  - unfold bind, console_warn, emit, modify. rewrite Hthrow by reflexivity.
    destruct s; reflexivity.
Qed.

End Loading.

(* ================================================================= *)
(** ** The two pipelines *)

Section Pipelines.

Variable P : platform.

Lemma settled_fails (outcome : settlement) (err : error) (s : state) :
  fails outcome err -> sendMessageToOpenAI_settled outcome s = Thrown err s.
Proof.
  intros H. unfold sendMessageToOpenAI_settled, bind, await.
  destruct H as [e | res errText Hok Htext | res e Hok Htext | res e Hok Hjson];
    simpl; try rewrite Hok; simpl; try rewrite Htext; try rewrite Hjson; reflexivity.
Qed.

Lemma settled_succeeds (outcome : settlement) (aiText : string) (s : state) :
  succeeds outcome aiText -> sendMessageToOpenAI_settled outcome s = Returned aiText s.
Proof.
  intros (res & -> & Hok & Hjson).
  unfold sendMessageToOpenAI_settled, bind, await. simpl.
  now rewrite Hok, Hjson.
Qed.

Lemma show_reply_eq (aiText : string) (s : state) :
  show_reply aiText s = Returned tt (with_chatWindow (shown aiText (chatWindow s)) s).
Proof.
  unfold show_reply, shown, bind, get.
  now destruct (set_last_assistant aiText (chatWindow s)).
Qed.

Lemma chat_submission_blank (typed : string) (s : state) :
  trim P typed = EmptyString ->
  chat_submission P typed s = Returned Done (with_userInput typed s).
Proof.
  intros H. unfold chat_submission, chatForm_submit, bind, modify, get.
  change (userInput (with_userInput typed s)) with typed. now rewrite H.
Qed.

Lemma chat_submission_eq (typed : string) (s : state) :
  trim P typed <> EmptyString ->
  chat_submission P typed s =
  Returned
    (Await (sendMessageToOpenAI_request P
              (conversationMessages s ++ [mkMessage user (trim P typed)]))
           (chatForm_submit_resumed))
    (submitted P typed s).
Proof.
  intros H. apply String.eqb_neq in H.
  unfold chat_submission, chatForm_submit, bind at 1, modify. unfold bind at 1, get.
  change (userInput (with_userInput typed s)) with typed. rewrite H.
  unfold submitted, bind, appendChatMessage, conversationMessages_push, modify,
    emit, get, ret.
  unfold with_journal, with_chatWindow; simpl.
  now rewrite <- app_assoc.
Qed.

Lemma chatForm_submit_resumed_fails (outcome : settlement) (err : error) (s : state) :
  fails outcome err ->
  chatForm_submit_resumed outcome s =
  Returned tt (with_sendBtn_disabled false (reported "Error: " err s)).
Proof.
  intros H. unfold chatForm_submit_resumed.
  eapply try_finally_returned; cycle 1; [reflexivity|].
  erewrite try_catch_thrown; [reflexivity|].
  apply bind_thrown. now apply settled_fails.
Qed.

Lemma chatForm_submit_resumed_succeeds (outcome : settlement) (aiText : string) (s : state) :
  succeeds outcome aiText ->
  chatForm_submit_resumed outcome s =
  Returned tt (with_sendBtn_disabled false (replied aiText s)).
Proof.
  intros H. unfold chatForm_submit_resumed.
  eapply try_finally_returned; cycle 1; [reflexivity|].
  apply try_catch_returned.
  erewrite bind_returned; [|apply settled_succeeds; eassumption].
  erewrite bind_returned; [|apply show_reply_eq].
  reflexivity.
Qed.

Lemma generateBtn_click_resumed_fails (outcome : settlement) (err : error) (s : state) :
  fails outcome err ->
  generateBtn_click_resumed outcome s =
  Returned tt (with_generateBtn false GENERATE_LABEL
                 (reported "Error generating routine: " err s)).
Proof.
  intros H. unfold generateBtn_click_resumed.
  eapply try_finally_returned; cycle 1; [reflexivity|].
  erewrite try_catch_thrown; [reflexivity|].
  apply bind_thrown. now apply settled_fails.
Qed.

Lemma generateBtn_click_resumed_succeeds (outcome : settlement) (aiText : string)
    (s : state) :
  succeeds outcome aiText ->
  generateBtn_click_resumed outcome s =
  Returned tt (with_generateBtn false GENERATE_LABEL (replied aiText s)).
Proof.
  intros H. unfold generateBtn_click_resumed.
  eapply try_finally_returned; cycle 1; [reflexivity|].
  apply try_catch_returned.
  erewrite bind_returned; [|apply settled_succeeds; eassumption].
  erewrite bind_returned; [|apply show_reply_eq].
  reflexivity.
Qed.

Lemma mapM_routine_item (f := fun p =>
          i <- read P p "id" ;;
          b <- read P p "brand" ;;
          n <- read P p "name" ;;
          c <- read P p "category" ;;
          im <- read P p "image" ;;
          d <- read P p "description" ;;
          ret (VObj [ ("id", i); ("brand", b); ("name", n); ("category", c);
                      ("image", im); ("description", d) ]))
    (vs : list value) (s : state) :
  forallb (fun v => negb (nullish v)) vs = true ->
  mapM f vs s = Returned (map routine_item vs) s.
Proof.
  induction vs as [|v rest IH]; simpl; [reflexivity|].
  intros H. apply andb_true_iff in H as [Hv Hrest].
  apply negb_true_iff in Hv.
  unfold bind at 1. unfold f at 1, read, bind. rewrite Hv. simpl.
  unfold bind. now rewrite IH.
Qed.

Lemma getSelectedProductsArray_eq (s : state) :
  readable (selectedProducts s) = true ->
  getSelectedProductsArray P s =
  Returned (map routine_item (Map_values (selectedProducts s))) s.
Proof.
  intros H. unfold getSelectedProductsArray, bind, get.
  now rewrite mapM_routine_item.
Qed.

Lemma generateBtn_click_empty (s : state) :
  selectedProducts s = [] ->
  generateBtn_click P s =
  Returned Done (with_chatWindow (chatWindow s ++ [mkBubble assistant ADVISORY]) s).
Proof.
  intros H. unfold generateBtn_click, bind at 1.
  rewrite getSelectedProductsArray_eq by (now rewrite H).
  now rewrite H.
Qed.

Lemma generateBtn_click_eq (s : state) :
  readable (selectedProducts s) = true ->
  selectedProducts s <> [] ->
  generateBtn_click P s =
  Returned
    (Await (sendMessageToOpenAI_request P
              (conversationMessages s ++ [routine_turn P (selectedProducts s)]))
           (generateBtn_click_resumed))
    (generating P s).
Proof.
  intros Hr Hne. unfold generateBtn_click, bind at 1.
  rewrite getSelectedProductsArray_eq by assumption.
  destruct (selectedProducts s) as [|entry rest] eqn:E; [now destruct Hne|].
  simpl List.length. simpl Nat.eqb. cbv iota.
  unfold generating, routine_turn. rewrite E.
  unfold bind, conversationMessages_push, appendChatMessage, modify, emit, get, ret.
  simpl. unfold with_journal, with_chatWindow, with_generateBtn; simpl.
  now rewrite <- app_assoc.
Qed.

End Pipelines.

(* ================================================================= *)
(** ** What every reachable page satisfies *)

Lemma log_shape_push (log : list chat_message) (m : chat_message) :
  log_shape log -> not_system m -> log_shape (log ++ [m]).
Proof.
  intros (rest & -> & Hrest) Hm. exists (rest ++ [m]). split; [reflexivity|].
  apply Forall_app. split; [assumption | now constructor].
Qed.

Lemma toggled_keyed (productId : Z) (product : product) (m : Map) :
  id product = productId -> keyed_by_id m -> keyed_by_id (toggled productId product m).
Proof.
  intros Hid Hk. unfold toggled.
  destruct (Map_has (VNum productId) m).
  - now apply keyed_by_id_delete.
  - apply keyed_by_id_set; [|assumption]. simpl. now rewrite Hid.
Qed.

Lemma store_wf_delete (k : value) (m : Map) : store_wf m -> store_wf (Map_delete k m).
Proof.
  intros (H1 & H2 & H3). repeat split;
    [now apply Map_ok_delete | now apply readable_delete | now apply keyed_by_id_delete].
Qed.

Ltac frame_solve :=
  intros; unfold state_ok in *;
  repeat match goal with
         | H : _ /\ _ |- _ => destruct H
         end;
  split; simpl; try assumption;
  try (apply log_shape_push; [assumption | discriminate]).

Section Reachable.

Variable P : platform.

Lemma toggleSelect_ok (productId : Z) (cardElement : nat) :
  stable state_ok (toggleSelect P productId cardElement).
Proof.
  intros s [(Hok & Hr & Hk) Hlog].
  destruct (resolvable productId s) eqn:E.
  - destruct (find_resolvable _ _ E) as [product Hfind].
    rewrite (toggleSelect_resolved P _ _ _ _ Hfind).
    apply (renderSelectedProducts_stable P state_ok).
    + intros st Hst. split; [|split]; intros; exact Hst.
    + split.
      * rewrite selectedProducts_saved. simpl.
        repeat split;
          [now apply toggled_ok | now apply toggled_readable |].
        apply toggled_keyed; [|assumption].
        apply find_some in Hfind. now apply Z.eqb_eq.
      * unfold saved. now destruct (setItem_exception P _).
  - rewrite toggleSelect_unresolved by assumption. repeat split; assumption.
Qed.

Lemma card_click_ok (i : nat) : stable state_ok (card_click P i).
Proof.
  unfold card_click. stable_auto. apply toggleSelect_ok.
Qed.

Lemma chip_remove_click_ok (removeId : Z) : stable state_ok (chip_remove_click P removeId).
Proof.
  unfold chip_remove_click. stable_auto; frame_solve; now apply store_wf_delete.
Qed.

Lemma categoryFilter_change_ok (products : list product) (selectedCategory : string) :
  stable state_ok (categoryFilter_change P products selectedCategory).
Proof.
  unfold categoryFilter_change, displayProducts. stable_auto; frame_solve.
Qed.

Lemma chatForm_submit_resumed_ok (outcome : settlement) :
  stable state_ok (chatForm_submit_resumed outcome).
Proof.
  unfold chatForm_submit_resumed. stable_auto; frame_solve.
Qed.

Lemma generateBtn_click_resumed_ok (outcome : settlement) :
  stable state_ok (generateBtn_click_resumed outcome).
Proof.
  unfold generateBtn_click_resumed. stable_auto; frame_solve.
Qed.

Lemma chat_submission_ok (typed : string) :
  hoare state_ok (chat_submission P typed) (resumes_stably state_ok).
Proof.
  unfold chat_submission, chatForm_submit. stable_auto;
    try (simpl; intros; apply chatForm_submit_resumed_ok); frame_solve.
Qed.

Lemma generateBtn_click_ok :
  hoare state_ok (generateBtn_click P) (resumes_stably state_ok).
Proof.
  unfold generateBtn_click. stable_auto;
    try (simpl; intros; apply generateBtn_click_resumed_ok); frame_solve.
Qed.

End Reachable.

Section Startup.

Variable P : platform.

Lemma loadSelectedFromStorage_log (log : list chat_message) :
  stable (fun st => conversationMessages st = log) (loadSelectedFromStorage P).
Proof.
  unfold loadSelectedFromStorage. stable_auto; intros; simpl; assumption.
Qed.

(** The top-level call of [loadSelectedFromStorage]: the store it leaves
    depends on what storage held, and it raises exactly when a stored
    array leaves a value that makes no chip. *)
Lemma load_at_start (stored : option string) :
  selectedProducts (final (loadSelectedFromStorage P (script_start stored))) =
  match classify P stored with
  | AnArray items => loaded items []
  | _ => []
  end
  /\ returns (loadSelectedFromStorage P (script_start stored)) =
     match classify P stored with
     | AnArray items => renderable (loaded items [])
     | _ => true
     end.
Proof.
  unfold classify. destruct stored as [raw|].
  - destruct (String.eqb raw EmptyString) eqn:Hne.
    + rewrite load_missing by (simpl; try rewrite Hne; reflexivity). now split.
    + destruct (JSON_parse P raw) as [e|v] eqn:Hp.
      * erewrite load_unparseable by (eauto; reflexivity). now split.
      * assert (Hcase : (exists items, v = VArr items) \/ (forall items, v <> VArr items))
          by (destruct v; try (right; discriminate); left; eauto).
        destruct Hcase as [[items ->] | Hv].
        -- destruct (renderable (loaded items [])) eqn:Hpr.
           ++ destruct (load_array P (script_start (Some raw)) raw items
                          eq_refl Hne Hp Hpr) as (s' & -> & Hs').
              now split.
           ++ rewrite (load_array_raises P (script_start (Some raw)) raw items
                         eq_refl Hne Hp Hpr).
              now split.
        -- rewrite (load_not_array P (script_start (Some raw)) raw v eq_refl Hne Hp Hv).
           now destruct v; try (now split); destruct (Hv items).
  - rewrite load_missing by reflexivity. now split.
Qed.

Lemma store_wf_loaded (items : list value) : store_wf (loaded items []).
Proof.
  repeat split;
    [now apply Map_ok_loaded | now apply readable_loaded
     | apply keyed_by_id_loaded; constructor].
Qed.

Lemma page_load_ok (stored : option string) : page_ok (page_load P stored).
Proof.
  unfold page_load. split; [|constructor]. simpl current.
  destruct (load_at_start stored) as (Hstore & _).
  pose proof (stable_final _ _ (script_start stored)
                (loadSelectedFromStorage_log [SYSTEM_TURN]) eq_refl) as Hlog.
  simpl in Hlog.
  split.
  - rewrite Hstore. destruct (classify P stored);
      try apply store_wf_loaded; repeat split; constructor.
  - rewrite Hlog. exists []. split; [reflexivity | constructor].
Qed.

Lemma Forall_remove_nth {A} (Q : A -> Prop) (i : nat) (l : list A) :
  Forall Q l -> Forall Q (remove_nth i l).
Proof.
  revert i. induction l as [|x rest IH]; intros i H; destruct i; simpl;
    try constructor; apply Forall_cons_iff in H as [Hx Hrest]; auto.
Qed.

Lemma run_sync_ok (h : M unit) (p : page) :
  stable state_ok h -> page_ok p -> page_ok (run_sync h p).
Proof.
  intros Hh [Hs Hk]. split; [|assumption]. simpl. now apply stable_final.
Qed.

Lemma run_handler_ok (h : M async) (p : page) :
  hoare state_ok h (resumes_stably state_ok) -> page_ok p -> page_ok (run_handler h p).
Proof.
  intros Hh [Hs Hk]. unfold run_handler. specialize (Hh _ Hs).
  destruct (h (current p)) as [[|req resume] s'|e s'].
  - split; [apply Hh | assumption].
  - destruct Hh as [Hs' Hr]. split; [assumption|]. simpl.
    apply Forall_app. split; [assumption | now constructor].
  - split; assumption.
Qed.

Lemma dispatch_ok (e : event) (p : page) : page_ok p -> page_ok (dispatch P e p).
Proof.
  intros Hp. destruct e; simpl.
  - apply run_sync_ok; [apply categoryFilter_change_ok | assumption].
  - apply run_sync_ok; [apply card_click_ok | assumption].
  - apply run_sync_ok; [apply chip_remove_click_ok | assumption].
  - destruct (sendBtn_disabled (current p)); [assumption|].
    apply run_handler_ok; [apply chat_submission_ok | assumption].
  - destruct (generateBtn_disabled (current p)); [assumption|].
    apply run_handler_ok; [apply generateBtn_click_ok | assumption].
  - destruct (nth_error (awaiting p) i) as [resume|] eqn:E; [|assumption].
    destruct Hp as [Hs Hk]. split; simpl.
    + apply stable_final; [|assumption].
      apply nth_error_In in E. rewrite Forall_forall in Hk. now apply Hk.
    + now apply Forall_remove_nth.
Qed.

Lemma run_ok (events : list event) (p : page) : page_ok p -> page_ok (run P events p).
Proof.
  revert p. induction events as [|e rest IH]; intros p Hp; simpl; [assumption|].
  apply IH. now apply dispatch_ok.
Qed.

(** Every page the script can reach is well-formed. *)
Lemma reachable_ok (stored : option string) (events : list event) :
  page_ok (run P events (page_load P stored)).
Proof. apply run_ok, page_load_ok. Qed.

End Startup.

(* ================================================================= *)
(** ** The session, step by step *)

(** Displaying a category keeps the selection and marks nothing new. *)
Example browsing_shows_two_cards :
  productsContainer (current Session.browsing) = [mkCard 7 false; mkCard 9 false].
Proof. vm_compute; reflexivity. Qed.

(** A click selects the serum, stores it and renders its chip. *)
Example one_click_selects :
  Map_keys (selectedProducts (current Session.one_selected)) = [VNum 7]
  /\ selectedProductsList (current Session.one_selected)
     = Chips [mkChip "7" "Hydrating Serum" "CeraVe"]
  /\ productsContainer (current Session.one_selected) = [mkCard 7 true; mkCard 9 false].
Proof. repeat split; vm_compute; reflexivity. Qed.

(** The stored serum comes back on a later visit, and its card is marked
    once its category is displayed. *)
Example selection_survives_reload :
  selectedProducts (current Session.returning)
  = selectedProducts (current Session.one_selected)
  /\ productsContainer (current Session.returning_browsing)
     = [mkCard 7 true; mkCard 9 false].
Proof. split; vm_compute; reflexivity. Qed.

(** When storage refuses the write the toggle still takes place and the
    chips are rendered; the refusal is a warning in the console. *)
Example refused_write_is_logged :
  exists raw,
    journal (final (toggleSelect Session.full_browser 9 1 (current Session.one_selected)))
    = journal (current Session.one_selected)
      ++ [SetItem raw false;
          ConsoleWarn "Could not save selected products" Reference.QuotaExceededError;
          RenderSelected (Chips [mkChip "7" "Hydrating Serum" "CeraVe";
                                 mkChip "9" "Foaming Cleanser" "La Roche-Posay"])].
Proof. eexists. vm_compute. reflexivity. Qed.

(** A blank submission does nothing but leave the typed text in the field. *)
Example blank_submission_is_ignored :
  dispatch Session.browser (Submit "   ") Session.fresh
  = mkPage (with_userInput "   " (current Session.fresh)) [].
Proof. vm_compute; reflexivity. Qed.

(** A successful chat exchange on the first visit. *)
Example hello_round_trip :
  conversationMessages
    (current (run Session.browser [Submit "hi"; Settle 0 (Session.ok_reply "hello")]
                Session.fresh))
  = [SYSTEM_TURN; mkMessage user "hi"; mkMessage assistant "hello"]
  /\ chatWindow
       (current (run Session.browser [Submit "hi"; Settle 0 (Session.ok_reply "hello")]
                   Session.fresh))
     = [mkBubble user "hi"; mkBubble assistant "hello"].
Proof. split; vm_compute; reflexivity. Qed.

(** While the chat request is in flight the form does not submit again. *)
Example no_second_submission_in_flight :
  dispatch Session.browser (Submit "again")
    (dispatch Session.browser (Submit "hi") Session.fresh)
  = dispatch Session.browser (Submit "hi") Session.fresh.
Proof. reflexivity. Qed.

(* ================================================================= *)
(** ** The selection store *)

(** C9. A toggle of an identifier that the displayed set does not resolve
    returns at once and leaves the page as it was: the store, the stored
    item, the chips and the journal (no write, no rendering) are those of
    before, whether or not the identifier is in the store. *)
Theorem toggle_unresolvable_noop (P : platform) (productId : Z) (cardElement : nat)
    (s : state) :
  resolvable productId s = false ->
  toggleSelect P productId cardElement s = Returned tt s
  /\ selectedProducts (final (toggleSelect P productId cardElement s)) = selectedProducts s
  /\ localStorage_selectedProducts (final (toggleSelect P productId cardElement s))
     = localStorage_selectedProducts s
  /\ selectedProductsList (final (toggleSelect P productId cardElement s))
     = selectedProductsList s.
Proof.
  intros H. rewrite toggleSelect_unresolved by assumption. now repeat split.
Qed.

(** On a later visit the serum is in the store but no category is shown:
    clicking to toggle it changes nothing. *)
Lemma toggle_unresolvable_noop_witness :
  Map_has (VNum 7) (selectedProducts (current Session.returning)) = true
  /\ toggleSelect Session.browser 7 0 (current Session.returning)
     = Returned tt (current Session.returning).
Proof.
  split; [vm_compute; reflexivity|].
  apply (toggle_unresolvable_noop Session.browser 7 0 (current Session.returning)).
  vm_compute; reflexivity.
Defined.

Lemma resolvable_toggleSelect (P : platform) (productId : Z) (cardElement : nat)
    (s : state) :
  resolvable productId s = true ->
  resolvable productId (final (toggleSelect P productId cardElement s)) = true.
Proof.
  intros H. destruct (toggleSelect_store P _ cardElement _ H) as (product & _ & Hd).
  unfold resolvable, displayed in *. now rewrite Hd.
Qed.

(** C1 (as amended). For an identifier that the displayed set resolves,
    membership after a sequence of toggles is the membership before it,
    flipped when the number of toggles is odd. Starting unselected: even
    leaves it unselected, odd leaves it selected. *)
Theorem toggle_parity (P : platform) (productId : Z) (cards : list nat) (s : state) :
  Map_ok (selectedProducts s) = true ->
  resolvable productId s = true ->
  Map_has (VNum productId) (selectedProducts (toggles P productId cards s))
  = xorb (Map_has (VNum productId) (selectedProducts s)) (Nat.odd (List.length cards)).
Proof.
  revert s. induction cards as [|c rest IH]; intros s Hok Hres; simpl toggles.
  - now rewrite xorb_false_r.
  - destruct (toggleSelect_store P _ c _ Hres) as (product & Hstore & _).
    rewrite IH.
    + rewrite Hstore, toggled_has by assumption.
      simpl List.length. rewrite Nat.odd_succ, <- Nat.negb_odd.
      now destruct (Map_has _ _), (Nat.odd _).
    + rewrite Hstore. now apply toggled_ok.
    + now apply resolvable_toggleSelect.
Qed.

Lemma toggle_parity_witness :
  Map_has (VNum 7)
    (selectedProducts (toggles Session.browser 7 [0; 0; 0]%nat (current Session.browsing)))
  = xorb (Map_has (VNum 7) (selectedProducts (current Session.browsing)))
         (Nat.odd (List.length [0; 0; 0]%nat)).
Proof.
  apply (toggle_parity Session.browser 7 [0; 0; 0]%nat (current Session.browsing));
    vm_compute; reflexivity.
Defined.

(** C1, as stated, fails twice. On a first visit no category is displayed,
    so the identifier 7 does not resolve: one toggle (an odd number) leaves
    it unselected. On a later visit the serum comes back selected from
    storage; with its category displayed, one click on its card (an odd
    number of toggles) leaves it unselected. *)
Lemma toggle_parity_fails :
  Nat.odd (List.length [0%nat]) = true
  /\ Map_has (VNum 7)
       (selectedProducts (toggles Session.browser 7 [0%nat] (current Session.fresh)))
     = false
  /\ Map_has (VNum 7)
       (selectedProducts
          (current (run Session.browser [CardClick 0] Session.returning_browsing)))
     = false.
Proof. repeat split; vm_compute; reflexivity. Qed.

(** C3. What the two mutating handlers do, on a store whose values can
    be read and make chips. A toggle of a resolved identifier follows the
    order the specification requires: it writes to storage and then
    renders the chips. The removal of a chip does not: it renders the
    chips and then writes to storage. Both perform the two effects in the
    same handler run, also when the write is refused: [write_effects] is
    then the refused write and its warning, and the rendering stands in the
    journal all the same. *)
Theorem mutation_effects (P : platform) (s : state) (productId : Z) (cardElement : nat)
    (product : product) (removeId : Z) :
  readable (selectedProducts s) = true ->
  renderable (selectedProducts s) = true ->
  (find (fun p => (id p =? productId)%Z) (displayed s) = Some product ->
   returns (toggleSelect P productId cardElement s) = true
   /\ journal (final (toggleSelect P productId cardElement s))
      = journal s
        ++ write_effects P (toggled productId product (selectedProducts s))
        ++ [RenderSelected (view_of (toggled productId product (selectedProducts s)))])
  /\ (returns (chip_remove_click P removeId s) = true
      /\ journal (final (chip_remove_click P removeId s))
         = journal s
           ++ [RenderSelected (view_of (Map_delete (VNum removeId) (selectedProducts s)))]
           ++ write_effects P (Map_delete (VNum removeId) (selectedProducts s))).
Proof.
  intros Hr Hp. split.
  - intros Hfind. rewrite (toggleSelect_resolved P _ _ _ _ Hfind).
    rewrite renderSelectedProducts_eq
      by (rewrite selectedProducts_saved;
          (now apply toggled_readable) || (now apply toggled_renderable)).
    split; [reflexivity|]. simpl final.
    unfold rendered. simpl journal. rewrite selectedProducts_saved, journal_saved.
    simpl. now rewrite <- app_assoc.
  - destruct (chip_remove_click_eq P removeId s Hr Hp) as [cards ->].
    split; [reflexivity|]. simpl final.
    rewrite journal_saved. simpl. now rewrite <- app_assoc.
Qed.

(** With a storage that refuses every write: the cleanser is toggled in,
    the refused write and its warning are followed by the rendering. *)
Lemma mutation_effects_witness :
  journal (final (toggleSelect Session.full_browser 9 1 (current Session.one_selected)))
  = journal (current Session.one_selected)
    ++ write_effects Session.full_browser
         (toggled 9 Session.cleanser (selectedProducts (current Session.one_selected)))
    ++ [RenderSelected
          (view_of (toggled 9 Session.cleanser
                      (selectedProducts (current Session.one_selected))))].
Proof.
  destruct (mutation_effects Session.full_browser (current Session.one_selected) 9 1
              Session.cleanser 7) as [Htoggle _].
  - vm_compute; reflexivity.
  - vm_compute; reflexivity.
  - apply Htoggle. vm_compute; reflexivity.
Defined.

(** C3: the order the specification requires (persistence write, then
    re-render) is not the one of the chip handler. With the serum
    selected, removing its chip renders the (now empty) selection first
    and writes to storage after. *)
Lemma chip_removal_renders_first :
  journal (final (chip_remove_click Session.browser 7 (current Session.one_selected)))
  = journal (current Session.one_selected)
    ++ [RenderSelected NoProductsSelected; SetItem "[]" true].
Proof. vm_compute; reflexivity. Qed.

(* ================================================================= *)
(** ** Persistence *)






(* ================================================================= *)
(** ** The conversation *)

Lemma exchange_chat (P : platform) (typed : string) (outcome : settlement) (s : state) :
  trim P typed <> EmptyString ->
  exchange (chat_submission P typed) outcome s
  = final (chatForm_submit_resumed outcome (submitted P typed s)).
Proof.
  intros H. unfold exchange. now rewrite chat_submission_eq.
Qed.

Lemma exchange_generate (P : platform) (outcome : settlement) (s : state) :
  readable (selectedProducts s) = true ->
  selectedProducts s <> [] ->
  exchange (generateBtn_click P) outcome s
  = final (generateBtn_click_resumed outcome (generating P s)).
Proof.
  intros Hr Hne. unfold exchange. now rewrite generateBtn_click_eq.
Qed.

(** C4. A chat submission whose remote call fails leaves the log one turn
    longer, the user turn; the window shows the user bubble, the thinking
    bubble and an error bubble made of the failure's message; the send
    button is enabled again. The resumed handler adds no turn to the log
    from whatever page it resumes on. *)
Theorem failed_chat_submission (P : platform) (s : state) (typed : string)
    (outcome : settlement) (err : error) :
  trim P typed <> EmptyString ->
  fails outcome err ->
  conversationMessages (exchange (chat_submission P typed) outcome s)
  = conversationMessages s ++ [mkMessage user (trim P typed)]
  /\ List.length (conversationMessages (exchange (chat_submission P typed) outcome s))
     = S (List.length (conversationMessages s))
  /\ chatWindow (exchange (chat_submission P typed) outcome s)
     = chatWindow s ++ [mkBubble user (trim P typed); mkBubble assistant THINKING;
                        mkBubble assistant ("Error: " +++ message err)]
  /\ sendBtn_disabled (exchange (chat_submission P typed) outcome s) = false
  /\ (forall st, conversationMessages (final (chatForm_submit_resumed outcome st))
                 = conversationMessages st).
Proof.
  intros Htext Hfail. rewrite exchange_chat by assumption.
  rewrite (chatForm_submit_resumed_fails _ _ _ Hfail). simpl.
  repeat split.
  - rewrite length_app. simpl. lia.
  - now rewrite <- app_assoc.
  - intros st. now rewrite (chatForm_submit_resumed_fails _ _ _ Hfail).
Qed.

Lemma failed_chat_submission_witness :
  conversationMessages
    (exchange (chat_submission Session.browser " which serum? ") Session.server_error
       (current Session.fresh))
  = conversationMessages (current Session.fresh) ++ [mkMessage user "which serum?"]
  /\ chatWindow
       (exchange (chat_submission Session.browser " which serum? ") Session.server_error
          (current Session.fresh))
     = [mkBubble user "which serum?"; mkBubble assistant THINKING;
        mkBubble assistant "Error: Worker error: 500 upstream timeout"].
Proof.
  destruct (failed_chat_submission Session.browser (current Session.fresh)
              " which serum? " Session.server_error
              (Error "Worker error: 500 upstream timeout"))
    as (Hlog & _ & Hwindow & _).
  - vm_compute; discriminate.
  - apply (fails_status (mkResponse false 500 (inr "upstream timeout")
                           (inl Reference.SyntaxError)) "upstream timeout");
      reflexivity.
  - split; [exact Hlog | exact Hwindow].
Defined.

Lemma run_app (P : platform) (l1 l2 : list event) (p : page) :
  run P (l1 ++ l2) p = run P l2 (run P l1 p).
Proof. unfold run. apply fold_left_app. Qed.

Lemma selection_handlers_log (P : platform) (log : list chat_message) :
  (forall products selectedCategory,
      stable (fun st => conversationMessages st = log)
        (categoryFilter_change P products selectedCategory))
  /\ (forall i, stable (fun st => conversationMessages st = log) (card_click P i))
  /\ (forall removeId,
        stable (fun st => conversationMessages st = log) (chip_remove_click P removeId)).
Proof.
  repeat split; intros;
    unfold categoryFilter_change, displayProducts, card_click, toggleSelect,
      chip_remove_click;
    stable_auto; intros; simpl; assumption.
Qed.

(** Selection events leave the log and the suspended handlers alone. *)
Lemma selection_events_frame (P : platform) (events : list event) (p : page) :
  forallb selection_event events = true ->
  conversationMessages (current (run P events p)) = conversationMessages (current p)
  /\ awaiting (run P events p) = awaiting p.
Proof.
  revert p. induction events as [|e rest IH]; intros p H; simpl; [now split|].
  apply andb_true_iff in H as [He Hrest].
  destruct (IH (dispatch P e p) Hrest) as [Hlog Hawait].
  rewrite Hlog, Hawait.
  destruct (selection_handlers_log P (conversationMessages (current p)))
    as (Hcat & Hcard & Hchip).
  destruct e; try discriminate; simpl; (split; [|reflexivity]);
    apply (stable_final (fun st => conversationMessages st = conversationMessages (current p)));
    auto.
Qed.

(** An exchange on the page: an event starts it, selection events may
    follow, and the request it suspended on settles. *)
Lemma exchange_on_page (P : platform) (p : page) (start : event) (between : list event)
    (outcome : settlement) (resume : settlement -> M unit) (s1 : state) :
  dispatch P start p = mkPage s1 (awaiting p ++ [resume]) ->
  forallb selection_event between = true ->
  exists s2,
    conversationMessages s2 = conversationMessages s1
    /\ current (run P (start :: between ++ [Settle (List.length (awaiting p)) outcome]) p)
       = final (resume outcome s2).
Proof.
  intros Hstart Hbetween.
  change (run P (start :: ?l) p) with (run P l (dispatch P start p)).
  rewrite Hstart, run_app.
  destruct (selection_events_frame P between (mkPage s1 (awaiting p ++ [resume])) Hbetween)
    as [Hlog Hawait].
  exists (current (run P between (mkPage s1 (awaiting p ++ [resume])))).
  split; [exact Hlog|].
  simpl run. simpl in Hawait. unfold dispatch. rewrite Hawait.
  rewrite nth_error_app2 by lia. now rewrite Nat.sub_diag.
Qed.

(** C5 (as amended). On every page the script reaches the log is the
    system turn followed by user and assistant turns only. A successful
    exchange, be it a chat submission or a routine generation, during which
    no other submission starts or settles (selection events may occur)
    appends its user turn and then its assistant turn. *)
Theorem conversation_log_discipline (P : platform) (stored : option string)
    (events : list event) (p : page) (typed : string) (between : list event)
    (outcome : settlement) (aiText : string) :
  succeeds outcome aiText ->
  forallb selection_event between = true ->
  log_shape (conversationMessages (current (run P events (page_load P stored))))
  /\ (sendBtn_disabled (current p) = false ->
      trim P typed <> EmptyString ->
      conversationMessages
        (current (run P (Submit typed :: between
                         ++ [Settle (List.length (awaiting p)) outcome]) p))
      = conversationMessages (current p)
        ++ [mkMessage user (trim P typed); mkMessage assistant aiText])
  /\ (generateBtn_disabled (current p) = false ->
      readable (selectedProducts (current p)) = true ->
      selectedProducts (current p) <> [] ->
      conversationMessages
        (current (run P (GenerateClick :: between
                         ++ [Settle (List.length (awaiting p)) outcome]) p))
      = conversationMessages (current p)
        ++ [routine_turn P (selectedProducts (current p)); mkMessage assistant aiText]).
Proof.
  intros Hok Hbetween. repeat split.
  - apply (reachable_ok P stored events).
  - intros Hbtn Htext.
    destruct (exchange_on_page P p (Submit typed) between outcome
                chatForm_submit_resumed (submitted P typed (current p)))
      as (s2 & Hlog & ->); [|assumption|].
    + simpl. rewrite Hbtn. unfold run_handler. now rewrite chat_submission_eq.
    + rewrite (chatForm_submit_resumed_succeeds _ _ _ Hok). simpl.
      rewrite Hlog. simpl. now rewrite <- app_assoc.
  - intros Hbtn Hr Hne.
    destruct (exchange_on_page P p GenerateClick between outcome
                generateBtn_click_resumed (generating P (current p)))
      as (s2 & Hlog & ->); [|assumption|].
    + simpl. rewrite Hbtn. unfold run_handler. now rewrite generateBtn_click_eq.
    + rewrite (generateBtn_click_resumed_succeeds _ _ _ Hok). simpl.
      rewrite Hlog. simpl. now rewrite <- app_assoc.
Qed.

(** The serum is selected; the chat form is submitted, the cleanser is
    clicked while the request is in flight, and the reply arrives. *)
Lemma conversation_log_discipline_witness :
  conversationMessages
    (current (run Session.browser
                [Submit "hi"; CardClick 1; Settle 0 (Session.ok_reply "hello")]
                Session.one_selected))
  = conversationMessages (current Session.one_selected)
    ++ [mkMessage user "hi"; mkMessage assistant "hello"].
Proof.
  destruct (conversation_log_discipline Session.browser None [] Session.one_selected
              "hi" [CardClick 1] (Session.ok_reply "hello") "hello")
    as (_ & Hchat & _).
  - eexists. repeat split.
  - reflexivity.
  - apply Hchat; [reflexivity | vm_compute; discriminate].
Defined.

(** C5, as stated, fails when two exchanges overlap: with the serum
    selected, the chat form is submitted and, before its reply arrives,
    the routine button is clicked; the chat reply then arrives. The user
    turn of the routine stands between the user turn of the chat exchange
    and its assistant turn. *)
Lemma exchanges_interleave :
  conversationMessages
    (current (run Session.browser
                [Submit "hi"; GenerateClick; Settle 0 (Session.ok_reply "hello")]
                Session.one_selected))
  = conversationMessages (current Session.one_selected)
    ++ [mkMessage user "hi";
        routine_turn Session.browser (selectedProducts (current Session.one_selected));
        mkMessage assistant "hello"].
Proof. vm_compute; reflexivity. Qed.

(** C6. With an empty store a click on the routine button finishes in its
    synchronous part: one assistant bubble with the advisory is appended
    to the window, nothing else of the page changes, and no request is
    issued (the journal gains no [Fetch], the handler awaits nothing). *)
Theorem empty_selection_short_circuit (P : platform) (s : state) :
  selectedProducts s = [] ->
  generateBtn_click P s
  = Returned Done (with_chatWindow (chatWindow s ++ [mkBubble assistant ADVISORY]) s)
  /\ chatWindow (final (generateBtn_click P s))
     = chatWindow s ++ [mkBubble assistant ADVISORY]
  /\ journal (final (generateBtn_click P s)) = journal s
  /\ issued (generateBtn_click P) s = None.
Proof.
  intros H. unfold issued. rewrite generateBtn_click_empty by assumption.
  now repeat split.
Qed.

Lemma empty_selection_short_circuit_witness :
  chatWindow (final (generateBtn_click Session.browser (current Session.fresh)))
  = [mkBubble assistant ADVISORY]
  /\ issued (generateBtn_click Session.browser) (current Session.fresh) = None.
Proof.
  destruct (empty_selection_short_circuit Session.browser (current Session.fresh))
    as (_ & Hwindow & _ & Hnone).
  - vm_compute; reflexivity.
  - split; [exact Hwindow | exact Hnone].
Defined.

(** C10. The advisory of the short circuit goes to the window only: the
    log after it is the log before it, so the request of the next chat
    submission is the one that would have been sent without the click. *)
Theorem advisory_stays_out_of_log (P : platform) (s : state) (typed : string) :
  selectedProducts s = [] ->
  conversationMessages (final (generateBtn_click P s)) = conversationMessages s
  /\ issued (chat_submission P typed) (final (generateBtn_click P s))
     = issued (chat_submission P typed) s.
Proof.
  intros H. rewrite generateBtn_click_empty by assumption. simpl final.
  split; [reflexivity|]. unfold issued.
  destruct (String.eqb (trim P typed) EmptyString) eqn:E.
  - apply String.eqb_eq in E. now rewrite !chat_submission_blank.
  - apply String.eqb_neq in E. now rewrite !chat_submission_eq.
Qed.

Lemma advisory_stays_out_of_log_witness :
  conversationMessages (final (generateBtn_click Session.browser (current Session.fresh)))
  = [SYSTEM_TURN].
Proof.
  destruct (advisory_stays_out_of_log Session.browser (current Session.fresh) "hi")
    as (Hlog & _).
  - vm_compute; reflexivity.
  - exact Hlog.
Defined.

(** C7. On every page the script reaches, a chat submission with a
    non-blank text and a routine generation for a non-empty store suspend
    on one [POST] request to the worker whose body is the serialization of
    an object with the single field [messages], an array that holds the
    whole log at that moment: one object per turn, in order, each with
    the [role] of the turn under its name and the [content] of the turn
    as they are, the system turn with the system prompt first, every turn
    gathered so far after it, and the user turn just appended last. *)
Theorem request_carries_whole_log (P : platform) (stored : option string)
    (events : list event) (typed : string) :
  exists rest,
    conversationMessages (current (run P events (page_load P stored)))
    = mkMessage system SYSTEM_PROMPT :: rest
    /\ (trim P typed <> EmptyString ->
        exists req,
          issued (chat_submission P typed) (current (run P events (page_load P stored)))
          = Some req
          /\ journal (final (chat_submission P typed
                               (current (run P events (page_load P stored)))))
             = journal (current (run P events (page_load P stored))) ++ [Fetch req]
          /\ url req = WORKER_URL /\ method req = "POST"
          /\ content_type req = "application/json"
          /\ body req
             = JSON_stringify P
                 (VObj [ ("messages",
                          VArr (map (fun m : chat_message =>
                                     VObj [ ("role",
                                             VStr (match msg_role m with
                                                   | system => "system"
                                                   | user => "user"
                                                   | assistant => "assistant"
                                                   end));
                                            ("content", VStr (content m)) ])
                                  (mkMessage system SYSTEM_PROMPT :: rest
                                   ++ [mkMessage user (trim P typed)]))) ]))
    /\ (selectedProducts (current (run P events (page_load P stored))) <> [] ->
        exists req,
          issued (generateBtn_click P) (current (run P events (page_load P stored)))
          = Some req
          /\ journal (final (generateBtn_click P
                               (current (run P events (page_load P stored)))))
             = journal (current (run P events (page_load P stored))) ++ [Fetch req]
          /\ url req = WORKER_URL /\ method req = "POST"
          /\ content_type req = "application/json"
          /\ body req
             = JSON_stringify P
                 (VObj [ ("messages",
                          VArr (map (fun m : chat_message =>
                                     VObj [ ("role",
                                             VStr (match msg_role m with
                                                   | system => "system"
                                                   | user => "user"
                                                   | assistant => "assistant"
                                                   end));
                                            ("content", VStr (content m)) ])
                                  (mkMessage system SYSTEM_PROMPT :: rest
                                   ++ [mkMessage user
                                         (ROUTINE_INSTRUCTION
                                          +++ JSON_stringify_indent2 P
                                                (VArr (map routine_item
                                                         (Map_values
                                                            (selectedProducts
                                                               (current
                                                                  (run P events
                                                                     (page_load P stored))))))))]))) ])).
Proof.
  destruct (reachable_ok P stored events) as [[(_ & Hr & _) (rest & Hlog & _)] _].
  assert (Hwire : forall l,
            map value_of_message l
            = map (fun m : chat_message =>
                     VObj [ ("role",
                             VStr (match msg_role m with
                                   | system => "system"
                                   | user => "user"
                                   | assistant => "assistant"
                                   end));
                            ("content", VStr (content m)) ]) l).
  { intros l. apply map_ext. intros m. unfold value_of_message.
    now destruct (msg_role m). }
  exists rest. split; [assumption|]. unfold issued. split.
  - intros Htext. rewrite chat_submission_eq by assumption.
    eexists. split; [reflexivity|]. split; [reflexivity|].
    repeat (split; [reflexivity|]).
    unfold sendMessageToOpenAI_request. cbn [body]. now rewrite Hlog, Hwire.
  - intros Hne. rewrite generateBtn_click_eq by assumption.
    eexists. split; [reflexivity|]. split; [reflexivity|].
    repeat (split; [reflexivity|]).
    unfold sendMessageToOpenAI_request. cbn [body]. now rewrite Hlog, Hwire.
Qed.

(** With the serum selected and nothing said yet, submitting "hi" sends
    the system turn and the user turn, each under its role. *)
Lemma request_carries_whole_log_witness :
  exists req,
    issued (chat_submission Session.browser "hi") (current Session.one_selected) = Some req
    /\ body req
       = Reference.stringify
           (VObj [ ("messages",
                    VArr [ VObj [ ("role", VStr "system");
                                  ("content", VStr SYSTEM_PROMPT) ];
                           VObj [ ("role", VStr "user"); ("content", VStr "hi") ] ]) ]).
Proof.
  destruct (request_carries_whole_log Session.browser None
              [CategoryChange Session.catalog "skincare"; CardClick 0] "hi")
    as (rest & Hlog & Hchat & _).
  assert (rest = []) as -> by (vm_compute in Hlog; congruence).
  destruct Hchat as (req & Hissued & _ & _ & _ & _ & Hbody); [vm_compute; discriminate|].
  exists req. split; [exact Hissued | exact Hbody].
Defined.

(* ================================================================= *)
(** ** More on the selection *)

Lemma Map_delete_absent (k : value) (m : Map) :
  Map_has k m = false -> Map_delete k m = m.
Proof.
  induction m as [|[k' v'] rest IH]; simpl; [reflexivity|].
  intros H. apply orb_false_iff in H as [H1 H2]. now rewrite H1, IH.
Qed.

Lemma Map_has_delete_other (x k : value) (m : Map) :
  sameValueZero k x = false ->
  Map_has x (Map_delete k m) = Map_has x m.
Proof.
  intros Hkx. induction m as [|[k' v'] rest IH]; simpl; [reflexivity|].
  destruct (sameValueZero k' k) eqn:E; simpl.
  - apply sameValueZero_eq in E. subst k'. now rewrite Hkx.
  - now rewrite IH.
Qed.

Lemma Map_delete_set_absent (n : Z) (v : value) (m : Map) :
  Map_has (VNum n) m = false ->
  Map_delete (VNum n) (Map_set (VNum n) v m) = m.
Proof.
  induction m as [|[k' v'] rest IH]; simpl.
  - now rewrite Z.eqb_refl.
  - intros H. apply orb_false_iff in H as [H1 H2].
    rewrite H1. simpl. now rewrite H1, IH.
Qed.

Lemma toggled_other (productId other : Z) (product : product) (m : Map) :
  other <> productId ->
  Map_has (VNum other) (toggled productId product m) = Map_has (VNum other) m.
Proof.
  intros Hne. assert (E : sameValueZero (VNum productId) (VNum other) = false)
    by (simpl; apply Z.eqb_neq; congruence).
  unfold toggled. destruct (Map_has (VNum productId) m).
  - now apply Map_has_delete_other.
  - now apply Map_has_set_other.
Qed.

Lemma toggled_twice (productId : Z) (product : product) (m : Map) :
  Map_ok m = true ->
  toggled productId product (toggled productId product m)
  = if Map_has (VNum productId) m
    then Map_delete (VNum productId) m ++ [(VNum productId, value_of_product product)]
    else m.
Proof.
  intros Hok. unfold toggled at 1. rewrite toggled_has by assumption.
  unfold toggled. destruct (Map_has (VNum productId) m) eqn:E; simpl.
  - apply Map_set_absent. now apply Map_has_delete_same.
  - now apply Map_delete_set_absent.
Qed.

Section MoreSelection.

Variable P : platform.

(** What a toggle of a resolved identifier leaves in the globals, whether
    or not the rendering that ends it throws. *)
Lemma toggleSelect_globals (productId : Z) (cardElement : nat) (product : product)
    (s : state) :
  find (fun p => (id p =? productId)%Z) (displayed s) = Some product ->
  selectedProducts (final (toggleSelect P productId cardElement s))
  = toggled productId product (selectedProducts s)
  /\ lastDisplayedProducts (final (toggleSelect P productId cardElement s))
     = lastDisplayedProducts s.
Proof.
  intros Hfind. rewrite (toggleSelect_resolved P _ _ _ _ Hfind).
  set (I := fun st : state =>
              selectedProducts st = toggled productId product (selectedProducts s)
              /\ lastDisplayedProducts st = lastDisplayedProducts s).
  change (I (final (renderSelectedProducts P
                      (saved P (toggle_applied productId cardElement product s))))).
  apply stable_final.
  - apply renderSelectedProducts_stable. intros st Hst. unfold I in *. now simpl.
  - unfold I, saved. destruct (setItem_exception P _); now simpl.
Qed.

(** A toggle writes before it renders: when the write is taken, storage
    holds the toggled store whether or not the rendering throws. *)
Lemma toggleSelect_storage (productId : Z) (cardElement : nat) (product : product)
    (s : state) :
  find (fun p => (id p =? productId)%Z) (displayed s) = Some product ->
  setItem_exception P
    (JSON_stringify P
       (VArr (Map_values (toggled productId product (selectedProducts s))))) = None ->
  localStorage_selectedProducts (final (toggleSelect P productId cardElement s))
  = Some (JSON_stringify P
            (VArr (Map_values (toggled productId product (selectedProducts s))))).
Proof.
  intros Hfind Hset. rewrite (toggleSelect_resolved P _ _ _ _ Hfind).
  set (raw := JSON_stringify P
                (VArr (Map_values (toggled productId product (selectedProducts s))))).
  set (I := fun st : state => localStorage_selectedProducts st = Some raw).
  change (I (final (renderSelectedProducts P
                      (saved P (toggle_applied productId cardElement product s))))).
  apply stable_final.
  - unfold renderSelectedProducts. stable_auto; intros; unfold I in *; simpl; assumption.
  - unfold I, saved. simpl. fold raw in Hset |- *. now rewrite Hset.
Qed.

Lemma chip_remove_click_store (removeId : Z) (s : state) :
  selectedProducts (final (chip_remove_click P removeId s))
  = Map_delete (VNum removeId) (selectedProducts s).
Proof.
  set (I := fun st : state =>
              selectedProducts st = Map_delete (VNum removeId) (selectedProducts s)).
  change (I (final (chip_remove_click P removeId s))).
  unfold chip_remove_click, Map_delete_selected.
  unfold bind at 1, modify.
  apply stable_final; [|reflexivity].
  stable_auto; intros; unfold I in *; simpl; assumption.
Qed.

End MoreSelection.

(** X1. Saving is best effort: it never raises and never changes the store.
    When storage takes the write, the item is the serialization of the
    store's values in insertion order; when storage refuses it, the item
    stays what it was and the refusal is one warning in the console. *)
Theorem save_is_best_effort (P : platform) (s : state) :
  returns (saveSelectedProducts P s) = true
  /\ selectedProducts (final (saveSelectedProducts P s)) = selectedProducts s
  /\ (setItem_exception P (JSON_stringify P (VArr (Map_values (selectedProducts s))))
      = None ->
      localStorage_selectedProducts (final (saveSelectedProducts P s))
      = Some (JSON_stringify P (VArr (Map_values (selectedProducts s))))
      /\ journal (final (saveSelectedProducts P s))
         = journal s
           ++ [SetItem (JSON_stringify P (VArr (Map_values (selectedProducts s)))) true])
  /\ (forall e,
      setItem_exception P (JSON_stringify P (VArr (Map_values (selectedProducts s))))
      = Some e ->
      localStorage_selectedProducts (final (saveSelectedProducts P s))
      = localStorage_selectedProducts s
      /\ journal (final (saveSelectedProducts P s))
         = journal s
           ++ [SetItem (JSON_stringify P (VArr (Map_values (selectedProducts s)))) false;
               ConsoleWarn "Could not save selected products" e]).
Proof.
  rewrite saveSelectedProducts_eq. simpl. rewrite selectedProducts_saved.
  repeat split.
  - unfold saved. now rewrite H.
  - unfold saved. now rewrite H.
  - unfold saved. now rewrite H.
  - unfold saved, write_effects. now rewrite H.
Qed.

(** With a storage that refuses every write the item stays absent. *)
Lemma save_is_best_effort_witness :
  localStorage_selectedProducts
    (final (saveSelectedProducts Session.full_browser
              (with_localStorage None (current Session.one_selected))))
  = None.
Proof.
  destruct (save_is_best_effort Session.full_browser
              (with_localStorage None (current Session.one_selected)))
    as (_ & _ & _ & Hrefused).
  destruct (Hrefused Reference.QuotaExceededError) as [Hitem _].
  - vm_compute; reflexivity.
  - exact Hitem.
Defined.

(** X2. Two toggles of a resolvable identifier. If it was not selected the
    store is back to what it was, entry for entry. If it was selected the
    keys are the same but its entry has moved to the end and now holds the
    record of the displayed set. *)
Theorem toggle_twice (P : platform) (productId : Z) (c1 c2 : nat) (product : product)
    (s : state) :
  Map_ok (selectedProducts s) = true ->
  find (fun p => (id p =? productId)%Z) (displayed s) = Some product ->
  selectedProducts (toggles P productId [c1; c2] s)
  = if Map_has (VNum productId) (selectedProducts s)
    then Map_delete (VNum productId) (selectedProducts s)
         ++ [(VNum productId, value_of_product product)]
    else selectedProducts s.
Proof.
  intros Hok Hfind. simpl toggles.
  destruct (toggleSelect_globals P productId c1 product s Hfind) as [Hstore Hshown].
  assert (Hfind' : find (fun p => (id p =? productId)%Z)
                     (displayed (final (toggleSelect P productId c1 s))) = Some product)
    by (unfold displayed in *; now rewrite Hshown).
  destruct (toggleSelect_globals P productId c2 product _ Hfind') as [Hstore' _].
  rewrite Hstore', Hstore. now apply toggled_twice.
Qed.

(** The serum comes back from storage; clicked twice, it is still the only
    entry. *)
Lemma toggle_twice_witness :
  Map_keys (selectedProducts
              (toggles Session.browser 7 [0; 0]%nat (current Session.returning_browsing)))
  = [VNum 7].
Proof.
  rewrite (toggle_twice Session.browser 7 0 0 Session.serum
             (current Session.returning_browsing)).
  - vm_compute; reflexivity.
  - vm_compute; reflexivity.
  - vm_compute; reflexivity.
Defined.

(** X3. A toggle changes the membership of no other identifier, whether
    the toggled identifier resolves or not. *)
Theorem toggle_leaves_others (P : platform) (productId other : Z) (cardElement : nat)
    (s : state) :
  other <> productId ->
  Map_has (VNum other) (selectedProducts (final (toggleSelect P productId cardElement s)))
  = Map_has (VNum other) (selectedProducts s).
Proof.
  intros Hne. destruct (resolvable productId s) eqn:E.
  - destruct (find_resolvable _ _ E) as [product Hfind].
    destruct (toggleSelect_globals P productId cardElement product s Hfind) as [-> _].
    now apply toggled_other.
  - now rewrite toggleSelect_unresolved.
Qed.

Lemma toggle_leaves_others_witness :
  Map_has (VNum 7)
    (selectedProducts (final (toggleSelect Session.browser 9 1 (current Session.one_selected))))
  = Map_has (VNum 7) (selectedProducts (current Session.one_selected)).
Proof.
  apply (toggle_leaves_others Session.browser 9 7 1 (current Session.one_selected)).
  discriminate.
Defined.

(** X4. Removing a chip deletes its identifier from the store and nothing
    else: the identifier is no longer selected, every other identifier
    keeps its membership, and removing an identifier that is not selected
    leaves the store as it is. *)
Theorem chip_removal_store (P : platform) (removeId : Z) (s : state) :
  Map_ok (selectedProducts s) = true ->
  selectedProducts (final (chip_remove_click P removeId s))
  = Map_delete (VNum removeId) (selectedProducts s)
  /\ Map_has (VNum removeId) (selectedProducts (final (chip_remove_click P removeId s)))
     = false
  /\ (forall other, other <> removeId ->
        Map_has (VNum other) (selectedProducts (final (chip_remove_click P removeId s)))
        = Map_has (VNum other) (selectedProducts s))
  /\ (Map_has (VNum removeId) (selectedProducts s) = false ->
      selectedProducts (final (chip_remove_click P removeId s)) = selectedProducts s).
Proof.
  intros Hok. rewrite chip_remove_click_store. repeat split.
  - now apply Map_has_delete_same.
  - intros other Hne. apply Map_has_delete_other. simpl. apply Z.eqb_neq. congruence.
  - apply Map_delete_absent.
Qed.

Lemma chip_removal_store_witness :
  selectedProducts (final (chip_remove_click Session.browser 7 (current Session.one_selected)))
  = []
  /\ selectedProducts (final (chip_remove_click Session.browser 9 (current Session.one_selected)))
     = selectedProducts (current Session.one_selected).
Proof.
  split.
  - destruct (chip_removal_store Session.browser 7 (current Session.one_selected))
      as (Hstore & _); [vm_compute; reflexivity|].
    rewrite Hstore. vm_compute; reflexivity.
  - destruct (chip_removal_store Session.browser 9 (current Session.one_selected))
      as (_ & _ & _ & Habsent); [vm_compute; reflexivity|].
    apply Habsent. vm_compute; reflexivity.
Defined.

(** X5. After a toggle of a resolved identifier, and after the removal of a
    chip, storage holds the store: when the write is taken, the item is the
    serialization of the values of the store as the handler leaves it. The
    toggle writes before it renders, so this holds of it even when the
    rendering throws; the removal renders first, so it writes only when
    every remaining value makes a chip. *)
Theorem mutation_writes_store (P : platform) (s : state) (productId : Z)
    (cardElement : nat) (product : product) (removeId : Z) :
  readable (selectedProducts s) = true ->
  (find (fun p => (id p =? productId)%Z) (displayed s) = Some product ->
   setItem_exception P
     (JSON_stringify P
        (VArr (Map_values (toggled productId product (selectedProducts s))))) = None ->
   localStorage_selectedProducts (final (toggleSelect P productId cardElement s))
   = Some (JSON_stringify P
             (VArr (Map_values
                      (selectedProducts (final (toggleSelect P productId cardElement s)))))))
  /\ (renderable (selectedProducts s) = true ->
      setItem_exception P
        (JSON_stringify P
           (VArr (Map_values (Map_delete (VNum removeId) (selectedProducts s))))) = None ->
      localStorage_selectedProducts (final (chip_remove_click P removeId s))
      = Some (JSON_stringify P
                (VArr (Map_values
                         (selectedProducts (final (chip_remove_click P removeId s))))))).
Proof.
  intros Hr. split.
  - intros Hfind Hset.
    destruct (toggleSelect_globals P productId cardElement product s Hfind) as [-> _].
    now apply toggleSelect_storage.
  - intros Hp Hset. destruct (chip_remove_click_eq P removeId s Hr Hp) as [cards ->].
    simpl. rewrite selectedProducts_saved. simpl.
    unfold saved. simpl. now rewrite Hset.
Qed.

Lemma mutation_writes_store_witness :
  localStorage_selectedProducts
    (final (toggleSelect Session.browser 9 1 (current Session.one_selected)))
  = Some (Reference.stringify
            (VArr [value_of_product Session.serum; value_of_product Session.cleanser])).
Proof.
  destruct (mutation_writes_store Session.browser (current Session.one_selected) 9 1
              Session.cleanser 7) as [Htoggle _].
  - vm_compute; reflexivity.
  - rewrite Htoggle; vm_compute; reflexivity.
Defined.

(* ================================================================= *)
(** ** Displaying a category *)

Lemma string_of_Z_inj (a b : Z) : string_of_Z a = string_of_Z b -> a = b.
Proof.
  unfold string_of_Z. intros H.
  assert (Hnn : forall z, Z.to_int z <> Decimal.Pos Decimal.Nil
                          /\ Z.to_int z <> Decimal.Neg Decimal.Nil).
  { intros z. destruct z as [|p|p]; simpl; split; try discriminate;
      intros E; injection E as E; revert E; apply DecimalPos.Unsigned.to_uint_nonnil. }
  apply DecimalZ.to_int_inj.
  assert (E : Some (Z.to_int a) = Some (Z.to_int b)).
  { rewrite <- (NilZero.isi (Z.to_int a)) by apply Hnn.
    rewrite <- (NilZero.isi (Z.to_int b)) by apply Hnn.
    now rewrite H. }
  now injection E.
Qed.

Lemma map_card_id_set_selected_at (i : nat) (b : bool) (cards : list card) :
  map card_id (set_selected_at i b cards) = map card_id cards.
Proof.
  revert i. induction cards as [|c rest IH]; intros i; destruct i; simpl;
    try reflexivity. now rewrite IH.
Qed.

Lemma with_productsContainer_same (s : state) :
  with_productsContainer (productsContainer s) s = s.
Proof. now destruct s. Qed.

Lemma mark_text_absent (t : string) (cards : list card) :
  (forall c, In c cards -> string_of_Z (card_id c) <> t) ->
  map (mark_text t) cards = cards.
Proof.
  induction cards as [|c rest IH]; intros H; simpl; [reflexivity|].
  unfold mark_text at 1.
  destruct (String.eqb_spec (string_of_Z (card_id c)) t) as [E|E].
  - exfalso. apply (H c); [now left | assumption].
  - rewrite IH; [reflexivity|]. intros c' Hc'. apply H. now right.
Qed.

(** With distinct identifiers on the cards, marking the first card of a
    text marks every card of that text. *)
Lemma first_card_mark (t : string) (cards : list card) :
  NoDup (map card_id cards) ->
  match first_card t cards with
  | Some i => set_selected_at i true cards
  | None => cards
  end = map (mark_text t) cards.
Proof.
  induction cards as [|c rest IH]; intros Hnd; simpl; [reflexivity|].
  apply NoDup_cons_iff in Hnd as [Hnotin Hnd]. specialize (IH Hnd).
  unfold mark_text at 1.
  destruct (String.eqb_spec (string_of_Z (card_id c)) t) as [E|E].
  - simpl. rewrite mark_text_absent; [reflexivity|].
    intros c' Hc' E'. apply Hnotin. rewrite <- E in E'.
    apply string_of_Z_inj in E'. rewrite <- E'. now apply in_map.
  - destruct (first_card t rest) as [i|]; simpl; now rewrite <- IH.
Qed.

Lemma marked_map (keys : list value) (cards : list card) :
  NoDup (map card_id cards) ->
  marked keys cards
  = map (fun c => fold_left (fun c' k => mark_text (printed k) c') keys c) cards.
Proof.
  revert cards. induction keys as [|k rest IH]; intros cards Hnd; simpl.
  - now rewrite map_id.
  - rewrite first_card_mark by assumption.
    rewrite IH.
    + now rewrite map_map.
    + rewrite map_map. erewrite map_ext; [eassumption|].
      intros c. unfold mark_text. now destruct (String.eqb _ _).
Qed.

Lemma fold_mark_text (keys : list value) (n : Z) (b : bool) :
  fold_left (fun c' k => mark_text (printed k) c') keys (mkCard n b)
  = mkCard n (b || existsb (fun k => String.eqb (string_of_Z n) (printed k)) keys).
Proof.
  revert b. induction keys as [|k rest IH]; intros b; simpl.
  - now rewrite orb_false_r.
  - unfold mark_text at 2. simpl.
    destruct (String.eqb (string_of_Z n) (printed k)); rewrite IH; simpl.
    + now rewrite orb_true_r.
    + reflexivity.
Qed.

Lemma numeric_keys_has (n : Z) (m : Map) :
  numeric_keys m = true ->
  existsb (fun k => String.eqb (string_of_Z n) (printed k)) (Map_keys m)
  = Map_has (VNum n) m.
Proof.
  unfold numeric_keys, Map_keys.
  induction m as [|[k v] rest IH]; simpl; [reflexivity|].
  intros H. apply andb_true_iff in H as [Hk Hrest].
  rewrite IH by assumption. f_equal.
  destruct k; try discriminate. unfold printed. simpl.
  destruct (String.eqb_spec (string_of_Z n) (string_of_Z n0)) as [E|E].
  - apply string_of_Z_inj in E. subst. now rewrite Z.eqb_refl.
  - symmetry. apply Z.eqb_neq. congruence.
Qed.

Lemma numeric_keys_printable (m : Map) (k : value) :
  numeric_keys m = true -> In k (Map_keys m) -> printable k = true.
Proof.
  unfold numeric_keys. rewrite forallb_forall. intros H Hin.
  specialize (H k Hin). now destruct k.
Qed.

Section Display.

Variable P : platform.

(** When the selector of every key is accepted, [markSelectedCards] returns
    with the marks of the keys on the cards. *)
Lemma forEach_mark (entries : Map) (s : state) :
  (forall k, In k (Map_keys entries) -> printable k = true) ->
  (forall k, In k (Map_keys entries) -> selector_exception P (printed k) = None) ->
  forEach entries (fun entry =>
    data_id <- interpolate P (fst entry) ;;
    card <- querySelector_card P data_id ;;
    match card with
    | Some i => set_card_selected i true
    | None => ret tt
    end) s
  = Returned tt (with_productsContainer (marked (Map_keys entries) (productsContainer s)) s).
Proof.
  revert s. induction entries as [|[k v] rest IH]; intros s Hpr Hsel; simpl.
  - now rewrite with_productsContainer_same.
  - unfold bind at 1. unfold bind at 1.
    rewrite interpolate_printable by (apply Hpr; now left).
    unfold bind at 1, querySelector_card.
    rewrite Hsel by (now left). unfold bind at 1, get, ret.
    destruct (first_card (printed k) (productsContainer s)) as [i|];
      simpl;
      rewrite IH
        by (intros k' Hk'; (apply Hpr; now right) || (apply Hsel; now right));
      reflexivity.
Qed.

Lemma markSelectedCards_eq (s : state) :
  (forall k, In k (Map_keys (selectedProducts s)) -> printable k = true) ->
  (forall k, In k (Map_keys (selectedProducts s)) ->
             selector_exception P (printed k) = None) ->
  markSelectedCards P s
  = Returned tt
      (with_productsContainer
         (marked (Map_keys (selectedProducts s)) (productsContainer s)) s).
Proof.
  intros Hpr Hsel. unfold markSelectedCards, bind at 1, get.
  now apply forEach_mark.
Qed.

(** Marking cards changes their classes only, whether it returns or throws. *)
Lemma markSelectedCards_cards (I : state -> Prop) :
  (forall s i, I s ->
     I (with_productsContainer (set_selected_at i true (productsContainer s)) s)) ->
  stable I (markSelectedCards P).
Proof.
  intros HI. stable_auto. intros s Hs. now apply HI.
Qed.

End Display.

(** X6. Changing the category keeps the selection: the store, the stored
    item, the chips, the journal and the conversation are untouched
    (nothing is written or rendered), even if marking the cards throws.
    The displayed set becomes the products of the category in catalog
    order; when their interpolated texts are plain, the container holds
    one card per product in that order. *)
Theorem category_change_keeps_selection (P : platform) (products : list product)
    (selectedCategory : string) (s : state) :
  selectedProducts (final (categoryFilter_change P products selectedCategory s))
  = selectedProducts s
  /\ localStorage_selectedProducts
       (final (categoryFilter_change P products selectedCategory s))
     = localStorage_selectedProducts s
  /\ selectedProductsList (final (categoryFilter_change P products selectedCategory s))
     = selectedProductsList s
  /\ journal (final (categoryFilter_change P products selectedCategory s)) = journal s
  /\ conversationMessages (final (categoryFilter_change P products selectedCategory s))
     = conversationMessages s
  /\ lastDisplayedProducts (final (categoryFilter_change P products selectedCategory s))
     = Some (in_category selectedCategory products)
  /\ (forallb plain_product (in_category selectedCategory products) = true ->
      map card_id
        (productsContainer (final (categoryFilter_change P products selectedCategory s)))
      = map id (in_category selectedCategory products)).
Proof.
  enough (H :
    selectedProducts (final (categoryFilter_change P products selectedCategory s))
    = selectedProducts s
    /\ localStorage_selectedProducts
         (final (categoryFilter_change P products selectedCategory s))
       = localStorage_selectedProducts s
    /\ selectedProductsList (final (categoryFilter_change P products selectedCategory s))
       = selectedProductsList s
    /\ journal (final (categoryFilter_change P products selectedCategory s)) = journal s
    /\ conversationMessages (final (categoryFilter_change P products selectedCategory s))
       = conversationMessages s
    /\ lastDisplayedProducts (final (categoryFilter_change P products selectedCategory s))
       = Some (in_category selectedCategory products)
    /\ map card_id
         (productsContainer (final (categoryFilter_change P products selectedCategory s)))
       = map id (in_category selectedCategory products))
    by (destruct H as (H1 & H2 & H3 & H4 & H5 & H6 & H7); now repeat split).
  set (I := fun st : state =>
    selectedProducts st = selectedProducts s
    /\ localStorage_selectedProducts st = localStorage_selectedProducts s
    /\ selectedProductsList st = selectedProductsList s
    /\ journal st = journal s
    /\ conversationMessages st = conversationMessages s
    /\ lastDisplayedProducts st = Some (in_category selectedCategory products)
    /\ map card_id (productsContainer st) = map id (in_category selectedCategory products)).
  change (I (final (categoryFilter_change P products selectedCategory s))).
  unfold categoryFilter_change, displayProducts.
  unfold bind at 1, modify. unfold bind at 1.
  apply stable_final.
  - apply markSelectedCards_cards. intros st i Hst. unfold I in *. simpl.
    now rewrite map_card_id_set_selected_at.
  - unfold I, in_category. simpl. rewrite map_map. now repeat split.
Qed.

(** The skincare products of the catalog are plain: two cards, for the
    serum and the cleanser. *)
Lemma category_change_keeps_selection_witness :
  map card_id
    (productsContainer
       (final (categoryFilter_change Session.browser Session.catalog "skincare"
                 (current Session.fresh))))
  = [7%Z; 9%Z].
Proof.
  destruct (category_change_keeps_selection Session.browser Session.catalog "skincare"
              (current Session.fresh)) as (_ & _ & _ & _ & _ & _ & Hcards).
  rewrite Hcards; vm_compute; reflexivity.
Defined.

(** X7. Displaying a category reconciles the cards with the store: when
    the displayed products have plain texts and distinct identifiers, and
    the keys of the store are numbers whose selectors are accepted, the
    container holds one card per displayed product, in order, and a card
    carries the selected mark exactly when its identifier is in the
    store. *)
Theorem display_reconciles (P : platform) (products : list product)
    (selectedCategory : string) (s : state) :
  forallb plain_product (in_category selectedCategory products) = true ->
  NoDup (map id (in_category selectedCategory products)) ->
  numeric_keys (selectedProducts s) = true ->
  (forall k, In k (Map_keys (selectedProducts s)) ->
             selector_exception P (printed k) = None) ->
  returns (categoryFilter_change P products selectedCategory s) = true
  /\ productsContainer (final (categoryFilter_change P products selectedCategory s))
     = map (fun p => mkCard (id p) (Map_has (VNum (id p)) (selectedProducts s)))
         (in_category selectedCategory products).
Proof.
  intros _ Hnd Hnum Hsel.
  assert (Heq : categoryFilter_change P products selectedCategory s
                = Returned tt
                    (with_productsContainer
                       (marked (Map_keys (selectedProducts s))
                          (map (fun p => mkCard (id p) false)
                             (in_category selectedCategory products)))
                       (with_lastDisplayedProducts
                          (Some (in_category selectedCategory products)) s))).
  { unfold categoryFilter_change, displayProducts.
    unfold bind at 1, modify. unfold bind at 1.
    now rewrite markSelectedCards_eq
      by (exact Hsel || (intros k Hk; eapply numeric_keys_printable; eassumption)). }
  rewrite Heq. split; [reflexivity|].
  cbn [final productsContainer with_productsContainer].
  rewrite marked_map by (now rewrite map_map).
  rewrite map_map. apply map_ext. intros p.
  rewrite fold_mark_text. cbn [orb]. now rewrite numeric_keys_has.
Qed.

(** The serum is selected and the skincare category is displayed again:
    its card is marked, the cleanser's is not. *)
Lemma display_reconciles_witness :
  productsContainer
    (final (categoryFilter_change Session.browser Session.catalog "skincare"
              (current Session.one_selected)))
  = [mkCard 7 true; mkCard 9 false].
Proof.
  destruct (display_reconciles Session.browser Session.catalog "skincare"
              (current Session.one_selected)) as [_ Hcards].
  - vm_compute; reflexivity.
  - vm_compute. repeat constructor; simpl; intuition discriminate.
  - vm_compute; reflexivity.
  - intros k Hk. vm_compute in Hk. destruct Hk as [<-|[]]. vm_compute; reflexivity.
  - rewrite Hcards. vm_compute; reflexivity.
Defined.

(* ================================================================= *)
(** ** The document mirrors the globals *)

Ltac sound_solve :=
  intros; unfold state_sound, state_ok, store_wf, mirrors, displayed in *;
  repeat match goal with
         | H : _ /\ _ |- _ => destruct H
         end;
  repeat split; simpl; try assumption;
  try (apply log_shape_push; [assumption | discriminate]);
  try (rewrite map_card_id_set_selected_at; assumption).

Lemma resolvable_card (s : state) (i : nat) (c : card) :
  map card_id (productsContainer s) = map id (displayed s) ->
  nth_error (productsContainer s) i = Some c ->
  resolvable (card_id c) s = true.
Proof.
  intros Hids Hnth. unfold resolvable. apply existsb_exists.
  assert (Hin : In (card_id c) (map id (displayed s))).
  { rewrite <- Hids. apply in_map. eapply nth_error_In; eassumption. }
  apply in_map_iff in Hin as (p & Hp & Hin). exists p. split; [assumption|].
  now apply Z.eqb_eq.
Qed.

Section Sound.

Variable P : platform.

Lemma toggleSelect_sound (productId : Z) (cardElement : nat) :
  stable state_sound (toggleSelect P productId cardElement).
Proof.
  intros s [Hok [Hren [Hchips Hcards]]].
  pose proof (toggleSelect_ok P productId cardElement s Hok) as Hok'.
  destruct (resolvable productId s) eqn:E.
  - destruct (find_resolvable _ _ E) as [product Hfind].
    rewrite (toggleSelect_resolved P _ _ _ _ Hfind) in *.
    destruct Hok as [(_ & Hr & _) _].
    rewrite renderSelectedProducts_eq in *
      by (rewrite selectedProducts_saved;
          (now apply toggled_readable) || (now apply toggled_renderable)).
    split; [|exact Logic.I]. split; [apply Hok'|]. split; [|split].
    + simpl. rewrite selectedProducts_saved. now apply toggled_renderable.
    + reflexivity.
    + unfold displayed. simpl. unfold saved.
      destruct (setItem_exception P _); simpl;
        rewrite map_card_id_set_selected_at; exact Hcards.
  - rewrite toggleSelect_unresolved in * by assumption.
    repeat split; try assumption; apply Hok'.
Qed.

Lemma card_click_sound (i : nat) : stable state_sound (card_click P i).
Proof. unfold card_click. stable_auto. apply toggleSelect_sound. Qed.

Lemma chip_remove_click_cards (removeId : Z) (s : state) :
  readable (selectedProducts s) = true ->
  renderable (selectedProducts s) = true ->
  exists cards,
    map card_id cards = map card_id (productsContainer s)
    /\ chip_remove_click P removeId s =
       Returned tt
         (saved P (rendered (with_productsContainer cards
            (with_selectedProducts (Map_delete (VNum removeId) (selectedProducts s)) s)))).
Proof.
  intros Hr Hp.
  unfold chip_remove_click, Map_delete_selected, bind at 1, modify.
  unfold bind at 1, get. simpl productsContainer.
  destruct (first_card (string_of_Z removeId) (productsContainer s)) as [i|].
  - exists (set_selected_at i false (productsContainer s)).
    split; [apply map_card_id_set_selected_at|].
    unfold bind at 1, set_card_selected, modify. simpl. unfold bind.
    rewrite renderSelectedProducts_eq
      by (simpl; (now apply readable_delete) || (now apply renderable_delete)).
    apply saveSelectedProducts_eq.
  - exists (productsContainer s). split; [reflexivity|].
    unfold bind at 1, ret. unfold bind.
    rewrite renderSelectedProducts_eq
      by (simpl; (now apply readable_delete) || (now apply renderable_delete)).
    rewrite saveSelectedProducts_eq. destruct s; reflexivity.
Qed.

Lemma chip_remove_click_sound (removeId : Z) :
  stable state_sound (chip_remove_click P removeId).
Proof.
  intros s [Hok [Hren [Hchips Hcards]]].
  pose proof (chip_remove_click_ok P removeId s Hok) as Hok'.
  destruct Hok as [(_ & Hr & _) _].
  destruct (chip_remove_click_cards removeId s Hr Hren) as (cards & Hids & Heq).
  rewrite Heq in *. split; [|exact Logic.I]. split; [apply Hok'|]. split; [|split].
  - rewrite selectedProducts_saved. simpl. now apply renderable_delete.
  - unfold saved. destruct (setItem_exception P _); reflexivity.
  - unfold displayed, saved. destruct (setItem_exception P _); simpl;
      rewrite Hids; exact Hcards.
Qed.

Lemma categoryFilter_change_sound (products : list product) (selectedCategory : string) :
  stable state_sound (categoryFilter_change P products selectedCategory).
Proof.
  intros s [Hok [Hren [Hchips Hcards]]].
  pose proof (categoryFilter_change_ok P products selectedCategory s Hok) as Hok'.
  set (I := fun st : state =>
    selectedProducts st = selectedProducts s
    /\ selectedProductsList st = selectedProductsList s
    /\ map card_id (productsContainer st) = map id (displayed st)).
  assert (HI : I (final (categoryFilter_change P products selectedCategory s))).
  { unfold categoryFilter_change, displayProducts.
    unfold bind at 1, modify. unfold bind at 1.
    apply stable_final.
    - apply markSelectedCards_cards. intros st i Hst. unfold I, displayed in *. simpl.
      now rewrite map_card_id_set_selected_at.
    - unfold I, displayed. simpl. rewrite map_map. now repeat split. }
  destruct (categoryFilter_change P products selectedCategory s) as [[] s'|e s'];
    simpl in *; destruct HI as (Hs & Hl & Hc).
  - split; [|exact Logic.I]. split; [apply Hok'|].
    split; [now rewrite Hs|]. split; [|assumption]. now rewrite Hs, Hl.
  - split; [assumption|].
    split; [now rewrite Hs|]. split; [|assumption]. now rewrite Hs, Hl.
Qed.

Lemma chatForm_submit_resumed_sound (outcome : settlement) :
  stable state_sound (chatForm_submit_resumed outcome).
Proof. unfold chatForm_submit_resumed. stable_auto; sound_solve. Qed.

Lemma generateBtn_click_resumed_sound (outcome : settlement) :
  stable state_sound (generateBtn_click_resumed outcome).
Proof. unfold generateBtn_click_resumed. stable_auto; sound_solve. Qed.

Lemma chat_submission_sound (typed : string) :
  hoare state_sound (chat_submission P typed) (resumes_stably state_sound).
Proof.
  unfold chat_submission, chatForm_submit. stable_auto;
    try (simpl; intros; apply chatForm_submit_resumed_sound); sound_solve.
Qed.

Lemma generateBtn_click_sound :
  hoare state_sound (generateBtn_click P) (resumes_stably state_sound).
Proof.
  unfold generateBtn_click. stable_auto;
    try (simpl; intros; apply generateBtn_click_resumed_sound); sound_solve.
Qed.

(** Loading an array ends in a rendering of the store it leaves, and marks
    cards without adding or removing any. *)
Lemma load_array_view (s : state) (raw : string) (items : list value) :
  localStorage_selectedProducts s = Some raw ->
  String.eqb raw EmptyString = false ->
  JSON_parse P raw = inr (VArr items) ->
  renderable (loaded items []) = true ->
  exists s', loadSelectedFromStorage P s = Returned tt s'
             /\ selectedProducts s' = loaded items []
             /\ selectedProductsList s' = view_of (loaded items [])
             /\ map card_id (productsContainer s') = map card_id (productsContainer s).
Proof.
  intros Hs Hne Hp Hpr. unfold loadSelectedFromStorage, try_catch, bind at 1, get.
  rewrite Hs. unfold falsy. rewrite Hne.
  unfold bind at 1, JSON_parse_or_throw. rewrite Hp. simpl.
  unfold bind at 1, modify. unfold bind at 1.
  change (forEach items _ ?st) with (forEach items (load_callback P) st).
  rewrite forEach_load. simpl selectedProducts.
  set (s1 := with_selectedProducts (loaded items []) _).
  assert (Hr1 : readable (selectedProducts s1) = true)
    by (now apply readable_loaded).
  set (I := fun st : state =>
              selectedProducts st = loaded items []
              /\ map card_id (productsContainer st) = map card_id (productsContainer s)).
  assert (Hwarn : forall e st, I st ->
            exists s', (console_warn LOAD_WARNING e ;; renderSelectedProducts P) st
                       = Returned tt s'
                       /\ selectedProducts s' = loaded items []
                       /\ selectedProductsList s' = view_of (loaded items [])
                       /\ map card_id (productsContainer s')
                          = map card_id (productsContainer s)).
  { intros e st [Hst Hcards]. unfold bind, console_warn, emit, modify.
    rewrite renderSelectedProducts_eq
      by (simpl; rewrite Hst; (now apply readable_loaded) || assumption).
    eexists. split; [reflexivity|]. simpl. now rewrite Hst. }
  assert (Hm : stable (fun st => I st /\ selectedProductsList st = view_of (loaded items []))
                 (markSelectedCards P)).
  { apply markSelectedCards_cards. intros st i [[H1 H2] H3]. unfold I. simpl.
    now rewrite map_card_id_set_selected_at. }
  destruct (forallb _ items).
  - unfold bind at 1. rewrite renderSelectedProducts_eq by assumption.
    specialize (Hm (rendered s1)).
    destruct (markSelectedCards P (rendered s1)) as [[] s2|e s2].
    + exists s2. split; [reflexivity|].
      destruct Hm as [[[H1 H2] H3] _]; [unfold I; now simpl|]. now repeat split.
    + apply Hwarn. apply Hm. unfold I. now simpl.
  - apply Hwarn. unfold I. now simpl.
Qed.

(** When the load at the start returns, the chips are those of the store,
    every stored value makes a chip, and the container has no card yet. *)
Lemma load_chips (stored : option string) :
  started P stored = true ->
  selectedProductsList (current (page_load P stored))
  = view_of (selectedProducts (current (page_load P stored)))
  /\ renderable (selectedProducts (current (page_load P stored))) = true
  /\ productsContainer (current (page_load P stored)) = [].
Proof.
  unfold started, page_load. simpl current. destruct stored as [raw|].
  - destruct (String.eqb raw EmptyString) eqn:Hne.
    + rewrite load_missing by (unfold falsy; simpl; try rewrite Hne; reflexivity).
      now repeat split.
    + destruct (JSON_parse P raw) as [e|v] eqn:Hp.
      * rewrite (load_unparseable P (script_start (Some raw)) raw e
                   eq_refl Hne Hp eq_refl eq_refl).
        now repeat split.
      * assert (Hcase : (exists items, v = VArr items) \/ (forall items, v <> VArr items))
          by (destruct v; try (right; discriminate); left; eauto).
        destruct Hcase as [[items ->] | Hv].
        -- destruct (renderable (loaded items [])) eqn:Hpr.
           ++ destruct (load_array_view (script_start (Some raw)) raw items
                          eq_refl Hne Hp Hpr) as (s' & -> & H1 & H2 & H3).
              intros _. simpl. rewrite H1, H2. repeat split; [assumption|].
              simpl in H3. now destruct (productsContainer s').
           ++ rewrite (load_array_raises P (script_start (Some raw)) raw items
                         eq_refl Hne Hp Hpr).
              discriminate.
        -- rewrite (load_not_array P (script_start (Some raw)) raw v eq_refl Hne Hp Hv).
           now repeat split.
  - rewrite load_missing by reflexivity. now repeat split.
Qed.

End Sound.

Section ReachableSound.

Variable P : platform.

Lemma loadSelectedFromStorage_displayed (shown : option (list product)) :
  stable (fun st => lastDisplayedProducts st = shown) (loadSelectedFromStorage P).
Proof.
  unfold loadSelectedFromStorage. stable_auto; intros; simpl; assumption.
Qed.

Lemma page_load_sound (stored : option string) :
  started P stored = true -> page_sound (page_load P stored).
Proof.
  intros Hstart. split; [|constructor]. split.
  - apply page_load_ok.
  - destruct (load_chips P stored Hstart) as (Hchips & Hren & Hcards).
    split; [assumption|]. split; [assumption|].
    rewrite Hcards. unfold displayed, page_load. simpl current.
    rewrite (stable_final _ _ _ (loadSelectedFromStorage_displayed None)
               (eq_refl : lastDisplayedProducts (script_start stored) = None)).
    reflexivity.
Qed.

Lemma dispatch_sound (e : event) (p : page) : page_sound p -> page_sound (dispatch P e p).
Proof.
  intros [Hs Hk]. destruct e; simpl.
  - split; [|assumption]. simpl.
    apply stable_final; [apply categoryFilter_change_sound | assumption].
  - split; [|assumption]. simpl.
    apply stable_final; [apply card_click_sound | assumption].
  - split; [|assumption]. simpl.
    apply stable_final; [apply chip_remove_click_sound | assumption].
  - destruct (sendBtn_disabled (current p)); [now split|].
    unfold run_handler. pose proof (chat_submission_sound P typed _ Hs) as Hh.
    destruct (chat_submission P typed (current p)) as [[|req resume] s'|e s'].
    + split; [apply Hh | assumption].
    + destruct Hh as [Hs' Hr]. split; [assumption|]. simpl.
      apply Forall_app. split; [assumption | now constructor].
    + now split.
  - destruct (generateBtn_disabled (current p)); [now split|].
    unfold run_handler. pose proof (generateBtn_click_sound P _ Hs) as Hh.
    destruct (generateBtn_click P (current p)) as [[|req resume] s'|e s'].
    + split; [apply Hh | assumption].
    + destruct Hh as [Hs' Hr]. split; [assumption|]. simpl.
      apply Forall_app. split; [assumption | now constructor].
    + now split.
  - destruct (nth_error (awaiting p) i) as [resume|] eqn:E; [|now split].
    split; simpl.
    + apply stable_final; [|assumption].
      apply nth_error_In in E. rewrite Forall_forall in Hk. now apply Hk.
    + now apply Forall_remove_nth.
Qed.

(** Every page reached by a script that ran to its end is sound. *)
Lemma reachable_sound (stored : option string) (events : list event) :
  started P stored = true ->
  page_sound (run P events (page_load P stored)).
Proof.
  intros Hstart.
  generalize (page_load_sound stored Hstart). generalize (page_load P stored).
  induction events as [|e rest IH]; intros p Hp; simpl; [assumption|].
  apply IH. now apply dispatch_sound.
Qed.

(** An invariant of every handler and of every suspended body is an
    invariant of the event loop. *)
Lemma dispatch_invariant (I : state -> Prop) :
  (forall products selectedCategory,
      stable I (categoryFilter_change P products selectedCategory)) ->
  (forall i, stable I (card_click P i)) ->
  (forall removeId, stable I (chip_remove_click P removeId)) ->
  (forall typed, hoare I (chat_submission P typed) (resumes_stably I)) ->
  hoare I (generateBtn_click P) (resumes_stably I) ->
  forall (e : event) (p : page),
    I (current p)
    /\ Forall (fun resume : settlement -> M unit =>
                 forall outcome, stable I (resume outcome)) (awaiting p) ->
    I (current (dispatch P e p))
    /\ Forall (fun resume : settlement -> M unit =>
                 forall outcome, stable I (resume outcome)) (awaiting (dispatch P e p)).
Proof.
  intros Hcat Hcard Hchip Hchat Hgen e p [Hs Hk]. destruct e; simpl.
  - split; [|assumption]. apply stable_final; [apply Hcat | assumption].
  - split; [|assumption]. apply stable_final; [apply Hcard | assumption].
  - split; [|assumption]. apply stable_final; [apply Hchip | assumption].
  - destruct (sendBtn_disabled (current p)); [now split|].
    unfold run_handler. pose proof (Hchat typed _ Hs) as Hh.
    destruct (chat_submission P typed (current p)) as [[|req resume] s'|e s'].
    + split; [apply Hh | assumption].
    + destruct Hh as [Hs' Hr]. split; [assumption|]. simpl.
      apply Forall_app. split; [assumption | now constructor].
    + now split.
  - destruct (generateBtn_disabled (current p)); [now split|].
    unfold run_handler. pose proof (Hgen _ Hs) as Hh.
    destruct (generateBtn_click P (current p)) as [[|req resume] s'|e s'].
    + split; [apply Hh | assumption].
    + destruct Hh as [Hs' Hr]. split; [assumption|]. simpl.
      apply Forall_app. split; [assumption | now constructor].
    + now split.
  - destruct (nth_error (awaiting p) i) as [resume|] eqn:E; [|now split].
    split; simpl.
    + apply stable_final; [|assumption].
      apply nth_error_In in E. rewrite Forall_forall in Hk. now apply Hk.
    + now apply Forall_remove_nth.
Qed.

Ltac cards_solve :=
  intros; unfold displayed in *; simpl;
  try rewrite map_card_id_set_selected_at; assumption.

(** On every page of the event loop, also after a load that raised, the
    cards of the container are those of the displayed set. *)
Lemma reachable_cards (stored : option string) (events : list event) :
  map card_id (productsContainer (current (run P events (page_load P stored))))
  = map id (displayed (current (run P events (page_load P stored)))).
Proof.
  set (I := fun st : state =>
              map card_id (productsContainer st) = map id (displayed st)).
  assert (Hresumed : (forall outcome, stable I (chatForm_submit_resumed outcome))
                     /\ (forall outcome, stable I (generateBtn_click_resumed outcome))).
  { split; intros outcome;
      unfold chatForm_submit_resumed, generateBtn_click_resumed;
      stable_auto; unfold I; cards_solve. }
  destruct Hresumed as [Hchat' Hgen'].
  assert (Hstep : forall e p,
            I (current p)
            /\ Forall (fun resume : settlement -> M unit =>
                         forall outcome, stable I (resume outcome)) (awaiting p) ->
            I (current (dispatch P e p))
            /\ Forall (fun resume : settlement -> M unit =>
                         forall outcome, stable I (resume outcome))
                 (awaiting (dispatch P e p))).
  { apply dispatch_invariant.
    - intros products selectedCategory st _.
      assert (HI : I (final (categoryFilter_change P products selectedCategory st))).
      { unfold categoryFilter_change, displayProducts.
        unfold bind at 1, modify. unfold bind at 1.
        apply stable_final.
        - apply markSelectedCards_cards. unfold I. cards_solve.
        - unfold I, displayed. simpl. now rewrite map_map. }
      destruct (categoryFilter_change P products selectedCategory st); simpl in HI;
        [split; [assumption | exact Logic.I] | assumption].
    - intros i. unfold card_click, toggleSelect. stable_auto; unfold I; cards_solve.
    - intros removeId. unfold chip_remove_click. stable_auto; unfold I; cards_solve.
    - intros typed. unfold chat_submission, chatForm_submit.
      stable_auto; try (simpl; intros; apply Hchat'); unfold I; cards_solve.
    - unfold generateBtn_click.
      stable_auto; try (simpl; intros; apply Hgen'); unfold I; cards_solve. }
  assert (Hrun : forall p,
            I (current p)
            /\ Forall (fun resume : settlement -> M unit =>
                         forall outcome, stable I (resume outcome)) (awaiting p) ->
            I (current (run P events p))).
  { induction events as [|e rest IH]; intros p Hp; simpl; [apply Hp|].
    apply IH. now apply Hstep. }
  apply Hrun. split; [|constructor].
  unfold page_load. simpl current.
  set (J := fun st : state =>
              productsContainer st = [] /\ lastDisplayedProducts st = None).
  assert (HJ : J (final (loadSelectedFromStorage P (script_start stored)))).
  { apply stable_final; [|now split].
    unfold loadSelectedFromStorage.
    stable_auto; unfold J; intros; simpl;
      repeat match goal with
             | H : _ /\ _ |- _ => destruct H
             end;
      try (now split);
      match goal with
      | H : productsContainer _ = [] |- _ => rewrite H
      end;
      match goal with
      | |- set_selected_at ?i _ [] = [] /\ _ => destruct i; now split
      end. }
  destruct HJ as [H1 H2]. unfold I, displayed. now rewrite H1, H2.
Qed.

Lemma reload_restores (s : state) :
  store_wf (selectedProducts s) ->
  localStorage_selectedProducts s
  = Some (JSON_stringify P (VArr (Map_values (selectedProducts s)))) ->
  JSON_stringify P (VArr (Map_values (selectedProducts s))) <> EmptyString ->
  JSON_parse P (JSON_stringify P (VArr (Map_values (selectedProducts s))))
  = inr (VArr (Map_values (selectedProducts s))) ->
  selectedProducts (current (page_load P (localStorage_selectedProducts s)))
  = selectedProducts s.
Proof.
  intros (Hok & Hr & Hk) Hitem Hne Hparse. rewrite Hitem.
  apply String.eqb_neq in Hne.
  destruct (load_at_start P (Some (JSON_stringify P (VArr (Map_values (selectedProducts s))))))
    as [Hstore _].
  unfold classify in Hstore. rewrite Hne, Hparse in Hstore.
  unfold page_load. simpl current. rewrite Hstore.
  now apply (loaded_values (selectedProducts s) []).
Qed.

End ReachableSound.

(** X8. On every page the script reaches, the store is a well-formed map:
    no key occurs twice, no value is [null] or [undefined], and every
    entry sits under the [id] of its value. *)
Theorem reachable_store_well_formed (P : platform) (stored : option string)
    (events : list event) :
  Map_ok (selectedProducts (current (run P events (page_load P stored)))) = true
  /\ readable (selectedProducts (current (run P events (page_load P stored)))) = true
  /\ keyed_by_id (selectedProducts (current (run P events (page_load P stored)))).
Proof.
  destruct (reachable_ok P stored events) as [[Hwf _] _]. exact Hwf.
Qed.



(** X10. On every page reached by a script that ran to its end through
    events that display plain products only, a click on a card of the
    container flips the membership of that card's identifier: the card
    always resolves in the displayed set, so the click never falls into the
    silent return of [toggleSelect]. *)
Theorem card_click_flips (P : platform) (stored : option string) (events : list event)
    (i : nat) (c : card) :
  started P stored = true ->
  forallb plain_event events = true ->
  nth_error (productsContainer (current (run P events (page_load P stored)))) i = Some c ->
  Map_has (VNum (card_id c))
    (selectedProducts
       (current (dispatch P (CardClick i) (run P events (page_load P stored)))))
  = negb (Map_has (VNum (card_id c))
            (selectedProducts (current (run P events (page_load P stored))))).
Proof.
  intros _ _ Hnth.
  destruct (reachable_ok P stored events) as [[(Hok & _) _] _].
  pose proof (resolvable_card _ _ _ (reachable_cards P stored events) Hnth) as Hres.
  simpl. unfold card_click, bind, get. rewrite Hnth.
  destruct (toggleSelect_store P _ i _ Hres) as (product & -> & _).
  now apply toggled_has.
Qed.

Lemma card_click_flips_witness :
  Map_has (VNum 9)
    (selectedProducts (current (dispatch Session.browser (CardClick 1) Session.one_selected)))
  = negb (Map_has (VNum 9) (selectedProducts (current Session.one_selected))).
Proof.
  apply (card_click_flips Session.browser None
           [CategoryChange Session.catalog "skincare"; CardClick 0] 1 (mkCard 9 false));
    vm_compute; reflexivity.
Defined.

(** X11. A change of the selection survives a reload. On every page the
    script reaches, after a click on a card of the container, or on the
    remove button of a chip when the script ran to its end (the chips are
    rendered only then, and the removal writes only after a rendering that
    returns), when storage takes the write and [JSON.parse] reads back the
    array that [JSON.stringify] wrote, starting the script again on what
    storage holds loads exactly the store the handler left. *)
Theorem mutation_survives_reload (P : platform) (stored : option string)
    (events : list event) (e : event) :
  (exists i c,
      e = CardClick i
      /\ nth_error (productsContainer (current (run P events (page_load P stored)))) i
         = Some c)
  \/ (exists removeId, e = ChipRemoveClick removeId /\ started P stored = true) ->
  setItem_exception P
    (JSON_stringify P
       (VArr (Map_values
                (selectedProducts
                   (current (dispatch P e (run P events (page_load P stored)))))))) = None ->
  JSON_stringify P
    (VArr (Map_values
             (selectedProducts
                (current (dispatch P e (run P events (page_load P stored)))))))
  <> EmptyString ->
  JSON_parse P
    (JSON_stringify P
       (VArr (Map_values
                (selectedProducts
                   (current (dispatch P e (run P events (page_load P stored))))))))
  = inr (VArr (Map_values
                 (selectedProducts
                    (current (dispatch P e (run P events (page_load P stored))))))) ->
  selectedProducts
    (current (page_load P
       (localStorage_selectedProducts
          (current (dispatch P e (run P events (page_load P stored)))))))
  = selectedProducts (current (dispatch P e (run P events (page_load P stored)))).
Proof.
  intros He Hset Hne Hparse.
  pose proof (dispatch_ok P e _ (reachable_ok P stored events)) as [[Hwf _] _].
  apply reload_restores; try assumption.
  destruct He as [(i & c & -> & Hnth) | (removeId & -> & Hstart)].
  - pose proof (resolvable_card _ _ _ (reachable_cards P stored events) Hnth) as Hres.
    destruct (find_resolvable _ _ Hres) as [product Hfind].
    revert Hset. simpl. unfold card_click, bind, get. rewrite Hnth.
    destruct (toggleSelect_globals P (card_id c) i product _ Hfind) as [-> _].
    intros Hset. now apply toggleSelect_storage.
  - destruct (reachable_sound P stored events Hstart)
      as [[[(Hok & Hr & _) _] [Hren _]] _].
    revert Hset. simpl.
    destruct (chip_remove_click_eq P removeId _ Hr Hren) as [cards ->].
    simpl. rewrite selectedProducts_saved. simpl. intros Hset.
    unfold saved. simpl. now rewrite Hset.
Qed.

Lemma mutation_survives_reload_witness :
  selectedProducts
    (current (page_load Session.browser
       (localStorage_selectedProducts
          (current (dispatch Session.browser (CardClick 1) Session.one_selected)))))
  = selectedProducts (current (dispatch Session.browser (CardClick 1) Session.one_selected)).
Proof.
  apply (mutation_survives_reload Session.browser None
           [CategoryChange Session.catalog "skincare"; CardClick 0] (CardClick 1)).
  - left. exists 1%nat, (mkCard 9 false). split; [reflexivity | vm_compute; reflexivity].
  - vm_compute; reflexivity.
  - vm_compute; discriminate.
  - vm_compute; reflexivity.
Defined.

(* ================================================================= *)
(** ** More on the conversation *)

Lemma stable_emit_effect (I : state -> Prop) (e : effect) :
  (forall s, I s -> I (with_journal (journal s ++ [e]) s)) -> stable I (emit e).
Proof. intros H. apply stable_modify. exact H. Qed.

(** As [stable_auto], for invariants that read the journal. *)
Ltac stable_step_journal :=
  lazymatch goal with
  | |- hoare _ (emit _) _ => apply stable_emit_effect
  | |- _ => stable_step
  end.

Ltac stable_auto_journal := repeat stable_step_journal.

Lemma set_last_assistant_last (t x : string) (w : list bubble) :
  set_last_assistant t (w ++ [mkBubble assistant x]) = Some (w ++ [mkBubble assistant t]).
Proof.
  induction w as [|b rest IH]; simpl; [reflexivity|]. now rewrite IH.
Qed.

Lemma fails_or_succeeds (outcome : settlement) :
  (exists err, fails outcome err) \/ (exists aiText, succeeds outcome aiText).
Proof.
  destruct outcome as [e|res].
  - left. exists e. constructor.
  - destruct (ok res) eqn:Hok.
    + destruct (json res) as [e|t] eqn:Hjson.
      * left. exists e. now apply fails_json.
      * right. exists t, res. now repeat split.
    + destruct (text res) as [e|t] eqn:Htext.
      * left. exists e. now apply fails_text.
      * left. eexists. apply (fails_status res t); assumption.
Qed.

Lemma filter_length_app {A} (f : A -> bool) (l1 l2 : list A) :
  List.length (filter f (l1 ++ l2))
  = List.length (filter f l1) + List.length (filter f l2).
Proof. now rewrite filter_app, length_app. Qed.

(** Loading writes nothing but the store, the chips and the console. *)
Lemma loadSelectedFromStorage_frame (P : platform) (s : state) :
  localStorage_selectedProducts (final (loadSelectedFromStorage P s))
  = localStorage_selectedProducts s
  /\ lastDisplayedProducts (final (loadSelectedFromStorage P s)) = lastDisplayedProducts s
  /\ conversation_part (final (loadSelectedFromStorage P s)) = conversation_part s
  /\ requests (final (loadSelectedFromStorage P s)) = requests s.
Proof.
  set (I := fun st : state =>
    localStorage_selectedProducts st = localStorage_selectedProducts s
    /\ lastDisplayedProducts st = lastDisplayedProducts s
    /\ conversation_part st = conversation_part s
    /\ requests st = requests s).
  change (I (final (loadSelectedFromStorage P s))).
  apply stable_final; [|now repeat split].
  unfold loadSelectedFromStorage. stable_auto_journal;
    intros st (H1 & H2 & H3 & H4); unfold I, requests in *; repeat split;
      simpl; try assumption;
      rewrite filter_length_app; simpl; lia.
Qed.

(** X12. Loading touches the selection side only and writes nothing: on
    any page it leaves the stored item, the displayed set, the log, the
    chat window and the number of requests as they were. With nothing
    stored (no item, or the empty string) it does not clear the store
    either: the store is the one of before. *)
Theorem load_reads_only (P : platform) (s : state) :
  localStorage_selectedProducts (final (loadSelectedFromStorage P s))
  = localStorage_selectedProducts s
  /\ lastDisplayedProducts (final (loadSelectedFromStorage P s)) = lastDisplayedProducts s
  /\ conversation_part (final (loadSelectedFromStorage P s)) = conversation_part s
  /\ requests (final (loadSelectedFromStorage P s)) = requests s
  /\ (falsy (localStorage_selectedProducts s) = true ->
      selectedProducts (final (loadSelectedFromStorage P s)) = selectedProducts s).
Proof.
  destruct (loadSelectedFromStorage_frame P s) as (H1 & H2 & H3 & H4).
  repeat split; try assumption.
  intros Hf.
  set (J := fun st : state => selectedProducts st = selectedProducts s).
  change (J (final (loadSelectedFromStorage P s))).
  unfold loadSelectedFromStorage, try_catch, bind at 1, get. rewrite Hf.
  change (J (final (try_catch (renderSelectedProducts P)
                      (fun err => console_warn "Could not load selected products" err ;;
                                  renderSelectedProducts P) s))).
  apply stable_final; [|reflexivity].
  stable_auto; intros; unfold J in *; simpl; assumption.
Qed.

Lemma load_reads_only_witness :
  selectedProducts
    (final (loadSelectedFromStorage Session.browser
              (with_localStorage None (current Session.one_selected))))
  = selectedProducts (current Session.one_selected).
Proof.
  destruct (load_reads_only Session.browser
              (with_localStorage None (current Session.one_selected)))
    as (_ & _ & _ & _ & Hkeep).
  apply Hkeep. reflexivity.
Defined.

(** X13. A submission whose text is blank after trimming is dropped: on
    any page, whatever the state of the send button, it leaves the log,
    the chat window, the journal (no request) and the suspended handlers as
    they were. *)
Theorem blank_submission_dropped (P : platform) (typed : string) (p : page) :
  trim P typed = EmptyString ->
  conversationMessages (current (dispatch P (Submit typed) p))
  = conversationMessages (current p)
  /\ chatWindow (current (dispatch P (Submit typed) p)) = chatWindow (current p)
  /\ journal (current (dispatch P (Submit typed) p)) = journal (current p)
  /\ sendBtn_disabled (current (dispatch P (Submit typed) p))
     = sendBtn_disabled (current p)
  /\ selection_part (current (dispatch P (Submit typed) p)) = selection_part (current p)
  /\ awaiting (dispatch P (Submit typed) p) = awaiting p.
Proof.
  intros H. simpl. destruct (sendBtn_disabled (current p)) eqn:E; [now repeat split|].
  unfold run_handler. rewrite chat_submission_blank by assumption.
  simpl. now repeat split.
Qed.

Lemma blank_submission_dropped_witness :
  conversationMessages (current (dispatch Session.browser (Submit "   ") Session.fresh))
  = [SYSTEM_TURN]
  /\ journal (current (dispatch Session.browser (Submit "   ") Session.fresh))
     = journal (current Session.fresh).
Proof.
  destruct (blank_submission_dropped Session.browser "   " Session.fresh)
    as (Hlog & _ & Hjournal & _).
  - vm_compute; reflexivity.
  - split; [exact Hlog | exact Hjournal].
Defined.

(** X14. A chat submission that succeeds without interruption: the
    thinking bubble is not followed by a new bubble but replaced in place
    by the reply, so the window gains exactly the user bubble and the
    reply, and the last bubble and the last turn of the log carry the same
    text; the input field is emptied and the send button enabled again. *)
Theorem successful_chat_transcript (P : platform) (s : state) (typed : string)
    (outcome : settlement) (aiText : string) :
  trim P typed <> EmptyString ->
  succeeds outcome aiText ->
  chatWindow (exchange (chat_submission P typed) outcome s)
  = chatWindow s ++ [mkBubble user (trim P typed); mkBubble assistant aiText]
  /\ conversationMessages (exchange (chat_submission P typed) outcome s)
     = conversationMessages s
       ++ [mkMessage user (trim P typed); mkMessage assistant aiText]
  /\ userInput (exchange (chat_submission P typed) outcome s) = EmptyString
  /\ sendBtn_disabled (exchange (chat_submission P typed) outcome s) = false
  /\ selection_part (exchange (chat_submission P typed) outcome s) = selection_part s.
Proof.
  intros Htext Hok. rewrite exchange_chat by assumption.
  rewrite (chatForm_submit_resumed_succeeds _ _ _ Hok). simpl.
  unfold shown.
  replace (chatWindow s ++ [mkBubble user (trim P typed); mkBubble assistant THINKING])
    with ((chatWindow s ++ [mkBubble user (trim P typed)]) ++ [mkBubble assistant THINKING])
    by (now rewrite <- app_assoc).
  rewrite set_last_assistant_last. rewrite <- !app_assoc. now repeat split.
Qed.

Lemma successful_chat_transcript_witness :
  chatWindow (exchange (chat_submission Session.browser "hi") (Session.ok_reply "hello")
                (current Session.fresh))
  = [mkBubble user "hi"; mkBubble assistant "hello"].
Proof.
  destruct (successful_chat_transcript Session.browser (current Session.fresh) "hi"
              (Session.ok_reply "hello") "hello") as (Hwindow & _).
  - vm_compute; discriminate.
  - eexists. repeat split.
  - exact Hwindow.
Defined.

(** X15. A routine generation whose remote call fails, uninterrupted: the
    log gains the instruction turn only; the window gains the short user
    bubble with the number of selected products, the thinking bubble and
    an error bubble made of the failure's message; the routine button is
    enabled again with its label restored; the selection is untouched. *)
Theorem failed_generation (P : platform) (s : state) (outcome : settlement) (err : error) :
  readable (selectedProducts s) = true ->
  selectedProducts s <> [] ->
  fails outcome err ->
  conversationMessages (exchange (generateBtn_click P) outcome s)
  = conversationMessages s ++ [routine_turn P (selectedProducts s)]
  /\ chatWindow (exchange (generateBtn_click P) outcome s)
     = chatWindow s
       ++ [mkBubble user
             ("Generate routine for " +++ string_of_nat (Map_size (selectedProducts s))
              +++ " selected product(s).");
           mkBubble assistant THINKING;
           mkBubble assistant ("Error generating routine: " +++ message err)]
  /\ generateBtn_disabled (exchange (generateBtn_click P) outcome s) = false
  /\ generateBtn_label (exchange (generateBtn_click P) outcome s) = GENERATE_LABEL
  /\ selection_part (exchange (generateBtn_click P) outcome s) = selection_part s.
Proof.
  intros Hr Hne Hfail. rewrite exchange_generate by assumption.
  rewrite (generateBtn_click_resumed_fails _ _ _ Hfail). simpl.
  unfold Map_size, Map_values. rewrite !length_map, <- app_assoc. now repeat split.
Qed.

Lemma failed_generation_witness :
  chatWindow (exchange (generateBtn_click Session.browser) Session.server_error
                (current Session.one_selected))
  = [mkBubble user "Generate routine for 1 selected product(s).";
     mkBubble assistant THINKING;
     mkBubble assistant "Error generating routine: Worker error: 500 upstream timeout"].
Proof.
  destruct (failed_generation Session.browser (current Session.one_selected)
              Session.server_error (Error "Worker error: 500 upstream timeout"))
    as (_ & Hwindow & _).
  - vm_compute; reflexivity.
  - vm_compute; discriminate.
  - apply (fails_status (mkResponse false 500 (inr "upstream timeout")
                           (inl Reference.SyntaxError)) "upstream timeout");
      reflexivity.
  - rewrite Hwindow. vm_compute; reflexivity.
Defined.

(** X16. A routine generation that succeeds, uninterrupted: the window
    gains the short user bubble and the reply (in place of the thinking
    bubble), the log gains the instruction turn and the reply, the routine
    button is enabled again with its label restored, and the selection is
    untouched. *)
Theorem successful_generation (P : platform) (s : state) (outcome : settlement)
    (aiText : string) :
  readable (selectedProducts s) = true ->
  selectedProducts s <> [] ->
  succeeds outcome aiText ->
  chatWindow (exchange (generateBtn_click P) outcome s)
  = chatWindow s
    ++ [mkBubble user
          ("Generate routine for " +++ string_of_nat (Map_size (selectedProducts s))
           +++ " selected product(s).");
        mkBubble assistant aiText]
  /\ conversationMessages (exchange (generateBtn_click P) outcome s)
     = conversationMessages s
       ++ [routine_turn P (selectedProducts s); mkMessage assistant aiText]
  /\ generateBtn_disabled (exchange (generateBtn_click P) outcome s) = false
  /\ generateBtn_label (exchange (generateBtn_click P) outcome s) = GENERATE_LABEL
  /\ selection_part (exchange (generateBtn_click P) outcome s) = selection_part s.
Proof.
  intros Hr Hne Hok. rewrite exchange_generate by assumption.
  rewrite (generateBtn_click_resumed_succeeds _ _ _ Hok). simpl.
  unfold shown.
  match goal with
  | |- context [set_last_assistant aiText (chatWindow s ++ [?u; ?t])] =>
      replace (chatWindow s ++ [u; t]) with ((chatWindow s ++ [u]) ++ [t])
        by (now rewrite <- app_assoc)
  end.
  rewrite set_last_assistant_last.
  unfold Map_size, Map_values. rewrite !length_map, <- !app_assoc. now repeat split.
Qed.

Lemma successful_generation_witness :
  chatWindow (exchange (generateBtn_click Session.browser) (Session.ok_reply "AM: serum")
                (current Session.one_selected))
  = [mkBubble user "Generate routine for 1 selected product(s).";
     mkBubble assistant "AM: serum"].
Proof.
  destruct (successful_generation Session.browser (current Session.one_selected)
              (Session.ok_reply "AM: serum") "AM: serum") as (Hwindow & _).
  - vm_compute; reflexivity.
  - vm_compute; discriminate.
  - eexists. repeat split.
  - rewrite Hwindow. vm_compute; reflexivity.
Defined.

(** X17. Whatever the request settles to, the resumed handlers return
    (no exception escapes the [catch]) and release their button in the
    [finally]: the chat handler enables the send button, the routine
    handler enables the routine button and restores its label; neither
    touches the selection. *)
Theorem resumed_handlers_release (outcome : settlement) (s : state) :
  (returns (chatForm_submit_resumed outcome s) = true
   /\ sendBtn_disabled (final (chatForm_submit_resumed outcome s)) = false
   /\ selection_part (final (chatForm_submit_resumed outcome s)) = selection_part s)
  /\ (returns (generateBtn_click_resumed outcome s) = true
      /\ generateBtn_disabled (final (generateBtn_click_resumed outcome s)) = false
      /\ generateBtn_label (final (generateBtn_click_resumed outcome s)) = GENERATE_LABEL
      /\ selection_part (final (generateBtn_click_resumed outcome s)) = selection_part s).
Proof.
  destruct (fails_or_succeeds outcome) as [[err H] | [aiText H]].
  - rewrite (chatForm_submit_resumed_fails _ _ _ H),
      (generateBtn_click_resumed_fails _ _ _ H). now repeat split.
  - rewrite (chatForm_submit_resumed_succeeds _ _ _ H),
      (generateBtn_click_resumed_succeeds _ _ _ H). now repeat split.
Qed.

(* ================================================================= *)
(** ** The suspended handlers and the log over a whole session *)

Lemma length_remove_nth {A} (i : nat) (l : list A) (x : A) :
  nth_error l i = Some x -> S (List.length (remove_nth i l)) = List.length l.
Proof.
  revert i. induction l as [|y rest IH]; intros i H; destruct i; simpl in *;
    try discriminate; [reflexivity|]. now rewrite (IH i H).
Qed.

Section WholeSession.

Variable P : platform.

Lemma chat_submission_resume (typed : string) (s : state) :
  match chat_submission P typed s with
  | Returned (Await _ resume) _ => resume = chatForm_submit_resumed
  | _ => True
  end.
Proof.
  destruct (String.eqb_spec (trim P typed) EmptyString) as [E|E].
  - now rewrite chat_submission_blank.
  - now rewrite chat_submission_eq.
Qed.

Lemma generateBtn_click_resume :
  hoare (fun _ => True) (generateBtn_click P)
    (fun a => match a with
              | Done => True
              | Await _ resume => resume = generateBtn_click_resumed
              end).
Proof.
  unfold generateBtn_click. stable_auto; try (intros; exact Logic.I); reflexivity.
Qed.

Lemma dispatch_known (e : event) (p : page) :
  Forall known_resume (awaiting p) -> Forall known_resume (awaiting (dispatch P e p)).
Proof.
  intros Hk. destruct e; simpl; try assumption.
  - destruct (sendBtn_disabled (current p)); [assumption|].
    unfold run_handler. pose proof (chat_submission_resume typed (current p)) as H.
    destruct (chat_submission P typed (current p)) as [[|req resume] s'|e s'];
      simpl; try assumption.
    apply Forall_app. split; [assumption|]. constructor; [now left | constructor].
  - destruct (generateBtn_disabled (current p)); [assumption|].
    unfold run_handler. pose proof (generateBtn_click_resume (current p) Logic.I) as H.
    destruct (generateBtn_click P (current p)) as [[|req resume] s'|e s'];
      simpl; try assumption.
    apply Forall_app. split; [assumption|]. constructor; [right; apply H | constructor].
  - destruct (nth_error (awaiting p) i); simpl; [|assumption].
    now apply Forall_remove_nth.
Qed.

(** Only the bodies of the two pipelines are ever suspended. *)
Lemma reachable_known (stored : option string) (events : list event) :
  Forall known_resume (awaiting (run P events (page_load P stored))).
Proof.
  assert (H : Forall known_resume (awaiting (page_load P stored))) by constructor.
  revert H. generalize (page_load P stored).
  induction events as [|e rest IH]; intros p Hp; simpl; [assumption|].
  apply IH. now apply dispatch_known.
Qed.

Ltac grows_close more Hm Hns :=
  unfold grows_from; simpl;
  first [ exists more; split; assumption
        | eexists; split;
          [ rewrite Hm, <- app_assoc; reflexivity
          | apply Forall_app; split;
            [assumption | constructor; [discriminate | constructor]] ] ].

Ltac grows_solve :=
  intros;
  match goal with
  | H : grows_from _ ?s |- grows_from _ _ =>
      let more := fresh "more" in
      let Hm := fresh "Hm" in
      let Hns := fresh "Hns" in
      pose proof H as (more & Hm & Hns); solve [grows_close more Hm Hns]
  end.

Lemma handlers_grow (log : list chat_message) :
  (forall products selectedCategory,
      stable (grows_from log) (categoryFilter_change P products selectedCategory))
  /\ (forall i, stable (grows_from log) (card_click P i))
  /\ (forall removeId, stable (grows_from log) (chip_remove_click P removeId))
  /\ (forall typed, stable (grows_from log) (chat_submission P typed))
  /\ stable (grows_from log) (generateBtn_click P)
  /\ (forall outcome, stable (grows_from log) (chatForm_submit_resumed outcome))
  /\ (forall outcome, stable (grows_from log) (generateBtn_click_resumed outcome)).
Proof.
  repeat split; intros;
    unfold categoryFilter_change, displayProducts, card_click, toggleSelect,
      chip_remove_click, chat_submission, chatForm_submit, generateBtn_click,
      chatForm_submit_resumed, generateBtn_click_resumed;
    stable_auto; try grows_solve.
Qed.

Lemma dispatch_grows (e : event) (p : page) :
  Forall known_resume (awaiting p) ->
  grows_from (conversationMessages (current p)) (current (dispatch P e p)).
Proof.
  intros Hk.
  assert (H0 : grows_from (conversationMessages (current p)) (current p))
    by (exists []; split; [now rewrite app_nil_r | constructor]).
  destruct (handlers_grow (conversationMessages (current p)))
    as (Hcat & Hcard & Hchip & Hchat & Hgen & Hchat' & Hgen').
  destruct e; simpl.
  - now apply stable_final.
  - now apply stable_final.
  - now apply stable_final.
  - destruct (sendBtn_disabled (current p)); [assumption|].
    unfold run_handler. specialize (Hchat typed _ H0).
    destruct (chat_submission P typed (current p)) as [[|req resume] s'|e s'];
      simpl; tauto.
  - destruct (generateBtn_disabled (current p)); [assumption|].
    unfold run_handler. specialize (Hgen _ H0).
    destruct (generateBtn_click P (current p)) as [[|req resume] s'|e s'];
      simpl; tauto.
  - destruct (nth_error (awaiting p) i) as [resume|] eqn:E; [|assumption].
    simpl. apply nth_error_In in E. rewrite Forall_forall in Hk.
    destruct (Hk _ E) as [-> | ->]; now apply stable_final.
Qed.

Lemma run_grows (events : list event) (p : page) :
  Forall known_resume (awaiting p) ->
  grows_from (conversationMessages (current p)) (current (run P events p)).
Proof.
  revert p. induction events as [|e rest IH]; intros p Hk; simpl.
  - exists []. split; [now rewrite app_nil_r | constructor].
  - destruct (dispatch_grows e p Hk) as (m1 & H1 & Hn1).
    destruct (IH (dispatch P e p) (dispatch_known e p Hk)) as (m2 & H2 & Hn2).
    exists (m1 ++ m2). split.
    + now rewrite H2, H1, app_assoc.
    + apply Forall_app. now split.
Qed.

Lemma pipelines_selection (part : Map * option string * option (list product)
                                  * list card * selected_view) :
  (forall typed, stable (fun st => selection_part st = part) (chat_submission P typed))
  /\ stable (fun st => selection_part st = part) (generateBtn_click P)
  /\ (forall outcome,
        stable (fun st => selection_part st = part) (chatForm_submit_resumed outcome))
  /\ (forall outcome,
        stable (fun st => selection_part st = part) (generateBtn_click_resumed outcome)).
Proof.
  repeat split; intros;
    unfold chat_submission, chatForm_submit, generateBtn_click,
      chatForm_submit_resumed, generateBtn_click_resumed;
    stable_auto; intros; unfold selection_part in *; simpl; assumption.
Qed.

End WholeSession.

(** X18. The log only grows. From any page the script reaches, whatever
    events follow, the log afterwards is the log of that page with user
    and assistant turns appended: no turn is ever edited, removed or
    reordered, and no second system turn is added. *)
Theorem log_append_only (P : platform) (stored : option string)
    (before after : list event) :
  exists more,
    conversationMessages (current (run P (before ++ after) (page_load P stored)))
    = conversationMessages (current (run P before (page_load P stored))) ++ more
    /\ Forall not_system more.
Proof.
  rewrite run_app. apply run_grows. apply reachable_known.
Qed.

(** X19. The conversation side never touches the selection: on every page
    the script reaches, a submission of the chat form, a click on the
    routine button and the settling of a request leave the store, the
    stored item, the displayed set, the cards and the chips as they were. *)
Theorem pipelines_leave_selection (P : platform) (stored : option string)
    (events : list event) (e : event) :
  selection_event e = false ->
  selection_part (current (dispatch P e (run P events (page_load P stored))))
  = selection_part (current (run P events (page_load P stored))).
Proof.
  intros He. set (p := run P events (page_load P stored)).
  destruct (pipelines_selection P (selection_part (current p)))
    as (Hchat & Hgen & Hchat' & Hgen').
  destruct e; try discriminate; simpl.
  - destruct (sendBtn_disabled (current p)); [reflexivity|].
    unfold run_handler. specialize (Hchat typed _ eq_refl).
    destruct (chat_submission P typed (current p)) as [[|req resume] s'|err s'];
      simpl; tauto.
  - destruct (generateBtn_disabled (current p)); [reflexivity|].
    unfold run_handler. specialize (Hgen _ eq_refl).
    destruct (generateBtn_click P (current p)) as [[|req resume] s'|err s'];
      simpl; tauto.
  - destruct (nth_error (awaiting p) i) as [resume|] eqn:E; [|reflexivity].
    simpl. apply nth_error_In in E.
    pose proof (reachable_known P stored events) as Hk.
    rewrite Forall_forall in Hk.
    destruct (Hk _ E) as [-> | ->];
      apply (stable_final (fun st => selection_part st = selection_part (current p)));
      auto.
Qed.

Lemma pipelines_leave_selection_witness :
  selection_part (current (dispatch Session.browser GenerateClick Session.one_selected))
  = selection_part (current Session.one_selected).
Proof.
  apply (pipelines_leave_selection Session.browser None
           [CategoryChange Session.catalog "skincare"; CardClick 0] GenerateClick).
  reflexivity.
Defined.

(* ================================================================= *)
(** ** Requests and turns *)

Ltac counts_solve :=
  intros;
  repeat match goal with
         | H : _ /\ _ |- _ => destruct H
         end;
  unfold requests in *; simpl;
  try rewrite filter_app; simpl; try rewrite app_nil_r;
  split; assumption.

Lemma selection_handlers_counts (P : platform) (n : nat) (log : list chat_message) :
  (forall products selectedCategory,
      stable (fun st => requests st = n /\ conversationMessages st = log)
        (categoryFilter_change P products selectedCategory))
  /\ (forall i,
        stable (fun st => requests st = n /\ conversationMessages st = log)
          (card_click P i))
  /\ (forall removeId,
        stable (fun st => requests st = n /\ conversationMessages st = log)
          (chip_remove_click P removeId)).
Proof.
  repeat split; intros;
    unfold categoryFilter_change, displayProducts, card_click, toggleSelect,
      chip_remove_click;
    stable_auto_journal; try counts_solve.
Qed.

Lemma run_sync_accounted (h : M unit) (p : page) :
  (forall n log,
      stable (fun st => requests st = n /\ conversationMessages st = log) h) ->
  accounted p -> accounted (run_sync h p).
Proof.
  intros Hh [Hr Ht].
  pose proof (stable_final _ h (current p)
                (Hh (requests (current p)) (conversationMessages (current p)))
                (conj eq_refl eq_refl)) as [Hn Hl].
  unfold accounted, turns, run_sync in *; simpl. rewrite Hn, Hl. now split.
Qed.

Lemma dispatch_accounted (P : platform) (e : event) (p : page) :
  page_ok p -> Forall known_resume (awaiting p) ->
  accounted p -> accounted (dispatch P e p).
Proof.
  intros [[[_ [Hread _]] _] _] Hk Hacc.
  destruct e; unfold dispatch.
  - apply run_sync_accounted; [|assumption].
    intros n log. destruct (selection_handlers_counts P n log) as (H & _ & _). apply H.
  - apply run_sync_accounted; [|assumption].
    intros n log. destruct (selection_handlers_counts P n log) as (_ & H & _). apply H.
  - apply run_sync_accounted; [|assumption].
    intros n log. destruct (selection_handlers_counts P n log) as (_ & _ & H). apply H.
  - destruct (sendBtn_disabled (current p)); [assumption|].
    unfold run_handler.
    destruct (String.eqb_spec (trim P typed) EmptyString) as [Hb|Hb].
    + rewrite (chat_submission_blank P typed (current p) Hb). exact Hacc.
    + rewrite (chat_submission_eq P typed (current p) Hb).
      destruct Hacc as [Hr Ht].
      unfold accounted, requests, turns, submitted in *; simpl.
      rewrite !filter_length_app, length_app; simpl. lia.
  - destruct (generateBtn_disabled (current p)); [assumption|].
    unfold run_handler.
    destruct (selectedProducts (current p)) as [|kv rest] eqn:Hsel.
    + rewrite (generateBtn_click_empty P (current p) Hsel). exact Hacc.
    + rewrite (generateBtn_click_eq P (current p)).
      * destruct Hacc as [Hr Ht].
        unfold accounted, requests, turns, generating in *; simpl.
        rewrite !filter_length_app, length_app; simpl. lia.
      * now rewrite Hsel.
      * now rewrite Hsel.
  - destruct (nth_error (awaiting p) i) as [resume|] eqn:E; [|assumption].
    pose proof (length_remove_nth _ _ _ E) as Hlen.
    pose proof (nth_error_In _ _ E) as Hin.
    rewrite Forall_forall in Hk.
    destruct Hacc as [Hr Ht].
    destruct (Hk _ Hin) as [-> | ->];
      destruct (fails_or_succeeds outcome) as [[err Hf] | [aiText Hs]].
    + rewrite (chatForm_submit_resumed_fails outcome err _ Hf).
      unfold accounted, requests, turns, reported in *; simpl.
      rewrite filter_length_app; simpl. lia.
    + rewrite (chatForm_submit_resumed_succeeds outcome aiText _ Hs).
      unfold accounted, requests, turns, replied in *; simpl.
      rewrite !filter_length_app; simpl. lia.
    + rewrite (generateBtn_click_resumed_fails outcome err _ Hf).
      unfold accounted, requests, turns, reported in *; simpl.
      rewrite filter_length_app; simpl. lia.
    + rewrite (generateBtn_click_resumed_succeeds outcome aiText _ Hs).
      unfold accounted, requests, turns, replied in *; simpl.
      rewrite !filter_length_app; simpl. lia.
Qed.

Lemma run_accounted (P : platform) (events : list event) (p : page) :
  page_ok p -> Forall known_resume (awaiting p) ->
  accounted p -> accounted (run P events p).
Proof.
  revert p. induction events as [|e rest IH]; intros p Hok Hk Hacc; simpl.
  - exact Hacc.
  - apply IH.
    + now apply dispatch_ok.
    + now apply dispatch_known.
    + now apply dispatch_accounted.
Qed.

(** X20. Requests, questions and answers stay in step. On every page the
    script reaches, the requests sent to the worker are as many as the
    user turns of the log, and the assistant turns together with the
    requests still in flight never outnumber the user turns: no turn is
    logged without a request, and no reply without its question. *)
Theorem requests_match_turns (P : platform) (stored : option string)
    (events : list event) :
  accounted (run P events (page_load P stored)).
Proof.
  apply run_accounted.
  - apply page_load_ok.
  - constructor.
  - destruct (loadSelectedFromStorage_frame P (script_start stored))
      as (_ & _ & Hc & Hr).
    assert (Hl : conversationMessages
                   (final (loadSelectedFromStorage P (script_start stored)))
                 = [mkMessage system SYSTEM_PROMPT])
      by (apply (f_equal (fun t => fst (fst (fst (fst (fst t)))))) in Hc; exact Hc).
    unfold accounted, turns, page_load. simpl current. rewrite Hr, Hl.
    simpl. split; [reflexivity | lia].
Qed.

(* ================================================================= *)
(** ** The hover tooltip *)

Lemma find_by_card_id (c : card) (cards : list card) (products : list product) (i : nat) :
  map card_id cards = map id products ->
  nth_error cards i = Some c ->
  exists p, find (fun p => id p =? card_id c)%Z products = Some p
            /\ id p = card_id c.
Proof.
  intros Hmap Hnth.
  assert (Hin : In (card_id c) (map id products)).
  { rewrite <- Hmap. apply in_map. eapply nth_error_In; eassumption. }
  apply in_map_iff in Hin as (q & Hq & Hinq).
  destruct (find (fun p => id p =? card_id c)%Z products) as [p|] eqn:E.
  - exists p. split; [reflexivity|].
    apply find_some in E as [_ E]. now apply Z.eqb_eq in E.
  - exfalso. pose proof (find_none _ _ E q Hinq) as Hn. simpl in Hn.
    rewrite Hq, Z.eqb_refl in Hn. discriminate.
Qed.

Section TooltipFacts.

Variable N : numbers.

Lemma fading_step (s : state) (e : hover) (t : tooltip) :
  is_MouseEnter e = false -> fading t ->
  fading (hover_step N s t e)
  /\ (e = TimerFires -> style_display (hover_step N s t e) = "none")
  /\ (style_display t = "none" -> style_display (hover_step N s t e) = "none").
Proof.
  intros He (Ho & Hf & Hd). destruct e; try discriminate; simpl.
  - unfold card_mouseleave, hideTooltip, fading. simpl.
    repeat split; auto; try discriminate. right. lia.
  - unfold animation_frame. rewrite Hf.
    repeat split; auto; discriminate.
  - unfold timer_fires. destruct (timeouts t) as [|n] eqn:Et.
    + destruct Hd as [Hd | Hd]; [|lia].
      repeat split; auto.
    + unfold fading. simpl. rewrite Ho. simpl. repeat split; auto.
Qed.

Lemma fading_run (s : state) (events : list hover) (t : tooltip) :
  Forall (fun e => is_MouseEnter e = false) events ->
  fading t ->
  fading (hover_run N s events t)
  /\ (In TimerFires events \/ style_display t = "none" ->
      style_display (hover_run N s events t) = "none").
Proof.
  intros Hev. revert t. induction Hev as [|e rest He Hrest IH]; intros t Ht.
  - simpl. split; [assumption|]. intros [[]|H]; assumption.
  - simpl. destruct (fading_step s e t He Ht) as (Hfad & Htimer & Hkeep).
    destruct (IH _ Hfad) as (Hfin & Hnone).
    split; [assumption|]. intros [[Heq | Hin] | Hd].
    + apply Hnone. right. apply Htimer. now symmetry.
    + apply Hnone. now left.
    + apply Hnone. right. now apply Hkeep.
Qed.

Lemma callbacks_idle (s : state) (events : list hover) (t : tooltip) :
  Forall (fun e => is_mouse e = false) events ->
  animation_frames t = 0 -> timeouts t = 0 ->
  hover_run N s events t = t.
Proof.
  intros Hev Hf Ht. induction Hev as [|e rest He Hrest IH]; [reflexivity|].
  simpl. destruct e; try discriminate; simpl.
  - unfold animation_frame. rewrite Hf. exact IH.
  - unfold timer_fires. rewrite Ht. exact IH.
Qed.

Lemma num_lt_true (x y : Q) : num_lt x y = true -> (x < y)%Q.
Proof.
  unfold num_lt. intros H. apply negb_true_iff in H.
  apply Qnot_le_lt. intros Hle. apply Qle_bool_iff in Hle. congruence.
Qed.

Lemma num_lt_false (x y : Q) : num_lt x y = false -> (y <= x)%Q.
Proof.
  unfold num_lt. intros H. apply negb_false_iff in H. now apply Qle_bool_iff.
Qed.

(** [Math.round] moves a number by half a unit at most, keeps the order
    and leaves the integers where they are. *)
Lemma Math_round_near (x : Q) :
  (x - (1 # 2) < inject_Z (Math_round x))%Q /\ (inject_Z (Math_round x) <= x + (1 # 2))%Q.
Proof.
  unfold Math_round. split.
  - pose proof (Qlt_floor (x + (1 # 2))) as H.
    rewrite inject_Z_plus in H. change (inject_Z 1) with (1 # 1)%Q in H. lra.
  - apply Qfloor_le.
Qed.

Lemma Math_round_le (x y : Q) : (x <= y)%Q -> (Math_round x <= Math_round y)%Z.
Proof.
  intros H. unfold Math_round. apply Qfloor_resp_le. lra.
Qed.

Lemma Math_round_Z (z : Z) : Math_round (inject_Z z) = z.
Proof.
  unfold Math_round.
  pose proof (Qfloor_le (inject_Z z + (1 # 2))) as Hle.
  pose proof (Qlt_floor (inject_Z z + (1 # 2))) as Hlt.
  set (f := Qfloor (inject_Z z + (1 # 2))) in *.
  assert (H1 : (f <= z)%Z).
  { destruct (Z_le_gt_dec f z) as [H|H]; [assumption|exfalso].
    assert (Hq : (inject_Z (z + 1) <= inject_Z f)%Q) by (rewrite <- Zle_Qle; lia).
    rewrite inject_Z_plus in Hq. change (inject_Z 1) with (1 # 1)%Q in Hq. lra. }
  assert (H2 : (z <= f)%Z).
  { destruct (Z_le_gt_dec z f) as [H|H]; [assumption|exfalso].
    assert (Hq : (inject_Z (f + 1) <= inject_Z z)%Q) by (rewrite <- Zle_Qle; lia).
    rewrite inject_Z_plus in Hq, Hlt. change (inject_Z 1) with (1 # 1)%Q in Hq, Hlt.
    lra. }
  lia.
Qed.

(** The two clamps: the later one wins. *)
Lemma tooltip_left_bounds (g : measures) :
  (tooltip_left N g <= maxLeft N g)%Q
  /\ ((minLeft N g <= maxLeft N g)%Q -> (minLeft N g <= tooltip_left N g)%Q).
Proof.
  unfold tooltip_left. cbv zeta.
  set (left := num_add N (num_add N (scrollX g) (rect_left g))
                 (num_half N (num_sub N (rect_width g) (ttRect_width g)))).
  destruct (num_lt left (minLeft N g)) eqn:E1.
  - destruct (num_lt (maxLeft N g) (minLeft N g)) eqn:E2.
    + apply num_lt_true in E2. split; [lra | intros H; lra].
    + apply num_lt_false in E2. split; [exact E2 | intros _; lra].
  - apply num_lt_false in E1.
    destruct (num_lt (maxLeft N g) left) eqn:E2.
    + split; [lra | intros H; exact H].
    + apply num_lt_false in E2. split; [exact E2 | intros _; exact E1].
Qed.

End TooltipFacts.

(** X21. Hovering a card finds its product. On every page reached by a
    script that ran to its end through events that display plain products
    only, the pointer entering a card of the container gives the tooltip
    the description of the first displayed product with the card's id, or
    "No description" when that is empty; the tooltip is displayed as a
    block, still transparent, with one more frame callback requested and
    its timers as they were. *)
Theorem hover_shows_description (N : numbers) (P : platform) (stored : option string)
    (events : list event) (i : nat) (c : card) (g : measures) (t : tooltip) :
  started P stored = true ->
  forallb plain_event events = true ->
  nth_error (productsContainer (current (run P events (page_load P stored)))) i = Some c ->
  exists p,
    find (fun p => id p =? card_id c)%Z
      (displayed (current (run P events (page_load P stored)))) = Some p
    /\ innerText (card_mouseenter N i g (current (run P events (page_load P stored))) t)
       = (if String.eqb (description p) EmptyString then "No description"
          else description p)
    /\ style_opacity (card_mouseenter N i g (current (run P events (page_load P stored))) t)
       = "0"
    /\ style_display (card_mouseenter N i g (current (run P events (page_load P stored))) t)
       = "block"
    /\ animation_frames
         (card_mouseenter N i g (current (run P events (page_load P stored))) t)
       = S (animation_frames t)
    /\ timeouts (card_mouseenter N i g (current (run P events (page_load P stored))) t)
       = timeouts t.
Proof.
  intros _ _ Hnth.
  destruct (find_by_card_id c _ _ i (reachable_cards P stored events) Hnth)
    as (p & Hfind & _).
  exists p. split; [assumption|].
  unfold card_mouseenter. rewrite Hnth.
  unfold displayed in Hfind. rewrite Hfind. simpl. now repeat split.
Qed.

Lemma hover_shows_description_witness :
  innerText (card_mouseenter exact_numbers 0 near_left_edge
               (current Session.browsing) productTooltip_created)
  = "Hydrates the skin".
Proof.
  destruct (hover_shows_description exact_numbers Session.browser None
              [CategoryChange Session.catalog "skincare"] 0 (mkCard 7 false)
              near_left_edge productTooltip_created eq_refl eq_refl eq_refl)
    as (p & Hfind & Htext & _).
  vm_compute in Hfind. injection Hfind as <-. exact Htext.
Defined.

(** X22. The tooltip stays within the margins up to the rounding. The
    [left] written to the style is [Math.round] of the clamped offset,
    which is never greater than [maxLeft]: the written offset exceeds
    [maxLeft] by half a pixel at most, and not at all when [maxLeft] is a
    whole number. When [minLeft] is not greater than [maxLeft] (the
    tooltip fits between the margins), the clamped offset is not less than
    [minLeft] either: the written offset is above [minLeft] less half a
    pixel, and not below [minLeft] when that is a whole number. *)
Theorem tooltip_left_clamped (N : numbers) (g : measures) (product : product)
    (t : tooltip) :
  style_left (showTooltipForCard N (Some product) g t)
  = string_of_Z (Math_round (tooltip_left N g)) +++ "px"
  /\ (tooltip_left N g <= maxLeft N g)%Q
  /\ (inject_Z (Math_round (tooltip_left N g)) <= maxLeft N g + (1 # 2))%Q
  /\ (forall z : Z, (maxLeft N g == inject_Z z)%Q ->
        (Math_round (tooltip_left N g) <= z)%Z)
  /\ ((minLeft N g <= maxLeft N g)%Q ->
      (minLeft N g <= tooltip_left N g)%Q
      /\ (minLeft N g - (1 # 2) < inject_Z (Math_round (tooltip_left N g)))%Q
      /\ (forall z : Z, (minLeft N g == inject_Z z)%Q ->
            (z <= Math_round (tooltip_left N g))%Z)).
Proof.
  destruct (tooltip_left_bounds N g) as [Hmax Hmin].
  split; [reflexivity|]. split; [exact Hmax|]. split; [|split].
  - pose proof (Math_round_near (tooltip_left N g)). lra.
  - intros z Hz. rewrite <- (Math_round_Z z). apply Math_round_le. lra.
  - intros Hfit. specialize (Hmin Hfit). split; [exact Hmin|]. split.
    + pose proof (Math_round_near (tooltip_left N g)). lra.
    + intros z Hz. rewrite <- (Math_round_Z z). apply Math_round_le. lra.
Qed.

(** Near the left edge the centred offset would be negative ten and a
    half: the tooltip is written at the left margin. Near the right edge
    it would pass the margin: it is written at [maxLeft], 775. *)
Lemma tooltip_left_clamped_witness :
  style_left (showTooltipForCard exact_numbers (Some Session.serum) near_left_edge
                productTooltip_created) = "8px"
  /\ style_left (showTooltipForCard exact_numbers (Some Session.serum) near_right_edge
                   productTooltip_created) = "775px"
  /\ (8 <= Math_round (tooltip_left exact_numbers near_left_edge))%Z.
Proof.
  destruct (tooltip_left_clamped exact_numbers near_left_edge Session.serum
              productTooltip_created) as (Hleft & _ & _ & _ & Hmin).
  destruct (tooltip_left_clamped exact_numbers near_right_edge Session.serum
              productTooltip_created) as (Hright & _).
  split; [exact Hleft|]. split; [exact Hright|].
  destruct Hmin as (_ & _ & Hwhole); [vm_compute; discriminate|].
  apply Hwhole. vm_compute; reflexivity.
Defined.

(** X23. Leaving hides the tooltip. When no frame callback is pending, a
    pointer leaving the card followed by any callbacks and further leaves,
    one timer firing among them and no card entered, ends with the tooltip
    transparent and not displayed. *)
Theorem leave_hides_tooltip (N : numbers) (s : state) (events : list hover)
    (t : tooltip) :
  animation_frames t = 0 ->
  Forall (fun e => is_MouseEnter e = false) events ->
  In TimerFires events ->
  style_display (hover_run N s (MouseLeave :: events) t) = "none"
  /\ style_opacity (hover_run N s (MouseLeave :: events) t) = "0".
Proof.
  intros Hf Hev Hin. simpl.
  assert (Hfad : fading (card_mouseleave t)).
  { unfold fading, card_mouseleave, hideTooltip. simpl.
    repeat split; [assumption | right; lia]. }
  destruct (fading_run N s events _ Hev Hfad) as ((Ho & _) & Hnone).
  split; [apply Hnone; now left | exact Ho].
Qed.

Lemma leave_hides_tooltip_witness :
  style_display
    (hover_run exact_numbers (current Session.browsing)
       [MouseEnter 0 near_left_edge; AnimationFrame; MouseLeave; TimerFires]
       productTooltip_created)
  = "none".
Proof.
  apply (leave_hides_tooltip exact_numbers (current Session.browsing) [TimerFires]
           (hover_run exact_numbers (current Session.browsing)
              [MouseEnter 0 near_left_edge; AnimationFrame] productTooltip_created)).
  - reflexivity.
  - repeat constructor.
  - left. reflexivity.
Defined.

(** X24. A pass that ends before the next frame leaves the tooltip shown.
    On a reachable page with nothing pending on the tooltip, the pointer
    entering a card and leaving it before the frame callback runs ends,
    once that callback and the timer have run, with the tooltip displayed
    and opaque; no callback is left, so it stays until the pointer enters
    or leaves a card again. *)
Theorem quick_pass_keeps_tooltip (N : numbers) (P : platform) (stored : option string)
    (events : list event) (i : nat) (c : card) (g : measures) (t : tooltip)
    (later : list hover) :
  nth_error (productsContainer (current (run P events (page_load P stored)))) i = Some c ->
  animation_frames t = 0 ->
  timeouts t = 0 ->
  Forall (fun e => is_mouse e = false) later ->
  style_display
    (hover_run N (current (run P events (page_load P stored)))
       (MouseEnter i g :: MouseLeave :: AnimationFrame :: TimerFires :: later) t)
  = "block"
  /\ style_opacity
       (hover_run N (current (run P events (page_load P stored)))
          (MouseEnter i g :: MouseLeave :: AnimationFrame :: TimerFires :: later) t)
     = "1".
Proof.
  intros Hnth Hf Ht Hlater.
  destruct (find_by_card_id c _ _ i (reachable_cards P stored events) Hnth)
    as (p & Hfind & _).
  unfold displayed in Hfind.
  cbn [hover_run fold_left hover_step].
  unfold card_mouseenter. rewrite Hnth, Hfind.
  unfold showTooltipForCard, card_mouseleave, hideTooltip, animation_frame, timer_fires.
  cbn. rewrite Hf, Ht. cbn.
  change (fold_left (hover_step N ?s) later ?u) with (hover_run N s later u).
  rewrite callbacks_idle by (assumption || reflexivity). now split.
Qed.

Lemma quick_pass_keeps_tooltip_witness :
  style_display
    (hover_run exact_numbers (current Session.browsing)
       [MouseEnter 0 near_left_edge; MouseLeave; AnimationFrame; TimerFires;
        TimerFires; AnimationFrame]
       productTooltip_created)
  = "block".
Proof.
  apply (quick_pass_keeps_tooltip exact_numbers Session.browser None
           [CategoryChange Session.catalog "skincare"] 0 (mkCard 7 false)
           near_left_edge productTooltip_created [TimerFires; AnimationFrame]).
  - reflexivity.
  - reflexivity.
  - reflexivity.
  - repeat constructor.
Defined.

(** X25. Coming back during the delay. On a reachable page, whatever is
    pending on the tooltip, the pointer leaving a card and entering one
    again before the timer fires: if a frame callback runs before the
    timer, the timer spares the tooltip, which ends displayed and opaque;
    if the timer fires first, it finds the tooltip still transparent and
    hides it, and the frame callback then makes it opaque but not
    displayed. *)
Theorem reentry_within_delay (N : numbers) (P : platform) (stored : option string)
    (events : list event) (i : nat) (c : card) (g : measures) (t : tooltip) :
  nth_error (productsContainer (current (run P events (page_load P stored)))) i = Some c ->
  (style_display
     (hover_run N (current (run P events (page_load P stored)))
        [MouseLeave; MouseEnter i g; AnimationFrame; TimerFires] t) = "block"
   /\ style_opacity
        (hover_run N (current (run P events (page_load P stored)))
           [MouseLeave; MouseEnter i g; AnimationFrame; TimerFires] t) = "1")
  /\ (style_display
        (hover_run N (current (run P events (page_load P stored)))
           [MouseLeave; MouseEnter i g; TimerFires; AnimationFrame] t) = "none"
      /\ style_opacity
           (hover_run N (current (run P events (page_load P stored)))
              [MouseLeave; MouseEnter i g; TimerFires; AnimationFrame] t) = "1").
Proof.
  intros Hnth.
  destruct (find_by_card_id c _ _ i (reachable_cards P stored events) Hnth)
    as (p & Hfind & _).
  unfold displayed in Hfind.
  cbn [hover_run fold_left hover_step].
  unfold card_mouseenter. rewrite Hnth, Hfind.
  unfold showTooltipForCard, card_mouseleave, hideTooltip, animation_frame, timer_fires.
  cbn. now repeat split.
Qed.

Lemma reentry_within_delay_witness :
  style_display
    (hover_run exact_numbers (current Session.browsing)
       [MouseLeave; MouseEnter 1 near_left_edge; TimerFires; AnimationFrame]
       productTooltip_created)
  = "none".
Proof.
  destruct (reentry_within_delay exact_numbers Session.browser None
              [CategoryChange Session.catalog "skincare"] 1 (mkCard 9 false)
              near_left_edge productTooltip_created eq_refl)
    as (_ & Hnone & _).
  exact Hnone.
Defined.
